(** * PeerLinks: the channel core, its in-memory storage and the sync agent

    A shallow embedding of the JavaScript sources (Channel, Message, Chain,
    Link, the Memory storage and SyncAgent), followed by the properties that
    the specification states about them.

    Conventions.
    - A [Buffer] is a list of bytes; [toHex] is [buf.toString('hex')].
    - Timestamps are JavaScript numbers, that is IEEE 754 doubles: they are
      kept as primitive floats, so that NaN and the infinities behave as in
      the source.  Heights are integers (an [int64] on the wire); they are
      kept in [Z], which agrees with double arithmetic below 2^53.
    - [Channel] reads three properties that no class of the sources
      defines: [message.timestamp], [message.body] and the [length] of a
      chain.  What these reads give is the class [Message.Getters];
      [Message.absent] is what they give in the sources as they are, that is
      [undefined].  The properties stated of the sources are stated with
      [Message.absent]; those stated for every [Message.Getters] hold of the
      sources in particular.
    - [throw] is the [Throw] result; an [async] method that only awaits the
      storage is a function of the storage value.
    - [sodium] is an option of every constructor in the source: it is the
      class [Sodium] here.  The generated protobuf module and [JSON.parse]
      are the class [Proto]. *)

From Stdlib Require Import ZArith List Bool String Ascii Floats Lia Sorted.
From Stdlib.Strings Require Import Byte.
From stdpp Require Import gmap strings list pretty.

(** ** Exceptions *)

Inductive Exn : Type :=
| BanError (message : string)
| Error (message : string)
| TypeError (message : string).

Inductive Result (A : Type) : Type :=
| Ok (a : A)
| Throw (e : Exn).

Arguments Ok {A} a.
Arguments Throw {A} e.

#[global] Instance Result_ret : MRet Result := fun A a => Ok a.
#[global] Instance Result_bind : MBind Result := fun A B k r =>
  match r with Ok a => k a | Throw e => Throw e end.

Definition isBan (e : Exn) : bool :=
  match e with BanError _ => true | _ => false end.

(** ** Buffers *)

Definition Buffer : Type := list byte.

Definition hexDigits : list ascii :=
  ["0"; "1"; "2"; "3"; "4"; "5"; "6"; "7"; "8"; "9"; "a"; "b"; "c"; "d"; "e"; "f"]%char.

Definition hexDigit (n : N) : ascii := nth (N.to_nat n) hexDigits "0"%char.

Definition hexValue (c : ascii) : option N :=
  let n := N_of_ascii c in
  if (48 <=? n)%N && (n <=? 57)%N then Some (n - 48)%N
  else if (97 <=? n)%N && (n <=? 102)%N then Some (n - 87)%N
  else if (65 <=? n)%N && (n <=? 70)%N then Some (n - 55)%N
  else None.

(** [buf.toString('hex')] *)
Fixpoint toHex (buf : Buffer) : string :=
  match buf with
  | [] => EmptyString
  | b :: rest =>
      String (hexDigit (Byte.to_N b / 16)%N)
        (String (hexDigit (Byte.to_N b mod 16)%N) (toHex rest))
  end.

(** [Buffer.from(hex, 'hex')]: decoding stops at the first pair that is not
    two hexadecimal digits. *)
Fixpoint fromHex (hex : string) : Buffer :=
  match hex with
  | String hi (String lo rest) =>
      match hexValue hi, hexValue lo with
      | Some h, Some l =>
          match Byte.of_N (16 * h + l)%N with
          | Some b => b :: fromHex rest
          | None => []
          end
      | _, _ => []
      end
  | _ => []
  end.

(** [Buffer.from(text)] for the ASCII constants of the source. *)
Definition bufferFrom (text : string) : Buffer := list_byte_of_string text.

Definition byte_eqb (a b : byte) : bool := (Byte.to_N a =? Byte.to_N b)%N.

Fixpoint Buffer_equals (a b : Buffer) : bool :=
  match a, b with
  | [], [] => true
  | x :: a', y :: b' => byte_eqb x y && Buffer_equals a' b'
  | _, _ => false
  end.

(** [Buffer.compare(a, b)]: byte-wise, a proper prefix first. *)
Fixpoint Buffer_compare (a b : Buffer) : comparison :=
  match a, b with
  | [], [] => Eq
  | [], _ :: _ => Lt
  | _ :: _, [] => Gt
  | x :: a', y :: b' =>
      match (Byte.to_N x ?= Byte.to_N y)%N with
      | Eq => Buffer_compare a' b'
      | c => c
      end
  end.

(** [array.slice(start, stop)]: a negative index counts from the end, and
    both are clamped to the array. *)
Definition sliceIndex (len : nat) (i : Z) : nat :=
  if (i <? 0)%Z then Z.to_nat (Z.max (Z.of_nat len + i) 0)
  else Nat.min (Z.to_nat i) len.

Definition slice {A} (start stop : Z) (l : list A) : list A :=
  let k := sliceIndex (length l) start in
  let final := sliceIndex (length l) stop in
  take (final - k) (drop k l).

(** [array.slice(start)] *)
Definition sliceFrom {A} (start : Z) (l : list A) : list A :=
  drop (sliceIndex (length l) start) l.

(** [array.findIndex(x => !x)] *)
Fixpoint findMissing {A} (l : list (option A)) : option nat :=
  match l with
  | [] => None
  | None :: _ => Some 0
  | Some _ :: rest => S <$> findMissing rest
  end.

(** [array.filter(x => !!x)] on an array of objects and [undefined]s. *)
Definition filterDefined {A} (l : list (option A)) : list A := omap (fun x => x) l.

(** [array.findIndex(p)]; [None] is [-1]. *)
Fixpoint findIndex {A} (p : A -> bool) (l : list A) : option nat :=
  match l with
  | [] => None
  | x :: rest => if p x then Some 0 else S <$> findIndex p rest
  end.

(** [array[i]] for an integer [i]: [undefined] outside of the array. *)
Definition at_index {A} (l : list A) (i : Z) : option A :=
  if (i <? 0)%Z then None else l !! Z.to_nat i.

(** A JavaScript [Map] with string keys iterates in the order in which the
    keys were first set: it is kept as the list of its entries. *)
Fixpoint Map_set {V} (key : string) (value : V) (m : list (string * V))
    : list (string * V) :=
  match m with
  | [] => [(key, value)]
  | (k, v) :: rest =>
      if String.eqb k key then (k, value) :: rest
      else (k, v) :: Map_set key value rest
  end.

Fixpoint Map_get {V} (key : string) (m : list (string * V)) : option V :=
  match m with
  | [] => None
  | (k, v) :: rest => if String.eqb k key then Some v else Map_get key rest
  end.

Definition Map_has {V} (key : string) (m : list (string * V)) : bool :=
  bool_decide (is_Some (Map_get key m)).

Definition Map_delete {V} (key : string) (m : list (string * V)) : list (string * V) :=
  List.filter (fun entry => negb (String.eqb (fst entry) key)) m.

Definition Map_keys {V} (m : list (string * V)) : list string := map fst m.

(** ** Numbers *)

Module Js.

(** [Math.max(a, b)]: NaN when either argument is NaN, and [+0] above [-0]. *)
Definition Math_max (a b : float) : float :=
  if is_nan a || is_nan b then nan
  else if (a <? b)%float then b
  else if (b <? a)%float then a
  else if get_sign a then b else a.

(** [a > b] and [a >= b] *)
Definition gt (a b : float) : bool := (b <? a)%float.
Definition ge (a b : float) : bool := (b <=? a)%float.

(** A number read from a property that may be [undefined]: in a comparison
    and in [Math.max], [undefined] is converted to NaN. *)
Definition toNumber (value : option float) : float := default nan value.

(** [long.toNumber()] of an [int64]: [high * 2^32 + low] in double
    arithmetic, which is the double nearest to the integer, ties to even.
    Below 2^53 it is the integer itself. *)
Definition roundToDouble (z : Z) : Z :=
  let magnitude := Z.abs z in
  if (magnitude <? 2 ^ 53)%Z then z
  else
    let e := (Z.log2 magnitude - 52)%Z in
    let q := (magnitude / 2 ^ e)%Z in
    let r := (magnitude mod 2 ^ e)%Z in
    let half := (2 ^ (e - 1))%Z in
    let rounded :=
      if (r <? half)%Z then q
      else if (half <? r)%Z then (q + 1)%Z
      else if Z.even q then q else (q + 1)%Z in
    (Z.sgn z * (rounded * 2 ^ e))%Z.

End Js.

(** ** The injected [sodium] binding and the generated protobuf module *)

(** The key a chain walk hands to the signature check: a public key, or
    [false] when a link did not verify. *)
Definition LeafKey : Type := option Buffer.

Class Sodium : Type := {
  crypto_secretbox_NONCEBYTES : nat;
  crypto_secretbox_MACBYTES : nat;
  crypto_secretbox_KEYBYTES : nat;
  crypto_sign_BYTES : nat;
  crypto_sign_PUBLICKEYBYTES : nat;
  (** [crypto_generichash(out, input, key)], [out] of the given length *)
  crypto_generichash : nat -> Buffer -> option Buffer -> Buffer;
  (** [crypto_secretbox_easy(box, data, nonce, key)]: the box written *)
  crypto_secretbox_easy : Buffer -> Buffer -> Buffer -> Buffer;
  (** [crypto_secretbox_open_easy(data, box, nonce, key)]: the data written
      on success *)
  crypto_secretbox_open_easy : Buffer -> Buffer -> Buffer -> option Buffer;
  (** [crypto_sign_detached(signature, message, secretKey)] *)
  crypto_sign_detached : Buffer -> Buffer -> Buffer;
  (** [crypto_sign_verify_detached(signature, message, publicKey)]; a
      binding may throw on an argument it does not take *)
  crypto_sign_verify_detached : Buffer -> Buffer -> LeafKey -> Result bool;
}.

(** What libsodium promises of the secret box and of the hash length. *)
Class SodiumLaws (S : Sodium) : Prop := {
  crypto_generichash_length : forall n input key,
    length (crypto_generichash n input key) = n;
  crypto_secretbox_easy_length : forall data nonce key,
    length (crypto_secretbox_easy data nonce key)
    = (length data + crypto_secretbox_MACBYTES)%nat;
  crypto_secretbox_open_easy_easy : forall data nonce key,
    length nonce = crypto_secretbox_NONCEBYTES ->
    length key = crypto_secretbox_KEYBYTES ->
    crypto_secretbox_open_easy (crypto_secretbox_easy data nonce key) nonce key
    = Some data;
}.

(** [sodium.randombytes_buf(buf)] fills [buf] with the next bytes of the
    generator, whose output is the stream [rnd]. *)
Definition randombytes_buf (rnd : nat -> byte) (n : nat) : Buffer :=
  map rnd (seq 0 n).

(** A decoded protobuf [Link]. *)
Module PLink.
Record t : Type := {
  trusteePubKey : Buffer;
  trusteeDisplayName : string;
  validFrom : float;
  validTo : float;
  signature : Buffer;
}.
End PLink.

(** [ChannelMessage.Body]: [{ root: {} }] or [{ json }]. *)
Inductive Body : Type :=
| Root
| Json (json : string).

(** A decoded [ChannelMessage.Content]. *)
Module PContent.
Record t : Type := {
  chain : list PLink.t;
  timestamp : float;
  body : Body;
  signature : Buffer;
}.
End PContent.

Class Proto : Type := {
  (** [PLink.TBS.encode({trusteePubKey, validFrom, validTo,
      trusteeDisplayName, channelId}).finish()] *)
  Link_TBS_encode : Buffer -> float -> float -> string -> Buffer -> Buffer;
  (** [PChannelMessage.Content.TBS.encode({chain, timestamp, body, parents,
      height}).finish()] *)
  Content_TBS_encode :
    list PLink.t -> float -> Body -> list Buffer -> Z -> Buffer;
  (** [PChannelMessage.Content.encode(content).finish()] *)
  Content_encode : PContent.t -> Buffer;
  (** [PChannelMessage.Content.decode(cleartext)], [None] when it throws *)
  Content_decode : Buffer -> option PContent.t;
  (** [PChannelMessage.encode({channelId, parents, height, nonce,
      encryptedContent}).finish()] *)
  ChannelMessage_encode :
    Buffer -> list Buffer -> Z -> Buffer -> Buffer -> Buffer;
  (** [JSON.parse(text)] returns *)
  JSON_parses : string -> bool;
}.

(** ** Constants *)

Definition ID_SIZE : nat := 32.
Definition HASH_SIZE : nat := 32.
Definition MAX_LENGTH : nat := 3.
Definition MAX_DISPLAY_NAME_LENGTH : nat := 128.
Definition MAX_PARENT_DELTA : float := 2592000%float.
Definition MAX_QUERY_LIMIT : Z := 1024.
Definition MAX_UNRESOLVED_COUNT : Z := 262144.
Definition MAX_BULK_COUNT : Z := 128.
Definition MAX_LEAVES_COUNT : nat := 128.
Definition FUTURE : float := 120%float.

Definition ID_KEY : Buffer := bufferFrom "peerlinks-channel-id".
Definition ENC_KEY : Buffer := bufferFrom "peerlinks-symmetric".

(** ** The channel's keys (the constructor of [Channel]) *)

Module ChannelCore.

Record Options : Type := {
  maxQueryLimit : Z;
  maxUnresolvedCount : Z;
  maxBulkCount : Z;
}.

Definition defaults : Options :=
  {| maxQueryLimit := MAX_QUERY_LIMIT;
     maxUnresolvedCount := MAX_UNRESOLVED_COUNT;
     maxBulkCount := MAX_BULK_COUNT |}.

Record t : Type := {
  options : Options;
  name : string;
  publicKey : Buffer;
  isFeed : bool;
}.

Section WithSodium.
Context {sodium : Sodium}.

Definition id (channel : t) : Buffer :=
  crypto_generichash ID_SIZE (publicKey channel) (Some ID_KEY).

Definition encryptionKey (channel : t) : Buffer :=
  crypto_generichash crypto_secretbox_KEYBYTES (publicKey channel) (Some ENC_KEY).

(** [Channel.checkId(id, message)] *)
Definition checkId (id : option Buffer) (message : string) : Result unit :=
  match id with
  | Some id => if (length id =? ID_SIZE)%nat then Ok tt else Throw (BanError message)
  | None => Throw (BanError message)
  end.

End WithSodium.

(** [Channel.jsonLimit(chainLength)]; the limit [None] is [Infinity].  The
    chain length is what the caller read: a number, or [undefined], which
    takes the [default] branch of the [switch]. *)
Definition jsonLimit (chainLength : option nat) : Result (option Z) :=
  match chainLength with
  | Some 0 => Ok None
  | Some 1 => Ok (Some 2097152%Z)
  | Some 2 => Ok (Some 524288%Z)
  | Some 3 => Ok (Some 8192%Z)
  | Some n => Throw (Error ("Unexpected chain length: " +:+ pretty n))
  | None => Throw (Error "Unexpected chain length: undefined")
  end%nat.

(** [Channel.checkJSONLimit(json = '', chainLength)] *)
Definition checkJSONLimit (json : option string) (chainLength : option nat)
    : Result unit :=
  limit ← jsonLimit chainLength;
  let json := default EmptyString json in
  match limit with
  | None => Ok tt
  | Some limit =>
      if (limit <? Z.of_nat (String.length json))%Z then
        Throw (BanError ("Message body length overflow. Expected less or equal to: "
                         +:+ pretty limit +:+ ". Got: " +:+ pretty (String.length json)))
      else Ok tt
  end.

(** [body.json]: absent on a root body. *)
Definition Body_json (body : Body) : option string :=
  match body with Root => None | Json json => Some json end.

(** [body.root] is truthy. *)
Definition Body_root (body : Body) : bool :=
  match body with Root => true | Json _ => false end.

End ChannelCore.

(** ** Link *)

Module Link.

Record t : Type := {
  validFrom : float;
  validTo : float;
  trusteePubKey : Buffer;
  trusteeDisplayName : string;
  signature : Buffer;
}.

Section WithSodium.
Context {sodium : Sodium} {proto : Proto}.

(** The constructor, reached through [Link.deserialize(decoded, options)]. *)
Definition deserialize (decoded : PLink.t) : Result t :=
  let name := PLink.trusteeDisplayName decoded in
  if (String.length name =? 0)%nat then
    Throw (BanError "`trusteeDisplayName` is mandatory for the Link")
  else if (MAX_DISPLAY_NAME_LENGTH <? String.length name)%nat then
    Throw (BanError ("Invalid trusteeDisplayName length: " +:+ pretty (String.length name)))
  else if negb (length (PLink.signature decoded) =? crypto_sign_BYTES)%nat then
    Throw (BanError "Invalid signature length")
  else if negb (length (PLink.trusteePubKey decoded) =? crypto_sign_PUBLICKEYBYTES)%nat then
    Throw (BanError "Invalid public key length")
  else
    Ok {| validFrom := PLink.validFrom decoded;
          validTo := PLink.validTo decoded;
          trusteePubKey := PLink.trusteePubKey decoded;
          trusteeDisplayName := name;
          signature := PLink.signature decoded |}.

Definition isValid (link : t) (timestamp : float) : bool :=
  (validFrom link <=? timestamp)%float && (timestamp <? validTo link)%float.

Definition tbs (channel : ChannelCore.t) (link : t) : Buffer :=
  Link_TBS_encode (trusteePubKey link) (validFrom link) (validTo link)
    (trusteeDisplayName link) (ChannelCore.id channel).

Definition verify (channel : ChannelCore.t) (link : t) (publicKey : Buffer)
    (timestamp : float) : Result bool :=
  if negb (isValid link timestamp) then Ok false
  else crypto_sign_verify_detached (signature link) (tbs channel link) (Some publicKey).

(** [link.serialize()] *)
Definition serialize (link : t) : PLink.t :=
  {| PLink.trusteePubKey := trusteePubKey link;
     PLink.trusteeDisplayName := trusteeDisplayName link;
     PLink.validFrom := validFrom link;
     PLink.validTo := validTo link;
     PLink.signature := signature link |}.

End WithSodium.
End Link.

(** ** Chain *)

Module Chain.

Record t : Type := { links : list Link.t }.

Section WithSodium.
Context {sodium : Sodium} {proto : Proto}.

(** [new Chain(links)] *)
Definition new (links : list Link.t) : Result t :=
  if (MAX_LENGTH <? length links)%nat then
    Throw (Error ("Chain length overflow: " +:+ pretty (length links)))
  else Ok {| links := links |}.

(** The loop of [getLeafKey]: [false] at the first link that does not
    verify under the key reached so far. *)
Fixpoint walk (channel : ChannelCore.t) (timestamp : float) (leafKey : Buffer)
    (rest : list Link.t) : Result LeafKey :=
  match rest with
  | [] => Ok (Some leafKey)
  | link :: rest =>
      ok ← Link.verify channel link leafKey timestamp;
      if ok : bool then walk channel timestamp (Link.trusteePubKey link) rest
      else Ok None
  end.

Definition getLeafKey (chain : t) (channel : ChannelCore.t) (timestamp : float)
    : Result LeafKey :=
  walk channel timestamp (ChannelCore.publicKey channel) (links chain).

(** [chain.verify(channel, timestamp)]: [!!] of the leaf key. *)
Definition verify (chain : t) (channel : ChannelCore.t) (timestamp : float) : Result bool :=
  leafKey ← getLeafKey chain channel timestamp;
  Ok (bool_decide (is_Some leafKey)).

(** [chain.serialize()] *)
Definition serialize (chain : t) : list PLink.t := map Link.serialize (links chain).

End WithSodium.
End Chain.

(** ** Message *)

Module Message.

Record t : Type := {
  channelId : Buffer;
  parents : list Buffer;
  height : Z;
  nonce : Buffer;
  (** the decrypted content, once the message has been decrypted *)
  content : option PContent.t;
  encryptedContent : Buffer;
  hash : Buffer;
}.

(** The options of the constructor. *)
Record Options : Type := {
  o_channel : option ChannelCore.t;
  o_channelId : option Buffer;
  o_parents : list Buffer;
  o_height : Z;
  o_nonce : option Buffer;
  o_content : option PContent.t;
  o_encryptedContent : option Buffer;
}.

(** A decoded [ChannelMessage].  Its height is a [Long] when the protobuf
    reader made it, and a number when [message.serialize()] did. *)
Inductive WireHeight : Type :=
| Number (height : Z)
| Long (height : Z).

Record Decoded : Type := {
  d_channelId : Buffer;
  d_parents : list Buffer;
  d_height : WireHeight;
  d_nonce : Buffer;
  d_encryptedContent : Buffer;
}.

(** [Message.checkHash(hash, message)] *)
Definition checkHash (hash : Buffer) (message : string) : Result unit :=
  if (length hash =? HASH_SIZE)%nat then Ok tt else Throw (BanError message).

(** [hashes.forEach((hash) => Message.checkHash(hash, message))] *)
Fixpoint checkHashes (hashes : list Buffer) (message : string) : Result unit :=
  match hashes with
  | [] => Ok tt
  | hash :: rest => _ ← checkHash hash message; checkHashes rest message
  end.

Section WithSodium.
Context {sodium : Sodium} {proto : Proto}.

(** [message.encrypt(channel)], called by the constructor when the content
    is given and no encrypted content is. *)
Definition encrypt (channel : ChannelCore.t) (nonce : Buffer) (content : PContent.t)
    : Buffer :=
  crypto_secretbox_easy (Content_encode content) nonce (ChannelCore.encryptionKey channel).

(** [new Message(options)]; [rnd] is the generator read for a missing nonce. *)
Definition new (rnd : nat -> byte) (options : Options) : Result t :=
  channelId ←
    match o_channelId options, o_channel options with
    | Some id, _ => Ok (Some id)
    | None, Some channel => Ok (Some (ChannelCore.id channel))
    | None, None => Throw (TypeError "Cannot read property 'id' of undefined")
    end;
  let nonce :=
    match o_nonce options with
    | Some nonce => nonce
    | None => randombytes_buf rnd crypto_secretbox_NONCEBYTES
    end in
  _ ← ChannelCore.checkId channelId "Invalid channel id size";
  _ ← checkHashes (o_parents options) "Invalid parent hash";
  if (o_height options <? 0)%Z then Throw (BanError "Invalid height")
  else if negb (length nonce =? crypto_secretbox_NONCEBYTES)%nat then
    Throw (BanError "Invalid nonce size")
  else
    encrypted ←
      match o_content options, o_encryptedContent options, o_channel options with
      | None, None, _ =>
          Throw (Error "Either decrypted or encrypted content must be present")
      | Some _, _, None =>
          Throw (Error "`options.channel` is mandatory when `options.content` is present")
      | _, Some box, _ =>
          if (length box <? crypto_secretbox_MACBYTES)%nat then
            Throw (BanError "Invalid encrypted content")
          else Ok box
      | Some c, None, Some channel => Ok (encrypt channel nonce c)
      end;
    let id := default [] channelId in
    Ok {| channelId := id;
          parents := o_parents options;
          height := o_height options;
          nonce := nonce;
          content := o_content options;
          encryptedContent := encrypted;
          hash := crypto_generichash HASH_SIZE
                    (ChannelMessage_encode id (o_parents options) (o_height options)
                       nonce encrypted) None |}.

(** [Message.deserialize(decoded, options)]: [decoded.height.toNumber()] is
    a method of [Long]; a number has no such method, and the call throws
    before the constructor is reached. *)
Definition deserialize (decoded : Decoded) : Result t :=
  match d_height decoded with
  | Number _ => Throw (TypeError "decoded.height.toNumber is not a function")
  | Long height =>
      new (fun _ => x00%byte)
        {| o_channel := None; o_channelId := Some (d_channelId decoded);
           o_parents := d_parents decoded;
           o_height := Js.roundToDouble height;
           o_nonce := Some (d_nonce decoded); o_content := None;
           o_encryptedContent := Some (d_encryptedContent decoded) |}
  end.

(** [message.decrypt(channel)]: the message with its content set. *)
Definition decrypt (message : t) (channel : ChannelCore.t) : Result t :=
  match content message with
  | Some _ => Ok message
  | None =>
      match crypto_secretbox_open_easy (encryptedContent message) (nonce message)
              (ChannelCore.encryptionKey channel) with
      | None => Throw (BanError "Failed to decrypt message content")
      | Some cleartext =>
          match Content_decode cleartext with
          | None => Throw (Error "Content.decode")
          | Some c =>
              let decrypted :=
                {| channelId := channelId message; parents := parents message;
                   height := height message; nonce := nonce message;
                   content := Some c;
                   encryptedContent := encryptedContent message;
                   hash := hash message |} in
              match PContent.body c with
              | Root => Ok decrypted
              | Json json =>
                  if JSON_parses json then Ok decrypted
                  else Throw (BanError "Invalid JSON content. ")
              end
          end
      end
  end.

(** [message.chain]: the links of the content, deserialized. *)
Definition chain (c : PContent.t) : Result Chain.t :=
  links ← mapM Link.deserialize (PContent.chain c);
  Chain.new links.

Definition tbs (c : PContent.t) (parents : list Buffer) (height : Z) : Buffer :=
  Content_TBS_encode (PContent.chain c) (PContent.timestamp c) (PContent.body c)
    parents height.

(** [message.verify(channel)]: the verdict and the message, now decrypted.
    [timestamp] is the clock read by [getLeafKey]. *)
Definition verify (message : t) (channel : ChannelCore.t) (timestamp : float)
    : Result (bool * t) :=
  message ← decrypt message channel;
  match content message with
  | None => Throw (Error "Message must be decrypted first")
  | Some c =>
      links ← chain c;
      leafKey ← Chain.getLeafKey links channel timestamp;
      ok ← crypto_sign_verify_detached (PContent.signature c)
              (tbs c (parents message) (height message)) leafKey;
      Ok (ok, message)
  end.

(** [message.serialize()]: the constructor leaves no message without its
    encrypted content. *)
Definition serialize (message : t) : Decoded :=
  {| d_channelId := channelId message;
     d_parents := parents message;
     d_height := Number (height message);
     d_nonce := nonce message;
     d_encryptedContent := encryptedContent message |}.

(** [message.isRoot] *)
Definition isRoot (message : t) : Result bool :=
  match content message with
  | None => Throw (Error "Message has not been decrypted")
  | Some c => Ok (ChannelCore.Body_root (PContent.body c))
  end.

End WithSodium.

(** The properties of a message that [Channel] reads and no class defines.
    [Channel.receive] and [Channel.post] read [message.timestamp],
    [message.body] and [message.chain.length], of the message at hand and of
    the stored ones.  The class [Message] has the getters [chain], [isRoot]
    and [json] and no other, and [Chain] has [links] and no [length]: in the
    sources as they are each of the three reads gives [undefined].  These
    are the getters [absent].

    The channel takes its getters as the class [Getters]: what is proved of
    it for every [Getters] holds of the sources as they are, and would hold of
    classes that define the properties. *)
Class Getters : Type := {
  (** [message.timestamp] *)
  timestamp : t -> option float;
  (** [message.body] *)
  body : t -> option Body;
  (** [chain.length], of the chain that [message.chain] returns *)
  chainLength : Chain.t -> option nat;
}.

(** The getters of the sources as they are: every read gives [undefined]. *)
Definition absent : Getters :=
  {| timestamp := fun _ => None;
     body := fun _ => None;
     chainLength := fun _ => None |}.

(** Modelled from the spec: getters [timestamp] and [body] of [Message] and
    [length] of [Chain], which no class of the sources defines.  The
    specification gives a decrypted message its `chain, timestamp, body (root
    | json), signature` and sets the limit of a JSON body by the `chain
    length`: the getters read the timestamp and the body of the decrypted
    content, and the number of links of the chain. *)
Definition ofContent : Getters :=
  {| timestamp := fun message => PContent.timestamp <$> content message;
     body := fun message => PContent.body <$> content message;
     chainLength := fun chain => Some (length (Chain.links chain)) |}.

End Message.

(** ** The in-memory storage *)

Module Memory.

(** A JavaScript [Set] of strings iterates in insertion order. *)
Definition Set_add (x : string) (s : list string) : list string :=
  if bool_decide (x ∈ s) then s else s ++ [x].

Definition Set_delete (x : string) (s : list string) : list string :=
  filter (fun y => y ≠ x) s.

(** The comparator of [data.messages.sort]: height, then hash. *)
Definition compareMessages (a b : Message.t) : comparison :=
  if (Message.height a <? Message.height b)%Z then Lt
  else if (Message.height b <? Message.height a)%Z then Gt
  else Buffer_compare (Message.hash a) (Message.hash b).

(** [array.sort(compare)] is stable: an element stays behind the equal
    elements that preceded it. *)
Fixpoint insertSorted (x : Message.t) (sorted : list Message.t) : list Message.t :=
  match sorted with
  | [] => [x]
  | y :: rest =>
      match compareMessages x y with
      | Gt => y :: insertSorted x rest
      | _ => x :: y :: rest
      end
  end.

Definition sort (l : list Message.t) : list Message.t := foldr insertSorted [] l.

Record ChannelData : Type := {
  messages : list Message.t;
  messageByHash : gmap string Message.t;
  leaves : list string;
}.

Definition emptyData : ChannelData :=
  {| messages := []; messageByHash := ∅; leaves := [] |}.

Record t : Type := { channelData : gmap string ChannelData }.

Definition empty : t := {| channelData := ∅ |}.

(** [getChannelData(channelId)]: the data of the channel, fresh data when
    there is none. *)
Definition getChannelData (storage : t) (channelId : Buffer) : ChannelData :=
  default emptyData (channelData storage !! toHex channelId).

(** The body of [addMessage] once the channel data is at hand. *)
Definition addToData (data : ChannelData) (message : Message.t) : ChannelData :=
  let hash := toHex (Message.hash message) in
  if bool_decide (is_Some (messageByHash data !! hash)) then data
  else
    {| messages := sort (messages data ++ [message]);
       messageByHash := <[hash := message]> (messageByHash data);
       leaves :=
         Set_add hash
           (foldl (fun leaves parent => Set_delete (toHex parent) leaves)
              (leaves data) (Message.parents message)) |}.

(** [addMessage(message)]; [getChannelData(channelId, true)] registers the
    data of a channel seen for the first time. *)
Definition addMessage (storage : t) (message : Message.t) : t :=
  let data := getChannelData storage (Message.channelId message) in
  {| channelData :=
       <[toHex (Message.channelId message) := addToData data message]>
         (channelData storage) |}.

Definition getMessageCount (storage : t) (channelId : Buffer) : nat :=
  length (messages (getChannelData storage channelId)).

Definition hasMessage (storage : t) (channelId hash : Buffer) : bool :=
  bool_decide (is_Some (messageByHash (getChannelData storage channelId) !! toHex hash)).

Definition getMessage (storage : t) (channelId hash : Buffer) : option Message.t :=
  messageByHash (getChannelData storage channelId) !! toHex hash.

Definition getMessages (storage : t) (channelId : Buffer) (hashes : list Buffer)
    : list (option Message.t) :=
  map (getMessage storage channelId) hashes.

(** [getLeaves(channelId)]: each leaf is decoded from its hex form and
    looked up. *)
Definition getLeaves (storage : t) (channelId : Buffer) : list (option Message.t) :=
  map (fun hex => getMessage storage channelId (fromHex hex))
    (leaves (getChannelData storage channelId)).

Definition getMessageAtOffset (storage : t) (channelId : Buffer) (offset : nat)
    : option Message.t :=
  messages (getChannelData storage channelId) !! offset.

(** The cursor of a query: [{ hash }] or [{ height }]. *)
Inductive Cursor : Type :=
| AtHash (hash : Buffer)
| AtHeight (height : Z).

(** The predicate [query] hands to [findIndex]. *)
Definition atCursor (cursor : Cursor) (message : Message.t) : bool :=
  match cursor with
  | AtHash hash => Buffer_equals hash (Message.hash message)
  | AtHeight height => (Message.height message =? height)%Z
  end.

Record QueryResult : Type := {
  found : list Message.t;
  forwardHash : option Buffer;
  backwardHash : option Buffer;
}.

(** [message.hash] of an array element that may be [undefined]. *)
Definition hashOf (message : option Message.t) : Result (option Buffer) :=
  match message with
  | Some message => Ok (Some (Message.hash message))
  | None => Throw (TypeError "Cannot read property 'hash' of undefined")
  end.

(** [query(channelId, cursor, isBackward, limit)]; [found] is the field
    [messages] of the result. *)
Definition query (storage : t) (channelId : Buffer) (cursor : Cursor)
    (isBackward : bool) (limit : Z) : Result QueryResult :=
  let data := getChannelData storage channelId in
  match findIndex (atCursor cursor) (messages data) with
  | None => Ok {| found := []; forwardHash := None; backwardHash := None |}
  | Some index =>
      let index := Z.of_nat index in
      let count := Z.of_nat (length (messages data)) in
      let start := if isBackward then Z.max 0 (index - limit) else index in
      let stop := if isBackward then index else Z.min count (index + limit) in
      let found := slice start stop (messages data) in
      backwardHash ← (if (start =? 0)%Z then Ok None else hashOf (found !! 0));
      forwardHash ←
        (if (stop =? count)%Z then Ok None else hashOf (at_index (messages data) stop));
      Ok {| found := found; forwardHash := forwardHash; backwardHash := backwardHash |}
  end.

(** [clear()]: the channel data is cleared, then [this.channels], a field
    that no method sets, is read. *)
Definition clear (storage : t) : t * Result unit :=
  ({| channelData := ∅ |}, Throw (TypeError "Cannot read property 'clear' of undefined")).

(** The entities: a [Map] from a prefix to the [Map] of the serialized
    entities kept under it.  No method on messages reads or writes it. *)
Definition Entities : Type := list (string * list (string * Buffer)).

(** [storeEntity(prefix, id, entity)]; [data] is what
    [entity.serializeData()] returned. *)
Definition storeEntity (entities : Entities) (prefix id : string) (data : Buffer)
    : Entities :=
  let submap := if Map_has prefix entities then default [] (Map_get prefix entities) else [] in
  Map_set prefix (Map_set id data submap) entities.

(** [retrieveEntity(prefix, id, constructor, options)]; [deserializeData]
    is [constructor.deserializeData] with the options given. *)
Definition retrieveEntity {E} (entities : Entities) (prefix id : string)
    (deserializeData : Buffer -> Result E) : Result (option E) :=
  match Map_get prefix entities with
  | None => Ok None
  | Some submap =>
      match Map_get id submap with
      | None => Ok None
      | Some data => entity ← deserializeData data; Ok (Some entity)
      end
  end.

Definition removeEntity (entities : Entities) (prefix id : string) : Entities :=
  match Map_get prefix entities with
  | None => entities
  | Some submap => Map_set prefix (Map_delete id submap) entities
  end.

Definition getEntityKeys (entities : Entities) (prefix : string) : list string :=
  match Map_get prefix entities with
  | None => []
  | Some submap => Map_keys submap
  end.

End Memory.

(** ** The answer to a query *)

Module QueryResponse.

(** An abbreviated message: [{ parents, hash }]. *)
Record Abbreviated : Type := {
  parents : list Buffer;
  hash : Buffer;
}.

(** [{ abbreviatedMessages, forwardHash, backwardHash }], a hash being
    [null] when there is none. *)
Record t : Type := {
  abbreviatedMessages : list Abbreviated;
  forwardHash : option Buffer;
  backwardHash : option Buffer;
}.

Definition abbreviate (message : Message.t) : Abbreviated :=
  {| parents := Message.parents message; hash := Message.hash message |}.

End QueryResponse.

(** ** The storage cache of a channel *)

Module StorageCache.

(** Modelled from the spec: the class [StorageCache] (required by the
    channel as [./cache]) is not among the sources.  The specification gives
    a channel one storage behind the persistence interface ([add_message],
    [has_message], [get_messages], [get_leaves], [get_message_count]), each
    read scoped by the channel's id: the cache is that interface over the
    [Memory] backend, with nothing kept beside it. *)
Section WithSodium.
Context {sodium : Sodium}.

Definition hasMessage (channel : ChannelCore.t) (backend : Memory.t) (hash : Buffer) : bool :=
  Memory.hasMessage backend (ChannelCore.id channel) hash.

Definition getMessages (channel : ChannelCore.t) (backend : Memory.t)
    (hashes : list Buffer) : list (option Message.t) :=
  Memory.getMessages backend (ChannelCore.id channel) hashes.

Definition getLeaves (channel : ChannelCore.t) (backend : Memory.t)
    : list (option Message.t) :=
  Memory.getLeaves backend (ChannelCore.id channel).

Definition getMessageCount (channel : ChannelCore.t) (backend : Memory.t) : nat :=
  Memory.getMessageCount backend (ChannelCore.id channel).

Definition addMessage (backend : Memory.t) (message : Message.t) : Memory.t :=
  Memory.addMessage backend message.

(** Modelled from the spec: [query] of the cache is the [query] of the
    storage for the channel's id, the messages of its answer abbreviated to
    [{ parents, hash }]. *)
Definition query (channel : ChannelCore.t) (backend : Memory.t) (cursor : Memory.Cursor)
    (isBackward : bool) (limit : Z) : Result QueryResponse.t :=
  answer ← Memory.query backend (ChannelCore.id channel) cursor isBackward limit;
  Ok {| QueryResponse.abbreviatedMessages :=
          map QueryResponse.abbreviate (Memory.found answer);
        QueryResponse.forwardHash := Memory.forwardHash answer;
        QueryResponse.backwardHash := Memory.backwardHash answer |}.

End WithSodium.
End StorageCache.

(** ** Identity *)

Module Identity.

(** Modelled from the spec: the class [Identity] is not among the sources.
    The specification gives an identity a name, a signing key pair and one
    chain per channel id, and [sign_message_body(body, channel, {parents,
    height, timestamp})]: it builds the content with the identity's chain
    for the channel and signs the TBS under the secret key; it fails with
    NoChain when the identity has no chain for the channel, and with
    BodyTooLarge when the JSON exceeds the limit of the chain length. *)
Record t : Type := {
  name : string;
  publicKey : Buffer;
  secretKey : Buffer;
  channelChains : gmap string (list PLink.t);
}.

Section WithSodium.
Context {sodium : Sodium} {proto : Proto}.

Definition getChain (identity : t) (channel : ChannelCore.t) : option (list PLink.t) :=
  channelChains identity !! toHex (ChannelCore.id channel).

Definition signMessageBody (identity : t) (body : Body) (channel : ChannelCore.t)
    (parents : list Buffer) (height : Z) (timestamp : float) : Result Message.Options :=
  match getChain identity channel with
  | None => Throw (Error "NoChain")
  | Some chain =>
      _ ← ChannelCore.checkJSONLimit (ChannelCore.Body_json body) (Some (length chain));
      let tbs := Content_TBS_encode chain timestamp body parents height in
      Ok {| Message.o_channel := Some channel;
            Message.o_channelId := None;
            Message.o_parents := parents;
            Message.o_height := height;
            Message.o_nonce := None;
            Message.o_content :=
              Some {| PContent.chain := chain;
                      PContent.timestamp := timestamp;
                      PContent.body := body;
                      PContent.signature :=
                        crypto_sign_detached tbs (secretKey identity) |};
            Message.o_encryptedContent := None |}
  end.

End WithSodium.
End Identity.

(** ** Channel *)

Module Channel.

(** The two reads of [now()] while one message is received: by the chain
    walk of [verify], and by the bound on the future. *)
Record Clock : Type := { verifyNow : float; receiveNow : float }.

(** The result of [bulk]. *)
Record BulkResponse : Type := { messages : list Message.t; forwardIndex : Z }.

(** The result of [encrypt]. *)
Record Sealed : Type := { nonce : Buffer; box : Buffer }.

Definition computeHeight (parents : list Message.t) : Z :=
  foldl (fun acc parent => Z.max acc (Message.height parent + 1)) 0%Z parents.

Section WithGetters.
Context {getters : Message.Getters}.

Definition adjustTimestamp (parents : list Message.t) (timestamp : float) : float :=
  foldl (fun acc parent => Js.Math_max acc (Js.toNumber (Message.timestamp parent)))
    timestamp parents.

Definition computeMaxTimestamp (parents : list Message.t) : float :=
  foldl (fun acc parent => Js.Math_max acc (Js.toNumber (Message.timestamp parent)))
    0%float parents.

Definition filterParents (parents : list Message.t) : list Message.t :=
  let max := computeMaxTimestamp parents in
  let min := (max - MAX_PARENT_DELTA)%float in
  List.filter (fun parent => Js.ge (Js.toNumber (Message.timestamp parent)) min) parents.

End WithGetters.

(** Reading a property of [undefined] throws. *)
Fixpoint allDefined (l : list (option Message.t)) : Result (list Message.t) :=
  match l with
  | [] => Ok []
  | None :: _ => Throw (TypeError "Cannot read property 'timestamp' of undefined")
  | Some x :: rest => rest ← allDefined rest; Ok (x :: rest)
  end.

Section WithSodium.
Context {sodium : Sodium} {proto : Proto} {getters : Message.Getters}.

Definition getMessageCount (channel : ChannelCore.t) (storage : Memory.t) : nat :=
  StorageCache.getMessageCount channel storage.

Definition getLeaves (channel : ChannelCore.t) (storage : Memory.t)
    : list (option Message.t) :=
  slice 0 (Z.of_nat MAX_LEAVES_COUNT) (StorageCache.getLeaves channel storage).

Definition getMessages (channel : ChannelCore.t) (storage : Memory.t)
    (hashes : list Buffer) : list (option Message.t) :=
  StorageCache.getMessages channel storage hashes.

(** The checks on the body at the end of [receive].  Either branch starts
    with the read of [message.body.root]; a message with parents then has
    [message.body.json] and [message.chain.length] read. *)
Definition checkContent (parentCount : nat) (message : Message.t) : Result unit :=
  match Message.body message with
  | None => Throw (TypeError "Cannot read property 'root' of undefined")
  | Some body =>
      if (parentCount =? 0)%nat then
        if negb (ChannelCore.Body_root body) then Throw (BanError "Invalid root content")
        else Ok tt
      else
        if ChannelCore.Body_root body then Throw (BanError "Invalid non-root content")
        else
          match Message.content message with
          | None => Throw (Error "Message must be decrypted first")
          | Some c =>
              chain ← Message.chain c;
              ChannelCore.checkJSONLimit (ChannelCore.Body_json body)
                (Message.chainLength chain)
          end
  end.

(** [receive] from the signature check to the last check on the body: the
    message, decrypted, that is to be stored.  Nothing is written before
    [addMessage]. *)
Definition receiveChecks (channel : ChannelCore.t) (storage : Memory.t) (clock : Clock)
    (message : Message.t) : Result Message.t :=
  '(ok, message) ← Message.verify message channel (verifyNow clock);
  if negb ok then Throw (BanError "Invalid message signature, or invalid chain")
  else if (MAX_LEAVES_COUNT <? length (Message.parents message))%nat then
    Throw (BanError ("Invalid parent count: " +:+ pretty (length (Message.parents message))))
  else
    let maybeParents := getMessages channel storage (Message.parents message) in
    match findMissing maybeParents with
    | Some missingIndex =>
        Throw (BanError ("Message parent: "
                 +:+ toHex (default [] (Message.parents message !! missingIndex))
                 +:+ " not found"))
    | None =>
        let parents := filterDefined maybeParents in
        if negb (length (filterParents parents) =? length parents)%nat then
          Throw (BanError "Parent timestamp delta is greater than 30 days")
        else
          let height := computeHeight parents in
          if negb (Message.height message =? height)%Z then
            Throw (BanError ("Invalid received message height: "
                     +:+ pretty (Message.height message)
                     +:+ ", expected: " +:+ pretty height))
          else
            let future := (receiveNow clock + FUTURE)%float in
            if Js.gt (Js.toNumber (Message.timestamp message)) future then
              Throw (BanError "Received message is in the future")
            else
              let parentTimestamp := computeMaxTimestamp parents in
              if (Js.toNumber (Message.timestamp message) <? parentTimestamp)%float then
                Throw (BanError "Received message is in the past")
              else
                _ ← checkContent (length parents) message;
                Ok message
    end.

(** [receive(message)]: the storage after the call, and [false] for a
    duplicate, [true] for a message stored, or the exception thrown. *)
Definition receive (channel : ChannelCore.t) (storage : Memory.t) (clock : Clock)
    (message : Message.t) : Memory.t * Result bool :=
  if StorageCache.hasMessage channel storage (Message.hash message) then
    (storage, Ok false)
  else
    match receiveChecks channel storage clock message with
    | Throw e => (storage, Throw e)
    | Ok message => (StorageCache.addMessage storage message, Ok true)
    end.

(** [post] up to the construction of the message. *)
Definition postMessage (channel : ChannelCore.t) (storage : Memory.t) (rnd : nat -> byte)
    (body : Body) (identity : Identity.t) (timestamp : float) : Result Message.t :=
  if ChannelCore.Body_root body then Throw (Error "Posting root is not allowed")
  else
    leaves ← allDefined (getLeaves channel storage);
    let parents := filterParents leaves in
    if (length parents =? 0)%nat then
      let count := getMessageCount channel storage in
      if (count =? 0)%nat then Throw (Error "Initial synchronization not complete")
      else Throw (Error "Internal error: no leaves")
    else
      let height := computeHeight parents in
      let timestamp := adjustTimestamp parents timestamp in
      let parentHashes := map Message.hash parents in
      content ← Identity.signMessageBody identity body channel parentHashes height timestamp;
      _ ← ChannelCore.checkJSONLimit (ChannelCore.Body_json body)
            (Some (length (from_option PContent.chain [] (Message.o_content content))));
      Message.new rnd content.

(** [post(body, identity, { timestamp })]: the storage after the call and
    the message posted, or the exception thrown. *)
Definition post (channel : ChannelCore.t) (storage : Memory.t) (rnd : nat -> byte)
    (body : Body) (identity : Identity.t) (timestamp : float)
    : Memory.t * Result Message.t :=
  match postMessage channel storage rnd body identity timestamp with
  | Throw e => (storage, Throw e)
  | Ok message => (StorageCache.addMessage storage message, Ok message)
  end.

Definition bulk (channel : ChannelCore.t) (storage : Memory.t) (hashes : list Buffer)
    : Result BulkResponse :=
  let hashes := slice 0 (ChannelCore.maxBulkCount (ChannelCore.options channel)) hashes in
  _ ← Message.checkHashes hashes "Invalid hash size in bulk()";
  let maybeMessages := getMessages channel storage hashes in
  let messages := filterDefined maybeMessages in
  Ok {| messages := messages; forwardIndex := Z.of_nat (length hashes) |}.

Definition encrypt (channel : ChannelCore.t) (rnd : nat -> byte) (data : Buffer) : Sealed :=
  let nonce := randombytes_buf rnd crypto_secretbox_NONCEBYTES in
  let box := crypto_secretbox_easy data nonce (ChannelCore.encryptionKey channel) in
  {| nonce := nonce; box := box |}.

Definition decrypt (channel : ChannelCore.t) (box nonce : Buffer) : Result Buffer :=
  if negb (length nonce =? crypto_secretbox_NONCEBYTES)%nat then
    Throw (BanError "Invalid nonce")
  else if (length box <=? crypto_secretbox_MACBYTES)%nat then
    Throw (BanError "Invalid encrypted box")
  else
    match crypto_secretbox_open_easy box nonce (ChannelCore.encryptionKey channel) with
    | None => Throw (BanError "Invalid encrypted box")
    | Some data => Ok data
    end.

(** [remote.bulk(hashes)] is the peer's answer: [remote n hashes] is the
    answer to the [n]-th request of a fetch; [clock n] holds the readings
    of [now()] while the [n]-th message of the fetch is received. *)
Definition Remote : Type := nat -> list Buffer -> Result BulkResponse.

(** The [for (const message of messages)] loop of [receiveBulk]: the
    storage, the number of messages handed to [receive], and the count of
    new messages or the exception that ended the loop. *)
Fixpoint receiveMessages (channel : ChannelCore.t) (clock : nat -> Clock)
    (expected : list string) (storage : Memory.t) (received : nat) (delta : Z)
    (messages : list Message.t) : Memory.t * nat * Result Z :=
  match messages with
  | [] => (storage, received, Ok delta)
  | message :: rest =>
      let hexHash := toHex (Message.hash message) in
      if negb (bool_decide (hexHash ∈ expected)) then
        (storage, received,
         Throw (BanError ("Unexpected message in bulk response: " +:+ hexHash)))
      else
        match receive channel storage (clock received) message with
        | (storage, Throw e) => (storage, S received, Throw e)
        | (storage, Ok isNew) =>
            receiveMessages channel clock expected storage (S received)
              (if isNew : bool then (delta + 1)%Z else delta) rest
        end
  end.

(** The [while (hashes.length !== 0)] loop of [receiveBulk].  Every turn
    drops at least one hash, so [length hashes] turns are enough: [fuel]
    bounds the turns, and the last case is never reached from
    [receiveBulk]. *)
Fixpoint receiveBulkLoop (fuel : nat) (channel : ChannelCore.t) (remote : Remote)
    (clock : nat -> Clock) (expected : list string) (storage : Memory.t)
    (round received : nat) (delta : Z) (hashes : list Buffer)
    : Memory.t * Result Z :=
  match hashes, fuel with
  | [], _ => (storage, Ok delta)
  | _ :: _, S fuel =>
      match remote round hashes with
      | Throw e => (storage, Throw e)
      | Ok response =>
          if (forwardIndex response <=? 0)%Z then
            (storage, Throw (BanError "Failed to make progress"))
          else
            match receiveMessages channel clock expected storage received delta
                    (messages response) with
            | (storage, _, Throw e) => (storage, Throw e)
            | (storage, received, Ok delta) =>
                receiveBulkLoop fuel channel remote clock expected storage
                  (S round) received delta (sliceFrom (forwardIndex response) hashes)
            end
      end
  | _ :: _, O => (storage, Throw (Error "receiveBulk: out of fuel"))
  end.

Definition receiveBulk (channel : ChannelCore.t) (storage : Memory.t)
    (remote : Remote) (clock : nat -> Clock) (hashes : list Buffer)
    : Memory.t * Result Z :=
  receiveBulkLoop (length hashes) channel remote clock (map toHex hashes) storage
    0 0 0%Z hashes.

(** [Number.MAX_SAFE_INTEGER] *)
Definition MAX_SAFE_INTEGER : Z := 9007199254740991.

(** [getMinLeafHeight()] *)
Definition getMinLeafHeight (channel : ChannelCore.t) (storage : Memory.t) : Result Z :=
  let leaves := getLeaves channel storage in
  if (length leaves =? 0)%nat then Ok 0%Z
  else
    foldl (fun acc leave =>
             acc ← acc;
             match leave with
             | Some leave => Ok (Z.min acc (Message.height leave))
             | None => Throw (TypeError "Cannot read property 'height' of undefined")
             end)
      (Ok MAX_SAFE_INTEGER) leaves.

(** [query(cursor, isBackward, limit)] *)
Definition query (channel : ChannelCore.t) (storage : Memory.t) (cursor : Memory.Cursor)
    (isBackward : bool) (limit : Z) : Result QueryResponse.t :=
  _ ← match cursor with
      | Memory.AtHash hash => Message.checkHash hash "Invalid cursor.hash length in query()"
      | Memory.AtHeight _ => Ok tt
      end;
  let limit := Z.min limit (ChannelCore.maxQueryLimit (ChannelCore.options channel)) in
  cursor ←
    match cursor with
    | Memory.AtHash _ => Ok cursor
    | Memory.AtHeight height =>
        minLeafHeight ← getMinLeafHeight channel storage;
        Ok (Memory.AtHeight (Z.min height minLeafHeight))
    end;
  StorageCache.query channel storage cursor isBackward limit.

(** The result of [computePartialDAG]. *)
Record PartialDAG : Type := { external : list Buffer; known : list Buffer }.

(** The sets and the array that [computePartialDAG] fills; the sets are
    sets of hex strings. *)
Record DAGState : Type := {
  d_external : list string;
  d_local : list string;
  d_known : list Buffer;
  d_unknown : list string;
}.

(** One turn of [for (const parentHash of abbr.parents)]: the set
    [external] and the count [missingParents]. *)
Definition scanParent (channel : ChannelCore.t) (storage : Memory.t)
    (unknown local : list string) (state : list string * nat) (parentHash : Buffer)
    : list string * nat :=
  let '(external, missingParents) := state in
  let parentHexHash := toHex parentHash in
  if bool_decide (parentHexHash ∈ unknown) then (external, S missingParents)
  else if bool_decide (parentHexHash ∈ local) then (external, missingParents)
  else if StorageCache.hasMessage channel storage parentHash then (external, missingParents)
  else (Memory.Set_add parentHexHash external, S missingParents).

(** One turn of [for (const abbr of response.abbreviatedMessages)]. *)
Definition scanMessage (channel : ChannelCore.t) (storage : Memory.t) (state : DAGState)
    (abbr : QueryResponse.Abbreviated) : DAGState :=
  let local := Memory.Set_add (toHex (QueryResponse.hash abbr)) (d_local state) in
  let '(external, missingParents) :=
    foldl (scanParent channel storage (d_unknown state) local) (d_external state, 0)
      (QueryResponse.parents abbr) in
  if (missingParents =? 0)%nat then
    let isPresent := StorageCache.hasMessage channel storage (QueryResponse.hash abbr) in
    {| d_external := external; d_local := local;
       d_known :=
         if isPresent then d_known state else d_known state ++ [QueryResponse.hash abbr];
       d_unknown := d_unknown state |}
  else
    {| d_external := external; d_local := local; d_known := d_known state;
       d_unknown := Memory.Set_add (toHex (QueryResponse.hash abbr)) (d_unknown state) |}.

Definition scanMessages (channel : ChannelCore.t) (storage : Memory.t)
    (abbreviatedMessages : list QueryResponse.Abbreviated) : DAGState :=
  foldl (scanMessage channel storage)
    {| d_external := []; d_local := []; d_known := []; d_unknown := [] |}
    abbreviatedMessages.

(** [computePartialDAG(response)] *)
Definition computePartialDAG (channel : ChannelCore.t) (storage : Memory.t)
    (response : QueryResponse.t) : PartialDAG :=
  let state := scanMessages channel storage (QueryResponse.abbreviatedMessages response) in
  {| external := map fromHex (d_external state); known := d_known state |}.

(** The peer of a sync.  [remoteQuery n] is the answer of [remote.query]
    to the [n]-th query of the sync; the bulk requests that follow it are
    answered by [remoteBulk n], the messages of their answers being received
    at the times [remoteClock n]. *)
Record SyncRemote : Type := {
  remoteQuery : nat -> Memory.Cursor -> bool -> Z -> Result QueryResponse.t;
  remoteBulk : nat -> Remote;
  remoteClock : nat -> nat -> Clock;
}.

(** [for (const hash of external)]: the set [unresolved], or [None] once it
    holds more than [maxUnresolvedCount] hashes. *)
Fixpoint addUnresolved (maxUnresolvedCount : Z) (unresolved : list string)
    (external : list Buffer) : option (list string) :=
  match external with
  | [] => Some unresolved
  | hash :: rest =>
      let unresolved := Memory.Set_add (toHex hash) unresolved in
      if (maxUnresolvedCount <? Z.of_nat (length unresolved))%Z then None
      else addUnresolved maxUnresolvedCount unresolved rest
  end.

(** How one turn of the loop of [sync] ends. *)
Inductive SyncTurn : Type :=
| Continue (storage : Memory.t) (delta : Z) (hash : Buffer) (unresolved : list string)
| Completed (storage : Memory.t) (delta : Z)
| FullSync (storage : Memory.t) (delta : Z)
| Thrown (storage : Memory.t) (e : Exn).

(** One turn of [for (;;)] in [sync].  The answer of the remote has no
    field [messages]: the message of the overflow error cannot be built. *)
Definition syncTurn (channel : ChannelCore.t) (remote : SyncRemote) (isFull : bool)
    (turn : nat) (storage : Memory.t) (delta : Z) (cursor : Memory.Cursor)
    (unresolved : list string) : SyncTurn :=
  let maxQueryLimit := ChannelCore.maxQueryLimit (ChannelCore.options channel) in
  let isBackward := negb (length unresolved =? 0)%nat in
  match remoteQuery remote turn cursor isBackward maxQueryLimit with
  | Throw e => Thrown storage e
  | Ok response =>
      if (maxQueryLimit <? Z.of_nat (length (QueryResponse.abbreviatedMessages response)))%Z
      then Thrown storage (TypeError "Cannot read property 'length' of undefined")
      else
        let dag := computePartialDAG channel storage response in
        if isFull && negb (length (external dag) =? 0)%nat then
          Thrown storage (BanError "Synchronization failed. Missing parent in full sync")
        else
          match receiveBulk channel storage (remoteBulk remote turn) (remoteClock remote turn)
                  (known dag) with
          | (storage, Throw e) => Thrown storage e
          | (storage, Ok received) =>
              let delta := (delta + received)%Z in
              let unresolved :=
                foldl (fun unresolved abbr =>
                         Memory.Set_delete (toHex (QueryResponse.hash abbr)) unresolved)
                  unresolved (QueryResponse.abbreviatedMessages response) in
              match addUnresolved
                      (ChannelCore.maxUnresolvedCount (ChannelCore.options channel))
                      unresolved (external dag) with
              | None => FullSync storage delta
              | Some unresolved =>
                  if (length unresolved =? 0)%nat then
                    match QueryResponse.forwardHash response with
                    | Some hash => Continue storage delta hash unresolved
                    | None => Completed storage delta
                    end
                  else if isFull then
                    Thrown storage (Error "Failed to make progress during full sync")
                  else
                    match QueryResponse.backwardHash response with
                    | Some hash => Continue storage delta hash unresolved
                    | None => Completed storage delta
                    end
              end
          end
  end.

(** The loop of [sync], cut after [fuel] queries: nothing bounds the number
    of turns a remote can ask for. *)
Fixpoint syncLoop (fuel : nat) (channel : ChannelCore.t) (remote : SyncRemote)
    (isFull : bool) (turn : nat) (storage : Memory.t) (delta : Z) (cursor : Memory.Cursor)
    (unresolved : list string) : Memory.t * Result Z :=
  match fuel with
  | O => (storage, Throw (Error "sync: out of fuel"))
  | S fuel =>
      match syncTurn channel remote isFull turn storage delta cursor unresolved with
      | Thrown storage e => (storage, Throw e)
      | Completed storage delta => (storage, Ok delta)
      | Continue storage delta hash unresolved =>
          syncLoop fuel channel remote isFull (S turn) storage delta (Memory.AtHash hash)
            unresolved
      | FullSync storage delta =>
          match syncLoop fuel channel remote true (S turn) storage 0 (Memory.AtHeight 0) []
          with
          | (storage, Ok full) => (storage, Ok (delta + full)%Z)
          | (storage, Throw e) => (storage, Throw e)
          end
      end
  end.

(** [sync(remote, isFull)] *)
Definition sync (fuel : nat) (channel : ChannelCore.t) (storage : Memory.t)
    (remote : SyncRemote) (isFull : bool) : Memory.t * Result Z :=
  match (if isFull then Ok 0%Z else getMinLeafHeight channel storage) with
  | Throw e => (storage, Throw e)
  | Ok height =>
      syncLoop fuel channel remote isFull 0 storage 0 (Memory.AtHeight height) []
  end.

End WithSodium.
End Channel.

(** ** SyncAgent: the re-entry of [synchronize] *)

Module SyncAgent.

Inductive State : Type := idle | active | pending.

(** The agent with the bookkeeping of its asynchronous runs.  [awaiting] is
    the number of [synchronize] calls suspended at [await channel.sync];
    [syncs] counts the calls of [channel.sync] so far, and [restarts] those
    made by the repeat at the end of [synchronize]. *)
Record t : Type := {
  state : State;
  destroyed : bool;
  awaiting : nat;
  syncs : nat;
  restarts : nat;
}.

Definition isPendingState (s : State) : bool :=
  match s with pending => true | _ => false end.

(** [synchronize()] up to its [await]: the state changes, and unless the
    call returns at once [channel.sync] is called and awaited. *)
Definition synchronize (agent : t) : t :=
  if destroyed agent then agent
  else
    match state agent with
    | idle =>
        {| state := active; destroyed := destroyed agent;
           awaiting := S (awaiting agent); syncs := S (syncs agent);
           restarts := restarts agent |}
    | active =>
        {| state := pending; destroyed := destroyed agent;
           awaiting := S (awaiting agent); syncs := S (syncs agent);
           restarts := restarts agent |}
    | pending => agent
    end.

(** The rest of [synchronize()] once an awaited [channel.sync] has
    resolved. *)
Definition resume (agent : t) : t :=
  let isPending := isPendingState (state agent) in
  let agent :=
    {| state := idle; destroyed := destroyed agent;
       awaiting := pred (awaiting agent); syncs := syncs agent;
       restarts := restarts agent |} in
  if isPending then
    synchronize
      {| state := state agent; destroyed := destroyed agent;
         awaiting := awaiting agent; syncs := syncs agent;
         restarts := S (restarts agent) |}
  else agent.

(** An awaited [channel.sync] rejected: the exception leaves [synchronize]
    before the state is reset. *)
Definition reject (agent : t) : t :=
  {| state := state agent; destroyed := destroyed agent;
     awaiting := pred (awaiting agent); syncs := syncs agent;
     restarts := restarts agent |}.

(** [destroy()] *)
Definition destroy (agent : t) : t :=
  {| state := state agent; destroyed := true;
     awaiting := awaiting agent; syncs := syncs agent;
     restarts := restarts agent |}.

(** What happens to an agent, one turn of the event loop at a time. *)
Inductive Event : Type :=
| Call      (* synchronize() is called *)
| Finish    (* an awaited channel.sync resolves *)
| Fail      (* an awaited channel.sync rejects *)
| Destroy.  (* destroy() is called *)

Definition step (agent : t) (event : Event) : t :=
  match event with
  | Call => synchronize agent
  | Finish => if (awaiting agent =? 0)%nat then agent else resume agent
  | Fail => if (awaiting agent =? 0)%nat then agent else reject agent
  | Destroy => destroy agent
  end.

Definition run (agent : t) (events : list Event) : t := foldl step agent events.

Definition new : t :=
  {| state := idle; destroyed := false; awaiting := 0; syncs := 0; restarts := 0 |}.

End SyncAgent.

(** ** WaitList *)

Module WaitList.

(** The state of a promise. *)
Inductive Promise (V : Type) : Type :=
| Pending
| Resolved (result : V)
| Rejected (error : Exn).

Arguments Pending {V}.
Arguments Resolved {V} result.
Arguments Rejected {V} error.

(** The wait list.  [map] holds, for each id, the element set by the
    latest [wait(id)]; an element is known by the number of the promise it
    settles, and [promises] holds the promises made so far. *)
Record t (V : Type) : Type := {
  map : gmap string nat;
  promises : list (Promise V);
}.

Arguments map {V} _.
Arguments promises {V} _.

Section WithValue.
Context {V : Type}.

Definition new : t V := {| map := ∅; promises := [] |}.

(** The [resolve] and [reject] of a promise: a promise that is settled
    stays as it is. *)
Definition settle (entry : nat) (outcome : Promise V) (promises : list (Promise V))
    : list (Promise V) :=
  match promises !! entry with
  | Some Pending => <[entry := outcome]> promises
  | _ => promises
  end.

(** [wait(id)]: the list, and the entry returned, known by its promise. *)
Definition wait (id : string) (list : t V) : t V * nat :=
  let entry := length (promises list) in
  ({| map := <[id := entry]> (map list); promises := promises list ++ [Pending] |}, entry).

(** [elem.resolve(result)] and [elem.reject(error)] of the element that
    [wait(id)] made for [entry]. *)
Definition elemResolve (id : string) (entry : nat) (result : V) (list : t V) : t V :=
  {| map := delete id (map list);
     promises := settle entry (Resolved result) (promises list) |}.

Definition elemReject (id : string) (entry : nat) (error : Exn) (list : t V) : t V :=
  {| map := delete id (map list);
     promises := settle entry (Rejected error) (promises list) |}.

(** [entry.cancel()] of the entry that [wait(id)] returned. *)
Definition cancel (id : string) (entry : nat) (list : t V) : t V :=
  if bool_decide (is_Some (map list !! id)) then elemReject id entry (Error "Cancelled") list
  else list.

(** [resolve(id, result)] *)
Definition resolve (id : string) (result : V) (list : t V) : t V :=
  match map list !! id with
  | None => list
  | Some entry => elemResolve id entry result list
  end.

End WithValue.
End WaitList.

(** ** A small binding of [sodium] and of the codec, to run the model *)

Module Sample.

(** The bindings below keep the sizes of libsodium and stand in for its
    primitives: a checksum for the hash, a tag in front of the clear text for
    the secret box, and a keyed checksum for the signature, verified under
    the same bytes as the key that signed. *)

Definition byteOf (n : N) : byte := default x00%byte (Byte.of_N (n mod 256)%N).

Definition checksum (input : Buffer) : N :=
  foldr (fun b acc => ((Byte.to_N b + 31 * acc) mod 256)%N) 7%N input.

Definition hashBytes (n : nat) (input : Buffer) (key : option Buffer) : Buffer :=
  map (fun i => byteOf (checksum (input ++ default [] key) + N.of_nat i)) (seq 0 n).

Definition tag (nonce key : Buffer) : Buffer := hashBytes 16 nonce (Some key).

Definition secretbox (data nonce key : Buffer) : Buffer := tag nonce key ++ data.

Definition secretbox_open (box nonce key : Buffer) : option Buffer :=
  if (16 <=? length box)%nat && Buffer_equals (take 16 box) (tag nonce key)
  then Some (drop 16 box) else None.

Definition sign (message secretKey : Buffer) : Buffer :=
  hashBytes 64 message (Some secretKey).

Definition sign_verify (signature message : Buffer) (publicKey : LeafKey)
    : Result bool :=
  match publicKey with
  | Some publicKey => Ok (Buffer_equals signature (sign message publicKey))
  | None => Throw (TypeError "publicKey must be a Buffer")
  end.

#[local] Instance sodium : Sodium := {|
  crypto_secretbox_NONCEBYTES := 24;
  crypto_secretbox_MACBYTES := 16;
  crypto_secretbox_KEYBYTES := 32;
  crypto_sign_BYTES := 64;
  crypto_sign_PUBLICKEYBYTES := 32;
  crypto_generichash := hashBytes;
  crypto_secretbox_easy := secretbox;
  crypto_secretbox_open_easy := secretbox_open;
  crypto_sign_detached := sign;
  crypto_sign_verify_detached := sign_verify;
|}.

Definition bodyBytes (body : Body) : Buffer :=
  match body with Root => [x01]%byte | Json json => x02%byte :: list_byte_of_string json end.

#[local] Instance proto : Proto := {|
  Link_TBS_encode := fun trusteePubKey _ _ name channelId =>
    trusteePubKey ++ list_byte_of_string name ++ channelId;
  Content_TBS_encode := fun chain _ body parents height =>
    concat (map PLink.signature chain) ++ bodyBytes body ++ concat parents
      ++ [byteOf (Z.to_N height)];
  Content_encode := fun c => PContent.signature c ++ bodyBytes (PContent.body c);
  Content_decode := fun _ => None;
  ChannelMessage_encode := fun channelId parents height nonce encryptedContent =>
    channelId ++ concat parents ++ [byteOf (Z.to_N height)] ++ nonce ++ encryptedContent;
  JSON_parses := fun text => negb (String.length text =? 0)%nat;
|}.

(** A channel, and the identity that created it: its chain for the channel
    is empty, as [Channel.fromIdentity] sets it. *)
Definition key : Buffer := repeat x01%byte 32.

Definition channel : ChannelCore.t :=
  {| ChannelCore.options := ChannelCore.defaults;
     ChannelCore.name := "a";
     ChannelCore.publicKey := key;
     ChannelCore.isFeed := false |}.

Definition creator : Identity.t :=
  {| Identity.name := "a";
     Identity.publicKey := key;
     Identity.secretKey := key;
     Identity.channelChains := {[ toHex (ChannelCore.id channel) := [] ]} |}.

Definition rnd0 : nat -> byte := fun _ => x00%byte.
Definition rnd1 : nat -> byte := fun _ => x01%byte.

Definition clock : Channel.Clock :=
  {| Channel.verifyNow := 1000%float; Channel.receiveNow := 1000%float |}.

(** The message a member builds from a signed body. *)
Definition signed (rnd : nat -> byte) (body : Body) (parents : list Buffer)
    (height : Z) (timestamp : float) : Result Message.t :=
  content ← Identity.signMessageBody creator body channel parents height timestamp;
  Message.new rnd content.

(** The message built by a call that returned. *)
Definition built (r : Result Message.t) : Message.t :=
  match r with
  | Ok message => message
  | Throw _ =>
      {| Message.channelId := []; Message.parents := []; Message.height := 0;
         Message.nonce := []; Message.content := None;
         Message.encryptedContent := []; Message.hash := [] |}
  end.

(** Two roots that differ in their nonce and timestamp, a post of the
    creator on the first root, and a root that is signed for a time far
    beyond that of [clock]. *)
Definition root1 : Message.t := built (signed rnd0 Root [] 0 10%float).
Definition root2 : Message.t := built (signed rnd1 Root [] 0 20%float).
Definition post1 : Message.t :=
  built (signed rnd0 (Json "{}") [Message.hash root1] 1 30%float).
Definition futureRoot : Message.t := built (signed rnd1 Root [] 0 5000%float).

(** The storage after [receive] has taken the messages in turn, under the
    getters of the specification; under those of the sources [receive]
    stores nothing. *)
Definition received (messages : list Message.t) : Memory.t :=
  foldl (fun storage message =>
           fst (Channel.receive (getters := Message.ofContent) channel storage clock
                  message))
    Memory.empty messages.



Definition clocks : nat -> Channel.Clock := fun _ => clock.

(** A peer whose answers are empty, as the agent reports a request that
    timed out, and a peer that answers with a message nobody asked for. *)
Definition silent : Channel.Remote :=
  fun _ _ => Ok {| Channel.messages := []; Channel.forwardIndex := 0 |}.

Definition intruder : Channel.Remote :=
  fun _ _ => Ok {| Channel.messages := [root2]; Channel.forwardIndex := 1 |}.

(** An agent whose first [synchronize()] is running. *)
Definition busy : SyncAgent.t := SyncAgent.synchronize SyncAgent.new.

End Sample.

(** * The notions of the specification *)

(** ** The storage of a channel *)

(** Every message is filed under the hex form of its hash. *)
Definition wellKeyed (data : Memory.ChannelData) : Prop :=
  forall key message,
    Memory.messageByHash data !! key = Some message ->
    key = toHex (Message.hash message).

(** The parents of a stored message are stored. *)
Definition parentsStored (data : Memory.ChannelData) : Prop :=
  forall key message parent,
    Memory.messageByHash data !! key = Some message ->
    parent ∈ Message.parents message ->
    is_Some (Memory.messageByHash data !! toHex parent).

(** [hex] occurs in the parents list of a stored message. *)
Definition isParent (data : Memory.ChannelData) (hex : string) : Prop :=
  exists key message,
    Memory.messageByHash data !! key = Some message /\
    hex ∈ map toHex (Message.parents message).

(** In the words of the specification: the hash of a stored message that
    is in no stored message's parents. *)
Definition isLeaf (data : Memory.ChannelData) (hex : string) : Prop :=
  is_Some (Memory.messageByHash data !! hex) /\ ~ isParent data hex.

Definition leavesClosure (data : Memory.ChannelData) : Prop :=
  NoDup (Memory.leaves data) /\
  forall hex, hex ∈ Memory.leaves data <-> isLeaf data hex.

Definition heightsNonNegative (data : Memory.ChannelData) : Prop :=
  forall key message,
    Memory.messageByHash data !! key = Some message -> (0 <= Message.height message)%Z.

Record Consistent (data : Memory.ChannelData) : Prop := {
  consistent_keys : wellKeyed data;
  consistent_parents : parentsStored data;
  consistent_leaves : leavesClosure data;
}.

(** [messages] holds as many messages as [messageByHash]. *)
Definition messagesCounted (data : Memory.ChannelData) : Prop :=
  length (Memory.messages data) = size (Memory.messageByHash data).

(** ** Heights *)

(** In the words of the specification: one more than the greatest height
    among the parents, and 0 when there is no parent. *)
Definition expectedHeight (parents : list Message.t) : Z :=
  match parents with
  | [] => 0
  | first :: rest =>
      1 + foldl Z.max (Message.height first) (map Message.height rest)
  end.

(** ** Acceptance *)

Section Acceptance.
Context {sodium : Sodium} {proto : Proto} {getters : Message.Getters}.

(** The conditions under which [receive] stores [message], decrypted as
    [decrypted], its parents resolved as [parents]. *)
Record Accepted (channel : ChannelCore.t) (storage : Memory.t) (clock : Channel.Clock)
    (message decrypted : Message.t) (parents : list Message.t) : Prop := {
  accepted_verify :
    Message.verify message channel (Channel.verifyNow clock) = Ok (true, decrypted);
  accepted_count : length (Message.parents decrypted) <= MAX_LEAVES_COUNT;
  accepted_parents :
    Channel.getMessages channel storage (Message.parents decrypted) = map Some parents;
  accepted_delta : length (Channel.filterParents parents) = length parents;
  accepted_height : Message.height decrypted = Channel.computeHeight parents;
  accepted_future :
    Js.gt (Js.toNumber (Message.timestamp decrypted)) (Channel.receiveNow clock + FUTURE)%float
    = false;
  accepted_past :
    (Js.toNumber (Message.timestamp decrypted) <? Channel.computeMaxTimestamp parents)%float
    = false;
  accepted_content : Channel.checkContent (length parents) decrypted = Ok tt;
}.

(** The storage after any sequence of [receive] and [post] calls on an
    empty storage. *)
Inductive Reachable (channel : ChannelCore.t) : Memory.t -> Prop :=
| Reachable_empty : Reachable channel Memory.empty
| Reachable_receive storage clock message :
    Reachable channel storage ->
    Reachable channel (fst (Channel.receive channel storage clock message))
| Reachable_post storage rnd body identity timestamp :
    Reachable channel storage ->
    Reachable channel (fst (Channel.post channel storage rnd body identity timestamp)).

End Acceptance.

(** ** The linear order of a channel *)

(** [messages] and [messageByHash] hold the same messages, and no two
    messages of [messages] share a hash. *)
Record Indexed (data : Memory.ChannelData) : Prop := {
  indexed_messages : forall message,
    message ∈ Memory.messages data ->
    Memory.messageByHash data !! toHex (Message.hash message) = Some message;
  indexed_byHash : forall key message,
    Memory.messageByHash data !! key = Some message ->
    message ∈ Memory.messages data /\ key = toHex (Message.hash message);
  indexed_distinct : NoDup (map Message.hash (Memory.messages data));
}.

(** [a] comes before [b] in the linear order: a lower height, or the same
    height and a lower hash. *)
Definition precedes (a b : Message.t) : Prop :=
  (Message.height a < Message.height b)%Z \/
  (Message.height a = Message.height b /\
   Buffer_compare (Message.hash a) (Message.hash b) = Lt).

(** The storage after [addMessage] has taken the messages in turn. *)
Definition stored (messages : list Message.t) : Memory.t :=
  foldl Memory.addMessage Memory.empty messages.

(** The parents of a stored message are stored, below it. *)
Definition parentsBelow (data : Memory.ChannelData) : Prop :=
  forall key message parent,
    Memory.messageByHash data !! key = Some message ->
    parent ∈ Message.parents message ->
    exists below,
      Memory.messageByHash data !! toHex parent = Some below /\
      (Message.height below < Message.height message)%Z.

(** A stored message without parents has height 0. *)
Definition rootsAtZero (data : Memory.ChannelData) : Prop :=
  forall key message,
    Memory.messageByHash data !! key = Some message ->
    Message.parents message = [] -> Message.height message = 0%Z.

(** ** Chains *)

(** The key that signs the link at position [i] of a chain: the key of the
    channel for the first link, the trustee of the link before for the
    others.  At the length of the chain, it is the key that signs for the
    chain. *)
Definition signer (channel : ChannelCore.t) (links : list Link.t) (i : nat) : Buffer :=
  match i with
  | 0 => ChannelCore.publicKey channel
  | S before => default [] (Link.trusteePubKey <$> links !! before)
  end.

(** ** The partial DAG *)

Section Scan.
Context {sodium : Sodium}.

(** The state of [computePartialDAG] after the messages [processed]. *)
Record Scanned (channel : ChannelCore.t) (storage : Memory.t)
    (processed : list QueryResponse.Abbreviated) (state : Channel.DAGState) : Prop := {
  scanned_local : forall hex,
    hex ∈ Channel.d_local state <->
    exists abbr, abbr ∈ processed /\ hex = toHex (QueryResponse.hash abbr);
  scanned_unknown : forall hex,
    hex ∈ Channel.d_unknown state -> hex ∈ Channel.d_local state;
  scanned_sorted : forall abbr,
    abbr ∈ processed ->
    toHex (QueryResponse.hash abbr) ∈ Channel.d_unknown state \/
    StorageCache.hasMessage channel storage (QueryResponse.hash abbr) = true \/
    QueryResponse.hash abbr ∈ Channel.d_known state;
  scanned_known : forall n hash,
    Channel.d_known state !! n = Some hash ->
    StorageCache.hasMessage channel storage hash = false /\
    exists abbr,
      abbr ∈ processed /\ QueryResponse.hash abbr = hash /\
      forall parent, parent ∈ QueryResponse.parents abbr ->
        StorageCache.hasMessage channel storage parent = true \/
        parent ∈ take (S n) (Channel.d_known state);
  scanned_distinct : NoDup (Channel.d_external state);
  scanned_external : forall hex,
    hex ∈ Channel.d_external state <->
    exists i abbr parent,
      processed !! i = Some abbr /\ parent ∈ QueryResponse.parents abbr /\
      hex = toHex parent /\ StorageCache.hasMessage channel storage parent = false /\
      forall j other, j <= i -> processed !! j = Some other ->
        QueryResponse.hash other <> parent;
}.

End Scan.

(** ** More of the sample channel *)

Module Fixture.
Section WithSample.
#[local] Existing Instance Sample.sodium.
#[local] Existing Instance Sample.proto.

(** The messages of the storage's own tests: [a] at height 0, [c] and [b]
    at height 1 on top of it, [d] at height 2 on top of both; they are added
    in that order. *)
Definition channelId : Buffer := [x01]%byte.

Definition fake (hash : string) (height : Z) (parents : list string) : Message.t :=
  {| Message.channelId := channelId;
     Message.parents := map bufferFrom parents;
     Message.height := height;
     Message.nonce := [];
     Message.content := None;
     Message.encryptedContent := [];
     Message.hash := bufferFrom hash |}.

Definition a : Message.t := fake "a" 0 [].
Definition c : Message.t := fake "c" 1 ["a"%string].
Definition b : Message.t := fake "b" 1 ["a"%string].
Definition d : Message.t := fake "d" 2 ["b"%string; "c"%string].

Definition storage : Memory.t := stored [a; c; b; d].

(** An answer that names a parent nobody has: [c] and [b] come after a
    message [x] whose parent [z] is in no storage and not in the answer. *)
Definition broken : QueryResponse.t :=
  {| QueryResponse.abbreviatedMessages :=
       [ {| QueryResponse.parents := [bufferFrom "z"]; QueryResponse.hash := bufferFrom "x" |};
         QueryResponse.abbreviate (fake "c" 1 ["x"%string]);
         QueryResponse.abbreviate a;
         QueryResponse.abbreviate b ];
     QueryResponse.forwardHash := None;
     QueryResponse.backwardHash := None |}.

(** The answer that lists the four messages in their linear order. *)
Definition whole : QueryResponse.t :=
  {| QueryResponse.abbreviatedMessages := map QueryResponse.abbreviate [a; b; c; d];
     QueryResponse.forwardHash := None;
     QueryResponse.backwardHash := None |}.

(** A member of the sample channel: the creator's key signs a link to
    the member's key, valid from 0 to 2000. *)
Definition memberKey : Buffer := repeat x02%byte 32.

Definition unsignedLink : Link.t :=
  {| Link.validFrom := 0; Link.validTo := 2000;
     Link.trusteePubKey := memberKey; Link.trusteeDisplayName := "b";
     Link.signature := [] |}.

Definition memberLink : PLink.t :=
  {| PLink.trusteePubKey := memberKey;
     PLink.trusteeDisplayName := "b";
     PLink.validFrom := 0;
     PLink.validTo := 2000;
     PLink.signature :=
       Sample.sign (Link.tbs Sample.channel unsignedLink) Sample.key |}.


Definition member : Identity.t :=
  {| Identity.name := "b";
     Identity.publicKey := memberKey;
     Identity.secretKey := memberKey;
     Identity.channelChains :=
       {[ toHex (ChannelCore.id Sample.channel) := [memberLink] ]} |}.

(** The options of a post of the member on the first root, and the post. *)
Definition memberOptions : Message.Options :=
  match Identity.signMessageBody member (Json "{}") Sample.channel
          [Message.hash Sample.root1] 1 30%float with
  | Ok options => options
  | Throw _ =>
      {| Message.o_channel := None; Message.o_channelId := None; Message.o_parents := [];
         Message.o_height := 0; Message.o_nonce := None; Message.o_content := None;
         Message.o_encryptedContent := None |}
  end.

Definition memberPost : Message.t :=
  Sample.built (Message.new Sample.rnd1 memberOptions).

(** A message without parents, at height 5, whose chain has four links;
    and a peer that answers a request for it with the message and with a
    root that was not asked for. *)
Definition overlong : Message.t :=
  Sample.built
    (Message.new Sample.rnd1
       {| Message.o_channel := Some Sample.channel; Message.o_channelId := None;
          Message.o_parents := []; Message.o_height := 5; Message.o_nonce := None;
          Message.o_content :=
            Some {| PContent.chain := repeat memberLink 4; PContent.timestamp := 30;
                    PContent.body := Json "{}"; PContent.signature := [] |};
          Message.o_encryptedContent := None |}).

Definition crowd : Channel.Remote :=
  fun _ _ => Ok {| Channel.messages := [overlong; Sample.root2];
                   Channel.forwardIndex := 1 |}.

(** A peer's channel as the remote of a sync: its [query] and [bulk]
    answer from the peer's storage. *)
Definition peer (storage : Memory.t) : Channel.SyncRemote :=
  {| Channel.remoteQuery := fun _ cursor isBackward limit =>
       Channel.query Sample.channel storage cursor isBackward limit;
     Channel.remoteBulk := fun _ _ hashes =>
       Channel.bulk Sample.channel storage hashes;
     Channel.remoteClock := fun _ _ => Sample.clock |}.

(** A peer that does not answer in time, as the agent reports it; a peer
    whose answers overflow; and a peer that always has more to come. *)
Definition nothing : QueryResponse.t :=
  {| QueryResponse.abbreviatedMessages := [];
     QueryResponse.forwardHash := None;
     QueryResponse.backwardHash := None |}.

Definition mute : Channel.SyncRemote :=
  {| Channel.remoteQuery := fun _ _ _ _ => Ok nothing;
     Channel.remoteBulk := fun _ => Sample.silent;
     Channel.remoteClock := fun _ _ => Sample.clock |}.

Definition flood : Channel.SyncRemote :=
  {| Channel.remoteQuery := fun _ _ _ _ =>
       Ok {| QueryResponse.abbreviatedMessages :=
               repeat (QueryResponse.abbreviate Sample.root1) 1025;
             QueryResponse.forwardHash := None;
             QueryResponse.backwardHash := None |};
     Channel.remoteBulk := fun _ => Sample.silent;
     Channel.remoteClock := fun _ _ => Sample.clock |}.

Definition tease : Channel.SyncRemote :=
  {| Channel.remoteQuery := fun _ _ _ _ =>
       Ok {| QueryResponse.abbreviatedMessages := [];
             QueryResponse.forwardHash := Some (Message.hash Sample.root1);
             QueryResponse.backwardHash := None |};
     Channel.remoteBulk := fun _ => Sample.silent;
     Channel.remoteClock := fun _ _ => Sample.clock |}.

End WithSample.
End Fixture.

(** * Properties *)

(** ** The encodings *)

Example toHex_sample : toHex [x00; x0f; xa5; xff]%byte = "000fa5ff"%string.
Proof. reflexivity. Qed.

Example fromHex_sample : fromHex "000fA5ff"%string = [x00; x0f; xa5; xff]%byte.
Proof. reflexivity. Qed.

Example Math_max_nan : Js.Math_max 1 nan = nan /\ Js.Math_max 1 2 = 2%float.
Proof. split; reflexivity. Qed.

Lemma fromHex_byte (b : byte) (rest : string) :
  fromHex (String (hexDigit (Byte.to_N b / 16)%N)
            (String (hexDigit (Byte.to_N b mod 16)%N) rest)) = b :: fromHex rest.
Proof. destruct b; reflexivity. Qed.

Lemma fromHex_toHex (buf : Buffer) : fromHex (toHex buf) = buf.
Proof.
  induction buf as [|b rest IH]; [reflexivity|].
  cbn [toHex]. rewrite fromHex_byte. now rewrite IH.
Qed.

Lemma toHex_inj (a b : Buffer) : toHex a = toHex b -> a = b.
Proof.
  intros H. rewrite <- (fromHex_toHex a), <- (fromHex_toHex b). now rewrite H.
Qed.

(** ** Order on numbers *)

Section FloatOrder.
Local Open Scope float_scope.










End FloatOrder.

(** ** The sample binding keeps the promises of libsodium *)

Lemma byte_eqb_refl (b : byte) : byte_eqb b b = true.
Proof. apply N.eqb_refl. Qed.

Lemma Buffer_equals_refl (a : Buffer) : Buffer_equals a a = true.
Proof. induction a as [|b a IH]; [reflexivity|]. simpl. now rewrite byte_eqb_refl. Qed.

Lemma hashBytes_length n input key : length (Sample.hashBytes n input key) = n.
Proof. unfold Sample.hashBytes. now rewrite length_map, length_seq. Qed.

#[local] Instance Sample_laws : SodiumLaws Sample.sodium.
Proof.
  split;
    unfold crypto_generichash, crypto_secretbox_easy, crypto_secretbox_open_easy,
      crypto_secretbox_MACBYTES, Sample.sodium.
  - apply hashBytes_length.
  - intros data nonce key. unfold Sample.secretbox, Sample.tag.
    rewrite length_app, hashBytes_length. lia.
  - intros data nonce key _ _. unfold Sample.secretbox, Sample.secretbox_open.
    assert (Htag : length (Sample.tag nonce key) = 16%nat) by apply hashBytes_length.
    rewrite length_app, Htag.
    replace (16 <=? 16 + length data)%nat with true
      by (symmetry; apply Nat.leb_le; lia).
    rewrite (take_app_length' _ _ 16 (eq_sym Htag)), (drop_app_length' _ _ 16 (eq_sym Htag)).
    now rewrite Buffer_equals_refl.
Qed.

(** ** The symmetric encryption of a channel *)

Section ChannelCrypto.
Context {sodium : Sodium} {laws : SodiumLaws sodium}.

Lemma randombytes_buf_length rnd n : length (randombytes_buf rnd n) = n.
Proof. unfold randombytes_buf. now rewrite length_map, length_seq. Qed.

Lemma encryptionKey_length channel :
  length (ChannelCore.encryptionKey channel) = crypto_secretbox_KEYBYTES.
Proof. apply crypto_generichash_length. Qed.

(** The box of an empty byte string is no longer than the MAC, and
    [decrypt] refuses it. *)
Lemma decrypt_encrypt_nil channel rnd :
  let sealed := Channel.encrypt channel rnd [] in
  Channel.decrypt channel (Channel.box sealed) (Channel.nonce sealed)
  = Throw (BanError "Invalid encrypted box").
Proof.
  simpl. unfold Channel.decrypt.
  rewrite randombytes_buf_length, Nat.eqb_refl. simpl.
  rewrite crypto_secretbox_easy_length. simpl.
  now rewrite Nat.leb_refl.
Qed.

(** C3, amended: [decrypt] returns the data that [encrypt] sealed, for
    every byte string that is not empty. *)
Theorem decrypt_encrypt channel rnd data :
  data <> [] ->
  let sealed := Channel.encrypt channel rnd data in
  Channel.decrypt channel (Channel.box sealed) (Channel.nonce sealed) = Ok data.
Proof.
  intros Hdata. simpl. unfold Channel.decrypt.
  rewrite randombytes_buf_length, Nat.eqb_refl. simpl.
  rewrite crypto_secretbox_easy_length.
  destruct (Nat.leb_spec (length data + crypto_secretbox_MACBYTES) crypto_secretbox_MACBYTES)
    as [Hle|_].
  { destruct data; [congruence|simpl in Hle; lia]. }
  rewrite crypto_secretbox_open_easy_easy;
    [reflexivity | apply randombytes_buf_length | apply encryptionKey_length].
Qed.

End ChannelCrypto.

Lemma decrypt_encrypt_witness :
  [x2a]%byte <> [] /\
  Channel.decrypt (sodium := Sample.sodium) Sample.channel
    (Channel.box (Channel.encrypt (sodium := Sample.sodium) Sample.channel Sample.rnd0 [x2a]%byte))
    (Channel.nonce (Channel.encrypt (sodium := Sample.sodium) Sample.channel Sample.rnd0 [x2a]%byte))
  = Ok [x2a]%byte.
Proof.
  split; [discriminate|].
  apply (decrypt_encrypt (laws := Sample_laws) Sample.channel Sample.rnd0 [x2a]%byte).
  discriminate.
Defined.

(** C3 as stated fails on the empty byte string. *)
Lemma decrypt_encrypt_empty_fails :
  Channel.decrypt (sodium := Sample.sodium) Sample.channel
    (Channel.box (Channel.encrypt (sodium := Sample.sodium) Sample.channel Sample.rnd0 []))
    (Channel.nonce (Channel.encrypt (sodium := Sample.sodium) Sample.channel Sample.rnd0 []))
  = Throw (BanError "Invalid encrypted box").
Proof. vm_compute. reflexivity. Qed.

(** ** The storage of a channel *)

Lemma Set_add_elem x y s : y ∈ Memory.Set_add x s <-> y = x \/ y ∈ s.
Proof.
  unfold Memory.Set_add. case_bool_decide as Hx.
  - split; [auto|]. intros [->|?]; assumption.
  - rewrite elem_of_app, list_elem_of_singleton. tauto.
Qed.

Lemma Set_add_NoDup x s : NoDup s -> NoDup (Memory.Set_add x s).
Proof.
  intros Hs. unfold Memory.Set_add. case_bool_decide as Hx; [assumption|].
  apply NoDup_app. split; [assumption|]. split; [|apply NoDup_singleton].
  intros y Hy Hyx. apply list_elem_of_singleton in Hyx. congruence.
Qed.

Lemma Set_delete_elem x y s : y ∈ Memory.Set_delete x s <-> y ∈ s /\ y <> x.
Proof. unfold Memory.Set_delete. rewrite list_elem_of_filter. tauto. Qed.

Lemma Set_delete_all_elem (parents : list Buffer) y s :
  y ∈ foldl (fun leaves parent => Memory.Set_delete (toHex parent) leaves) s parents
  <-> y ∈ s /\ y ∉ map toHex parents.
Proof.
  revert s. induction parents as [|p parents IH]; intros s; simpl.
  - split; [intros H; split; [assumption|apply not_elem_of_nil]|tauto].
  - rewrite IH, Set_delete_elem, not_elem_of_cons. tauto.
Qed.

Lemma Set_delete_all_NoDup (parents : list Buffer) s :
  NoDup s ->
  NoDup (foldl (fun leaves parent => Memory.Set_delete (toHex parent) leaves) s parents).
Proof.
  revert s. induction parents as [|p parents IH]; intros s Hs; simpl; [assumption|].
  apply IH. unfold Memory.Set_delete. now apply NoDup_filter.
Qed.

Lemma Consistent_empty : Consistent Memory.emptyData.
Proof.
  split.
  - intros key message H. simpl in H. now rewrite lookup_empty in H.
  - intros key message parent H. simpl in H. now rewrite lookup_empty in H.
  - split; [apply NoDup_nil_2|]. intros hex. simpl. split.
    + intros H. now apply elem_of_nil in H.
    + intros [[m H] _]. simpl in H. now rewrite lookup_empty in H.
Qed.

Lemma heightsNonNegative_empty : heightsNonNegative Memory.emptyData.
Proof. intros key message H. simpl in H. now rewrite lookup_empty in H. Qed.

(** A duplicate leaves the data as it is. *)
Lemma addToData_duplicate data message :
  is_Some (Memory.messageByHash data !! toHex (Message.hash message)) ->
  Memory.addToData data message = data.
Proof. intros H. unfold Memory.addToData. now rewrite bool_decide_eq_true_2. Qed.

(** [addMessage] keeps the storage of a channel consistent when the parents
    of the message are stored. *)
Lemma addToData_Consistent data message :
  Consistent data ->
  (forall parent, parent ∈ Message.parents message ->
     is_Some (Memory.messageByHash data !! toHex parent)) ->
  Consistent (Memory.addToData data message).
Proof.
  intros [Hkeys Hparents [Hnodup Hleaves]] Hstored.
  unfold Memory.addToData. case_bool_decide as Hdup.
  { now split. }
  assert (Hnew : Memory.messageByHash data !! toHex (Message.hash message) = None).
  { destruct (Memory.messageByHash data !! _) eqn:E; [|reflexivity].
    exfalso. apply Hdup. eauto. }
  set (h := toHex (Message.hash message)) in *.
  assert (Hself : h ∉ map toHex (Message.parents message)).
  { intros Hin. apply list_elem_of_fmap in Hin as (p & Hp & Hin).
    destruct (Hstored p Hin) as [m Hm]. rewrite <- Hp in Hm. congruence. }
  assert (Hnotparent : ~ isParent data h).
  { intros (k & m & Hm & Hin). apply list_elem_of_fmap in Hin as (p & Hp & Hin).
    destruct (Hparents k m p Hm Hin) as [m' Hm']. rewrite <- Hp in Hm'. congruence. }
  split.
  - intros key m. simpl. rewrite lookup_insert. case_decide as Hk.
    + intros [= <-]. now subst.
    + apply Hkeys.
  - intros key m p. simpl. rewrite !lookup_insert. case_decide as Hk.
    + intros [= <-] Hin. case_decide; [eauto|]. now apply Hstored.
    + intros Hm Hin. case_decide; [eauto|]. now apply (Hparents key m).
  - split; simpl.
    + apply Set_add_NoDup. now apply Set_delete_all_NoDup.
    + intros hex. rewrite Set_add_elem, Set_delete_all_elem, Hleaves.
      unfold isLeaf, isParent. simpl. split.
      * intros [->|[[Hsome Hnp] Hnot]].
        { split; [rewrite lookup_insert_eq; eauto|].
          intros (k & m & Hm & Hin). rewrite lookup_insert in Hm.
          case_decide; [injection Hm as <-; contradiction|].
          apply Hnotparent. now exists k, m. }
        { split.
          - rewrite lookup_insert. case_decide; [eauto|assumption].
          - intros (k & m & Hm & Hin). rewrite lookup_insert in Hm.
            case_decide; [injection Hm as <-; contradiction|].
            apply Hnp. now exists k, m. }
      * intros [Hsome Hnp]. destruct (decide (hex = h)) as [->|Hne]; [now left|].
        right. rewrite lookup_insert_ne in Hsome by congruence.
        split; [split; [assumption|]|].
        { intros (k & m & Hm & Hin). apply Hnp. exists k, m.
          split; [|assumption]. rewrite lookup_insert_ne; [assumption|].
          intros <-. congruence. }
        { intros Hin. apply Hnp. exists h, message.
          split; [apply lookup_insert_eq|assumption]. }
Qed.

Lemma addToData_heightsNonNegative data message :
  heightsNonNegative data ->
  (0 <= Message.height message)%Z ->
  heightsNonNegative (Memory.addToData data message).
Proof.
  intros Hheights Hheight. unfold Memory.addToData. case_bool_decide; [assumption|].
  intros key m. simpl. rewrite lookup_insert. case_decide.
  - now intros [= <-].
  - apply Hheights.
Qed.

Lemma getChannelData_addMessage storage message id :
  Memory.getChannelData (Memory.addMessage storage message) id =
  if decide (toHex (Message.channelId message) = toHex id)
  then Memory.addToData (Memory.getChannelData storage (Message.channelId message)) message
  else Memory.getChannelData storage id.
Proof.
  unfold Memory.getChannelData, Memory.addMessage. simpl.
  rewrite lookup_insert. now case_decide.
Qed.

Lemma findMissing_None {A} (l : list (option A)) :
  findMissing l = None <-> l = map Some (filterDefined l).
Proof.
  induction l as [|[x|] l IH]; simpl.
  - tauto.
  - unfold filterDefined in *. simpl. destruct (findMissing l); simpl.
    + split; [discriminate|]. intros H. apply (f_equal tail) in H. simpl in H.
      apply IH in H. discriminate H.
    + split; [|reflexivity]. intros _. f_equal. now apply IH.
  - unfold filterDefined. simpl. split; [discriminate|].
    destruct (omap _ l); discriminate.
Qed.

Lemma filterDefined_Some {A} (l : list A) : filterDefined (map Some l) = l.
Proof.
  induction l as [|x l IH]; [reflexivity|].
  unfold filterDefined in *. cbn. now f_equal.
Qed.

Lemma findMissing_Some {A} (l : list A) : findMissing (map Some l) = None.
Proof. apply findMissing_None. now rewrite filterDefined_Some. Qed.

Lemma allDefined_Ok l xs : Channel.allDefined l = Ok xs <-> l = map Some xs.
Proof.
  revert xs. induction l as [|[x|] l IH]; intros xs; simpl.
  - split; [intros [= <-]; reflexivity|]. destruct xs; [reflexivity|discriminate].
  - destruct (Channel.allDefined l) as [ys|e] eqn:E; simpl.
    + split.
      * intros [= <-]. simpl. f_equal. now apply IH.
      * destruct xs as [|y xs]; [discriminate|]. intros [= -> H]. apply IH in H.
        now injection H as ->.
    + split; [discriminate|]. destruct xs as [|y xs]; [discriminate|].
      intros [= -> H]. apply IH in H. discriminate H.
  - split; [discriminate|]. destruct xs; discriminate.
Qed.

Lemma slice_0 {A} (n : nat) (l : list A) : slice 0 (Z.of_nat n) l = take n l.
Proof.
  unfold slice, sliceIndex. simpl.
  destruct (Z.ltb_spec (Z.of_nat n) 0) as [H|_]; [exfalso; lia|].
  rewrite Nat2Z.id, Nat.sub_0_r.
  destruct (Nat.le_ge_cases n (length l)).
  - now rewrite Nat.min_l by assumption.
  - rewrite Nat.min_r by assumption. simpl.
    rewrite (take_ge l n) by lia. apply take_ge. lia.
Qed.

Lemma computeHeight_lower parents acc :
  (acc <= foldl (fun acc parent => Z.max acc (Message.height parent + 1)) acc parents)%Z.
Proof.
  revert acc. induction parents as [|p parents IH]; intros acc; simpl; [lia|].
  specialize (IH (Z.max acc (Message.height p + 1))). lia.
Qed.

Lemma computeHeight_nonneg parents : (0 <= Channel.computeHeight parents)%Z.
Proof. apply computeHeight_lower. Qed.

(** ** Receiving a message *)

Section Receive.
Context {sodium : Sodium} {proto : Proto} {getters : Message.Getters}.

Lemma decrypt_fields message channel decrypted :
  Message.decrypt message channel = Ok decrypted ->
  Message.channelId decrypted = Message.channelId message /\
  Message.parents decrypted = Message.parents message /\
  Message.height decrypted = Message.height message /\
  Message.hash decrypted = Message.hash message /\
  is_Some (Message.content decrypted).
Proof.
  unfold Message.decrypt. destruct (Message.content message) eqn:Hc.
  { intros [= <-]. rewrite Hc. eauto 10. }
  destruct (crypto_secretbox_open_easy _ _ _); [|discriminate].
  destruct (Content_decode _) as [c|]; [|discriminate].
  destruct (PContent.body c); [|destruct (JSON_parses _); [|discriminate]];
    intros [= <-]; simpl; eauto 10.
Qed.

Lemma verify_decrypt message channel timestamp ok decrypted :
  Message.verify message channel timestamp = Ok (ok, decrypted) ->
  Message.decrypt message channel = Ok decrypted.
Proof.
  unfold Message.verify. destruct (Message.decrypt message channel) as [m|e]; simpl; [|discriminate].
  destruct (Message.content m); [|discriminate].
  destruct (Message.chain t) as [links|]; simpl; [|discriminate].
  destruct (Chain.getLeafKey _ _ _) as [leafKey|]; simpl; [|discriminate].
  destruct (crypto_sign_verify_detached _ _ _); simpl; [|discriminate].
  now intros [= _ <-].
Qed.

Lemma receiveChecks_Ok channel storage clock message decrypted :
  Channel.receiveChecks channel storage clock message = Ok decrypted <->
  exists parents, Accepted channel storage clock message decrypted parents.
Proof.
  unfold Channel.receiveChecks. split.
  - destruct (Message.verify _ _ _) as [[ok m]|e] eqn:Hv; simpl; [|discriminate].
    destruct ok; simpl; [|discriminate].
    destruct (Nat.ltb_spec MAX_LEAVES_COUNT (length (Message.parents m))) as [|Hcount];
      [discriminate|].
    destruct (findMissing _) eqn:Hmiss; [discriminate|].
    apply findMissing_None in Hmiss.
    set (parents := filterDefined _) in *.
    destruct (Nat.eqb_spec (length (Channel.filterParents parents)) (length parents))
      as [Hdelta|]; simpl; [|discriminate].
    destruct (Z.eqb_spec (Message.height m) (Channel.computeHeight parents))
      as [Hheight|]; simpl; [|discriminate].
    destruct (Js.gt _ _) eqn:Hfuture; [discriminate|].
    destruct (_ <? _)%float eqn:Hpast; [discriminate|].
    destruct (Channel.checkContent _ _) as [[]|] eqn:Hcontent; simpl; [|discriminate].
    intros [= <-]. exists parents. now split.
  - intros [parents [Hv Hcount Hparents Hdelta Hheight Hfuture Hpast Hcontent]].
    rewrite Hv. simpl.
    destruct (Nat.ltb_spec MAX_LEAVES_COUNT (length (Message.parents decrypted)));
      [lia|].
    rewrite Hparents, findMissing_Some, filterDefined_Some, Hdelta, Nat.eqb_refl.
    simpl. rewrite <- Hheight, Z.eqb_refl. simpl.
    rewrite Hfuture, Hpast, Hcontent. reflexivity.
Qed.

(** [receive] ends in one of three ways, and only the last writes. *)
Lemma receive_cases channel storage clock message :
  (StorageCache.hasMessage channel storage (Message.hash message) = true /\
   Channel.receive channel storage clock message = (storage, Ok false)) \/
  (StorageCache.hasMessage channel storage (Message.hash message) = false /\
   exists e, Channel.receiveChecks channel storage clock message = Throw e /\
             Channel.receive channel storage clock message = (storage, Throw e)) \/
  (StorageCache.hasMessage channel storage (Message.hash message) = false /\
   exists decrypted,
     Channel.receiveChecks channel storage clock message = Ok decrypted /\
     Channel.receive channel storage clock message
     = (StorageCache.addMessage storage decrypted, Ok true)).
Proof.
  unfold Channel.receive.
  destruct (StorageCache.hasMessage _ _ _); [now left|right].
  destruct (Channel.receiveChecks _ _ _ _) as [m|e]; [right|left]; eauto.
Qed.

End Receive.

(** ** Heights *)

Lemma foldl_max_le (x : Z) (l : list Z) : (x <= foldl Z.max x l)%Z.
Proof.
  revert x. induction l as [|y l IH]; intros x; simpl; [lia|].
  specialize (IH (Z.max x y)). lia.
Qed.

Lemma foldl_max_max (x y : Z) (l : list Z) :
  foldl Z.max (Z.max x y) l = Z.max x (foldl Z.max y l).
Proof.
  revert x y. induction l as [|z l IH]; intros x y; simpl; [reflexivity|].
  rewrite <- IH. f_equal. lia.
Qed.

Lemma computeHeight_cons acc first rest :
  foldl (fun acc parent => Z.max acc (Message.height parent + 1)) acc (first :: rest)
  = Z.max acc (1 + foldl Z.max (Message.height first) (map Message.height rest)).
Proof.
  revert acc first. induction rest as [|second rest IH]; intros acc first.
  - simpl. lia.
  - change (foldl _ acc (first :: second :: rest))
      with (foldl (fun acc parent => Z.max acc (Message.height parent + 1))
              (Z.max acc (Message.height first + 1)) (second :: rest)).
    rewrite IH. simpl. rewrite foldl_max_max.
    pose proof (foldl_max_le (Message.height second) (map Message.height rest)). lia.
Qed.

(** The height that [receive] and [post] compute is the height of the
    specification when no parent has a negative height. *)
Lemma computeHeight_expected parents :
  Forall (fun parent => 0 <= Message.height parent)%Z parents ->
  Channel.computeHeight parents = expectedHeight parents.
Proof.
  destruct parents as [|first rest]; [reflexivity|]. intros H.
  unfold Channel.computeHeight. rewrite computeHeight_cons. simpl.
  apply Forall_cons_1 in H as [H _].
  pose proof (foldl_max_le (Message.height first) (map Message.height rest)). lia.
Qed.

Section ReceiveProperties.
Context {sodium : Sodium} {proto : Proto} {getters : Message.Getters}.

Lemma getMessages_stored channel storage hashes parents :
  Channel.getMessages channel storage hashes = map Some parents ->
  Forall (fun parent =>
            exists key,
              Memory.messageByHash (Memory.getChannelData storage (ChannelCore.id channel))
                !! key = Some parent) parents.
Proof.
  unfold Channel.getMessages, StorageCache.getMessages, Memory.getMessages.
  revert parents. induction hashes as [|h hashes IH]; intros [|p parents]; simpl;
    try discriminate; [constructor|].
  intros [= Hp Hrest]. constructor; [|now apply IH].
  unfold Memory.getMessage in Hp. eauto.
Qed.

Lemma stored_heights channel storage hashes parents :
  heightsNonNegative (Memory.getChannelData storage (ChannelCore.id channel)) ->
  Channel.getMessages channel storage hashes = map Some parents ->
  Forall (fun parent => 0 <= Message.height parent)%Z parents.
Proof.
  intros Hheights Hparents. apply getMessages_stored in Hparents.
  eapply Forall_impl; [exact Hparents|]. intros p [key Hkey]. now apply (Hheights key).
Qed.

(** C4, amended: a message that [receive] stores has the height of the
    specification, and a new message of another height whose parents are
    stored is thrown out, the storage untouched: with a [BanError], unless
    [verify] itself threw something else before the height was looked at.
    This holds whatever the getters give. *)
Theorem receive_height channel storage clock message :
  heightsNonNegative (Memory.getChannelData storage (ChannelCore.id channel)) ->
  (forall storage',
     Channel.receive channel storage clock message = (storage', Ok true) ->
     exists parents,
       Channel.getMessages channel storage (Message.parents message) = map Some parents /\
       Message.height message = expectedHeight parents) /\
  (forall parents,
     Channel.getMessages channel storage (Message.parents message) = map Some parents ->
     Message.height message <> expectedHeight parents ->
     StorageCache.hasMessage channel storage (Message.hash message) = false ->
     exists e,
       Channel.receive channel storage clock message = (storage, Throw e) /\
       (isBan e = true \/
        Message.verify message channel (Channel.verifyNow clock) = Throw e)).
Proof.
  intros Hheights. split.
  - intros storage' Hreceive.
    destruct (receive_cases channel storage clock message)
      as [[_ H]|[[_ (e & _ & H)]|[_ (decrypted & Hchecks & H)]]];
      rewrite H in Hreceive; try discriminate.
    apply receiveChecks_Ok in Hchecks as [parents Hacc].
    destruct Hacc as [Hv _ Hparents _ Hheight _ _ _].
    apply verify_decrypt, decrypt_fields in Hv as (_ & Hp & Hh & _).
    rewrite Hp in Hparents. exists parents. split; [assumption|].
    rewrite <- Hh, Hheight. apply computeHeight_expected.
    now apply (stored_heights channel storage (Message.parents message)).
  - intros parents Hparents Hheight Hnew.
    assert (Hexp : Channel.computeHeight parents = expectedHeight parents).
    { apply computeHeight_expected.
      now apply (stored_heights channel storage (Message.parents message)). }
    unfold Channel.receive. rewrite Hnew. unfold Channel.receiveChecks.
    destruct (Message.verify _ _ _) as [[ok m]|e] eqn:Hv; simpl; [|eauto].
    apply verify_decrypt, decrypt_fields in Hv as (_ & Hp & Hh & _).
    destruct ok; simpl; [|eauto].
    destruct (_ <? _)%nat; [eauto|].
    rewrite Hp, Hparents, findMissing_Some, filterDefined_Some.
    destruct (negb _); [eauto|].
    rewrite Hh, Hexp.
    destruct (Z.eqb_spec (Message.height message) (expectedHeight parents));
      [contradiction|]. simpl. eauto.
Qed.

End ReceiveProperties.

(** ** Roots and chains *)

Section Roots.
Context {sodium : Sodium} {proto : Proto} {getters : Message.Getters}.

(** The chain walk of an empty chain ends at the channel's key. *)
Lemma getLeafKey_empty channel timestamp :
  Chain.getLeafKey {| Chain.links := [] |} channel timestamp
  = Ok (Some (ChannelCore.publicKey channel)).
Proof. reflexivity. Qed.


End Roots.

(** ** The sources as they are *)

(** With the getters that the classes define, that is none, every
    timestamp that the channel reads is [undefined]. *)
Section AsTheyAre.
Context {sodium : Sodium} {proto : Proto}.
#[local] Existing Instance Message.absent.


Lemma maxTimestamp_absent acc parents :
  parents <> [] ->
  foldl (fun acc parent => Js.Math_max acc (Js.toNumber (Message.timestamp parent)))
    acc parents = nan.
Proof.
  intros Hparents. destruct parents as [|first rest]; [contradiction|]. simpl.
  assert (Hfirst : Js.Math_max acc nan = nan).
  { unfold Js.Math_max. now rewrite orb_true_r. }
  rewrite Hfirst. clear. induction rest as [|parent rest IH]; [reflexivity|exact IH].
Qed.

(** No parent passes the filter of 30 days. *)
Lemma filterParents_absent parents : Channel.filterParents parents = [].
Proof.
  unfold Channel.filterParents. destruct parents as [|first rest]; [reflexivity|].
  unfold Channel.computeMaxTimestamp.
  rewrite maxTimestamp_absent by discriminate.
  generalize (first :: rest). intros parents.
  induction parents as [|parent parents IH]; [reflexivity|exact IH].
Qed.

(** Past the signature, [receive] throws: a message without parents gets as
    far as the read of [message.body.root], one with parents is stopped at
    the filter of its parents. *)
Lemma receiveChecks_absent channel storage clock message :
  exists e, Channel.receiveChecks channel storage clock message = Throw e.
Proof.
  destruct (Channel.receiveChecks channel storage clock message) as [decrypted|e] eqn:Hchecks;
    [|eauto].
  exfalso. apply receiveChecks_Ok in Hchecks as [parents Hacc].
  destruct parents as [|first rest].
  - pose proof (accepted_content _ _ _ _ _ _ Hacc) as Hcontent. discriminate.
  - pose proof (accepted_delta _ _ _ _ _ _ Hacc) as Hdelta.
    rewrite filterParents_absent in Hdelta. discriminate.
Qed.

(** [receive] stores nothing. *)
Lemma receive_absent channel storage clock message :
  (StorageCache.hasMessage channel storage (Message.hash message) = true /\
   Channel.receive channel storage clock message = (storage, Ok false)) \/
  (StorageCache.hasMessage channel storage (Message.hash message) = false /\
   exists e, Channel.receive channel storage clock message = (storage, Throw e)).
Proof.
  destruct (receive_cases channel storage clock message)
    as [H|[[Hnew (e & _ & H)]|[_ (decrypted & Hchecks & _)]]]; [now left|right; eauto|].
  destruct (receiveChecks_absent channel storage clock message) as [e He].
  rewrite He in Hchecks. discriminate.
Qed.


(** The exception for a new message with parents, all of them stored, that
    passes the signature. *)
Lemma receive_child_thrown channel storage clock message decrypted parents :
  StorageCache.hasMessage channel storage (Message.hash message) = false ->
  Message.verify message channel (Channel.verifyNow clock) = Ok (true, decrypted) ->
  Message.parents message <> [] ->
  length (Message.parents message) <= MAX_LEAVES_COUNT ->
  Channel.getMessages channel storage (Message.parents message) = map Some parents ->
  Channel.receive channel storage clock message
  = (storage, Throw (BanError "Parent timestamp delta is greater than 30 days")).
Proof.
  intros Hnew Hv Hne Hcount Hparents. unfold Channel.receive, Channel.receiveChecks.
  rewrite Hnew, Hv. simpl.
  apply verify_decrypt, decrypt_fields in Hv as (_ & Hp & _).
  rewrite Hp. destruct (Nat.ltb_spec MAX_LEAVES_COUNT (length (Message.parents message)));
    [lia|].
  rewrite Hparents, findMissing_Some, filterDefined_Some, filterParents_absent.
  destruct parents as [|first rest]; [|reflexivity].
  destruct (Message.parents message); [contradiction|discriminate].
Qed.

(** [post] returns no message: it refuses a root body, and for any other
    body no leaf passes the filter. *)
Lemma post_absent channel storage rnd body identity timestamp :
  exists e,
    Channel.post channel storage rnd body identity timestamp = (storage, Throw e) /\
    (body = Root -> e = Error "Posting root is not allowed") /\
    (forall leaves,
       body <> Root ->
       Channel.getLeaves channel storage = map Some leaves ->
       e = if (Channel.getMessageCount channel storage =? 0)%nat
           then Error "Initial synchronization not complete"
           else Error "Internal error: no leaves").
Proof.
  unfold Channel.post, Channel.postMessage. destruct body as [|json]; simpl.
  { eexists. split; [reflexivity|]. split; [reflexivity|]. intros leaves H. contradiction. }
  destruct (Channel.allDefined (Channel.getLeaves channel storage)) as [leaves|e] eqn:Hleaves;
    simpl.
  - rewrite filterParents_absent. simpl.
    destruct (Channel.getMessageCount channel storage =? 0)%nat;
      (eexists; split; [reflexivity|]; split; [discriminate|reflexivity]).
  - exists e. split; [reflexivity|]. split; [discriminate|]. intros leaves' _ Hget.
    apply allDefined_Ok in Hget. rewrite Hget in Hleaves. discriminate.
Qed.

(** The channel never writes: the only storage that [receive] and [post]
    reach is the empty one. *)
Lemma Reachable_absent channel storage :
  Reachable channel storage -> storage = Memory.empty.
Proof.
  induction 1 as [|storage clock message _ IH|storage rnd body identity timestamp _ IH].
  - reflexivity.
  - destruct (receive_absent channel storage clock message)
      as [[_ H]|[_ (e & H)]]; now rewrite H.
  - destruct (post_absent channel storage rnd body identity timestamp) as (e & H & _).
    now rewrite H.
Qed.



End AsTheyAre.


(** ** The storages a channel reaches *)

Lemma insertSorted_length x sorted :
  length (Memory.insertSorted x sorted) = S (length sorted).
Proof.
  induction sorted as [|y sorted IH]; [reflexivity|]. simpl.
  destruct (Memory.compareMessages x y); simpl; now rewrite ?IH.
Qed.

Lemma sort_length l : length (Memory.sort l) = length l.
Proof.
  induction l as [|x l IH]; [reflexivity|].
  unfold Memory.sort in *. simpl. now rewrite insertSorted_length, IH.
Qed.

Lemma addToData_messagesCounted data message :
  messagesCounted data -> messagesCounted (Memory.addToData data message).
Proof.
  unfold messagesCounted, Memory.addToData. intros H.
  case_bool_decide as Hdup; [assumption|]. simpl.
  rewrite sort_length, length_app, map_size_insert_None; [simpl; lia|].
  destruct (Memory.messageByHash data !! _) eqn:E; [|reflexivity].
  exfalso. apply Hdup. eauto.
Qed.

Section Reach.
Context {sodium : Sodium} {proto : Proto} {getters : Message.Getters}.

Lemma new_fields rnd options message :
  Message.new rnd options = Ok message ->
  Message.parents message = Message.o_parents options /\
  Message.height message = Message.o_height options /\
  Message.content message = Message.o_content options /\
  (Message.o_channelId options = None ->
   forall channel, Message.o_channel options = Some channel ->
   Message.channelId message = ChannelCore.id channel).
Proof.
  unfold Message.new.
  destruct (match Message.o_channelId options with Some _ => _ | None => _ end)
    as [channelId|] eqn:Hid; simpl; [|discriminate].
  destruct (ChannelCore.checkId _ _); simpl; [|discriminate].
  destruct (Message.checkHashes _ _); simpl; [|discriminate].
  destruct (_ <? _)%Z; [discriminate|].
  destruct (negb _); [discriminate|].
  destruct (match Message.o_content options with Some _ => _ | None => _ end)
    as [encrypted|]; simpl; [|discriminate].
  intros [= <-]. simpl. repeat split.
  intros Hnone channel Hchannel. rewrite Hnone, Hchannel in Hid.
  now injection Hid as <-.
Qed.

Lemma signMessageBody_fields identity body channel parents height timestamp options :
  Identity.signMessageBody identity body channel parents height timestamp = Ok options ->
  Message.o_parents options = parents /\
  Message.o_height options = height /\
  Message.o_channel options = Some channel /\
  Message.o_channelId options = None /\
  exists c, Message.o_content options = Some c /\
            PContent.timestamp c = timestamp /\ PContent.body c = body.
Proof.
  unfold Identity.signMessageBody. destruct (Identity.getChain _ _); [|discriminate].
  destruct (ChannelCore.checkJSONLimit _ _); simpl; [|discriminate].
  intros [= <-]. simpl. eauto 10.
Qed.

(** What [post] has established when the message is built. *)
Lemma postMessage_Ok channel storage rnd body identity timestamp message :
  Channel.postMessage channel storage rnd body identity timestamp = Ok message ->
  exists leaves,
    Channel.allDefined (Channel.getLeaves channel storage) = Ok leaves /\
    Channel.filterParents leaves <> [] /\
    Message.parents message = map Message.hash (Channel.filterParents leaves) /\
    Message.height message = Channel.computeHeight (Channel.filterParents leaves) /\
    PContent.timestamp <$> Message.content message
    = Some (Channel.adjustTimestamp (Channel.filterParents leaves) timestamp) /\
    PContent.body <$> Message.content message = Some body /\
    Message.channelId message = ChannelCore.id channel.
Proof.
  unfold Channel.postMessage. destruct (ChannelCore.Body_root body); [discriminate|].
  destruct (Channel.allDefined _) as [leaves|]; simpl; [|discriminate].
  destruct (Channel.filterParents leaves) as [|p ps] eqn:Hparents; simpl.
  { destruct (_ =? _)%nat; discriminate. }
  destruct (Identity.signMessageBody _ _ _ _ _ _) as [options|] eqn:Hsign; simpl;
    [|discriminate].
  destruct (ChannelCore.checkJSONLimit _ _); simpl; [|discriminate].
  intros Hnew. apply signMessageBody_fields in Hsign
    as (Hp & Hh & Hch & Hid & c & Hc & Hts & Hbody).
  apply new_fields in Hnew as (Hp' & Hh' & Hc' & Hid').
  exists leaves. split; [reflexivity|]. rewrite Hparents. split; [discriminate|].
  rewrite Hp', Hp, Hh', Hh. repeat split.
  - rewrite Hc', Hc. simpl. now rewrite Hts.
  - rewrite Hc', Hc. simpl. now rewrite Hbody.
  - now apply Hid'.
Qed.

Lemma filterParents_elem parent parents :
  parent ∈ Channel.filterParents parents -> parent ∈ parents.
Proof.
  unfold Channel.filterParents. rewrite !list_elem_of_In, filter_In. tauto.
Qed.

(** The leaves that [getLeaves] returns are stored under their hash. *)
Lemma getLeaves_stored channel storage leaves :
  wellKeyed (Memory.getChannelData storage (ChannelCore.id channel)) ->
  Channel.allDefined (Channel.getLeaves channel storage) = Ok leaves ->
  forall leaf, leaf ∈ leaves ->
    Memory.messageByHash (Memory.getChannelData storage (ChannelCore.id channel))
      !! toHex (Message.hash leaf) = Some leaf.
Proof.
  intros Hkeys Hleaves leaf Hin. apply allDefined_Ok in Hleaves.
  assert (Hsome : Some leaf ∈ Channel.getLeaves channel storage).
  { rewrite Hleaves. now apply list_elem_of_fmap_2. }
  unfold Channel.getLeaves in Hsome. rewrite slice_0 in Hsome.
  apply elem_of_take in Hsome as (i & Hi & _).
  apply list_elem_of_lookup_2 in Hi.
  unfold StorageCache.getLeaves, Memory.getLeaves in Hi.
  apply list_elem_of_fmap in Hi as (hex & Hget & _).
  unfold Memory.getMessage in Hget. symmetry in Hget.
  now rewrite <- (Hkeys _ _ Hget).
Qed.

Lemma getMessages_parents_stored channel storage hashes parents :
  Channel.getMessages channel storage hashes = map Some parents ->
  forall hash, hash ∈ hashes ->
    is_Some (Memory.messageByHash (Memory.getChannelData storage (ChannelCore.id channel))
               !! toHex hash).
Proof.
  unfold Channel.getMessages, StorageCache.getMessages, Memory.getMessages.
  revert parents. induction hashes as [|h hashes IH]; intros parents Hmap hash Hin.
  { now apply elem_of_nil in Hin. }
  destruct parents as [|p parents]; [discriminate|]. simpl in Hmap.
  injection Hmap as Hp Hrest. apply elem_of_cons in Hin as [->|Hin].
  - unfold Memory.getMessage in Hp. eauto.
  - now apply (IH parents).
Qed.

(** The two invariants of the storage of a channel: the messages are filed
    under their hashes with their parents and the leaves are the messages
    that are no parent; no height is negative. *)
Lemma Reachable_Consistent channel storage :
  Reachable channel storage ->
  Consistent (Memory.getChannelData storage (ChannelCore.id channel)) /\
  heightsNonNegative (Memory.getChannelData storage (ChannelCore.id channel)) /\
  messagesCounted (Memory.getChannelData storage (ChannelCore.id channel)).
Proof.
  induction 1 as [|storage clock message _ (IHc & IHh & IHn)
                  |storage rnd body identity timestamp _ (IHc & IHh & IHn)].
  - unfold Memory.getChannelData. simpl. rewrite lookup_empty. simpl.
    split; [apply Consistent_empty|]. split; [apply heightsNonNegative_empty|].
    reflexivity.
  - destruct (receive_cases channel storage clock message)
      as [[_ H]|[[_ (e & _ & H)]|[_ (decrypted & Hchecks & H)]]];
      rewrite H; simpl; [(split; [|split]; assumption)|(split; [|split]; assumption)|].
    apply receiveChecks_Ok in Hchecks as [parents Hacc].
    unfold StorageCache.addMessage. rewrite getChannelData_addMessage.
    case_decide as Hid; [|(split; [|split]; assumption)].
    apply toHex_inj in Hid. rewrite Hid. split; [|split].
    + apply addToData_Consistent; [assumption|]. intros parent Hin.
      now apply (getMessages_parents_stored _ _ _ _ (accepted_parents _ _ _ _ _ _ Hacc)).
    + apply addToData_heightsNonNegative; [assumption|].
      rewrite (accepted_height _ _ _ _ _ _ Hacc). apply computeHeight_nonneg.
    + now apply addToData_messagesCounted.
  - unfold Channel.post.
    destruct (Channel.postMessage _ _ _ _ _ _) as [message|e] eqn:Hpost; simpl;
      [|(split; [|split]; assumption)].
    apply postMessage_Ok in Hpost as (leaves & Hleaves & _ & Hp & Hh & _ & _ & Hid).
    unfold StorageCache.addMessage. rewrite getChannelData_addMessage, Hid.
    rewrite decide_True by reflexivity. split; [|split].
    + apply addToData_Consistent; [assumption|]. intros parent Hin.
      rewrite Hp in Hin. apply list_elem_of_fmap in Hin as (leaf & -> & Hin).
      apply filterParents_elem in Hin.
      rewrite (getLeaves_stored channel storage leaves (consistent_keys _ IHc) Hleaves leaf Hin).
      eauto.
    + apply addToData_heightsNonNegative; [assumption|].
      rewrite Hh. apply computeHeight_nonneg.
    + now apply addToData_messagesCounted.
Qed.

(** The leaves of a consistent storage are read back in their order. *)
Lemma getLeaves_Consistent storage channelId :
  Consistent (Memory.getChannelData storage channelId) ->
  exists leaves,
    Memory.getLeaves storage channelId = map Some leaves /\
    map (fun leaf => toHex (Message.hash leaf)) leaves
    = Memory.leaves (Memory.getChannelData storage channelId).
Proof.
  intros [Hkeys _ [_ Hleaves]]. unfold Memory.getLeaves, Memory.getMessage.
  set (data := Memory.getChannelData storage channelId) in *.
  assert (Hall : forall hex, hex ∈ Memory.leaves data ->
            exists leaf, Memory.messageByHash data !! hex = Some leaf /\
                         toHex (Message.hash leaf) = hex).
  { intros hex Hin. apply Hleaves in Hin as [[leaf Hleaf] _].
    exists leaf. split; [assumption|]. symmetry. now apply Hkeys. }
  clear Hleaves. induction (Memory.leaves data) as [|hex hexes IH].
  - now exists [].
  - destruct IH as (leaves & Hget & Hhex).
    { intros h Hin. apply Hall. now right. }
    destruct (Hall hex) as (leaf & Hleaf & Hh); [now left|].
    exists (leaf :: leaves). simpl. rewrite Hget, Hhex, Hh. split; [|reflexivity].
    f_equal. now rewrite <- Hh, fromHex_toHex, Hh.
Qed.

(** C8: in every storage that a channel reaches, the leaf set holds
    exactly the hashes of the stored messages that are in no stored
    message's parents; [addMessage] of a message whose parents are stored,
    as [receive] and [post] call it, keeps it so, and [getLeaves] returns
    the messages of the leaf set and writes nothing. *)
Theorem leaves_closure channel storage :
  Reachable channel storage ->
  let data := Memory.getChannelData storage (ChannelCore.id channel) in
  leavesClosure data /\
  (forall message,
     Message.channelId message = ChannelCore.id channel ->
     (forall parent, parent ∈ Message.parents message ->
        is_Some (Memory.messageByHash data !! toHex parent)) ->
     leavesClosure
       (Memory.getChannelData (Memory.addMessage storage message) (ChannelCore.id channel))) /\
  (exists leaves,
     Memory.getLeaves storage (ChannelCore.id channel) = map Some leaves /\
     map (fun leaf => toHex (Message.hash leaf)) leaves = Memory.leaves data /\
     Channel.getLeaves channel storage = take MAX_LEAVES_COUNT (map Some leaves)).
Proof.
  intros Hreach. simpl.
  destruct (Reachable_Consistent channel storage Hreach) as (Hc & _ & _).
  split; [apply (consistent_leaves _ Hc)|]. split.
  - intros message Hid Hparents. rewrite getChannelData_addMessage, Hid.
    rewrite decide_True by reflexivity.
    now apply consistent_leaves, addToData_Consistent.
  - destruct (getLeaves_Consistent storage (ChannelCore.id channel) Hc)
      as (leaves & Hget & Hhex).
    exists leaves. split; [assumption|]. split; [assumption|].
    unfold Channel.getLeaves, StorageCache.getLeaves. now rewrite slice_0, Hget.
Qed.

End Reach.

(** ** The leaves of a storage that the channel reaches *)

Section Post.
Context {sodium : Sodium} {proto : Proto} {getters : Message.Getters}.

(** In a storage that the channel reaches every leaf is stored, and a
    channel without messages has no leaf. *)
Lemma Reachable_getLeaves channel storage :
  Reachable channel storage ->
  exists leaves,
    Channel.getLeaves channel storage = map Some leaves /\
    (Channel.getMessageCount channel storage = 0 -> leaves = []) /\
    Forall (fun leaf => (0 <= Message.height leaf)%Z) leaves.
Proof.
  intros Hreach.
  destruct (Reachable_Consistent channel storage Hreach) as (Hc & Hh & Hn).
  destruct (getLeaves_Consistent storage (ChannelCore.id channel) Hc) as (all & Hget & Hhex).
  assert (Hslice : Channel.getLeaves channel storage = take MAX_LEAVES_COUNT (map Some all))
    by (unfold Channel.getLeaves, StorageCache.getLeaves; now rewrite slice_0, Hget).
  exists (take MAX_LEAVES_COUNT all). rewrite Hslice, fmap_take.
  split; [reflexivity|].
  assert (Hstored : forall leaf, leaf ∈ all ->
            Memory.messageByHash (Memory.getChannelData storage (ChannelCore.id channel))
              !! toHex (Message.hash leaf) = Some leaf).
  { intros leaf Hin.
    assert (Hsome : Some leaf ∈ Memory.getLeaves storage (ChannelCore.id channel))
      by (rewrite Hget; now apply list_elem_of_fmap_2).
    unfold Memory.getLeaves in Hsome.
    apply list_elem_of_fmap in Hsome as (hex & Hleaf & _).
    unfold Memory.getMessage in Hleaf. symmetry in Hleaf.
    now rewrite <- (consistent_keys _ Hc _ _ Hleaf). }
  split.
  - unfold Channel.getMessageCount, StorageCache.getMessageCount, Memory.getMessageCount.
    rewrite Hn. intros Hsize. apply map_size_empty_iff in Hsize.
    destruct all as [|leaf all]; [now rewrite take_nil|].
    specialize (Hstored leaf (list_elem_of_here _ _)).
    rewrite Hsize, lookup_empty in Hstored. discriminate.
  - apply Forall_forall. intros leaf Hin.
    apply (Hh (toHex (Message.hash leaf))). apply Hstored.
    apply elem_of_take in Hin as (i & Hi & _).
    now apply list_elem_of_lookup_2 in Hi.
Qed.

End Post.

(** ** Bulk requests *)

Section Bulk.
Context {sodium : Sodium} {proto : Proto} {getters : Message.Getters}.

Lemma checkHashes_Ok hashes message :
  Message.checkHashes hashes message = Ok tt <->
  Forall (fun hash => length hash = HASH_SIZE) hashes.
Proof.
  induction hashes as [|h hashes IH]; simpl.
  - split; [constructor|reflexivity].
  - unfold Message.checkHash. rewrite Forall_cons.
    destruct (Nat.eqb_spec (length h) HASH_SIZE); simpl.
    + rewrite IH. tauto.
    + split; [discriminate|tauto].
Qed.

Lemma checkHashes_Throw hashes message :
  ~ Forall (fun hash => length hash = HASH_SIZE) hashes ->
  Message.checkHashes hashes message = Throw (BanError message).
Proof.
  induction hashes as [|h hashes IH]; simpl; intros H.
  - exfalso. apply H. constructor.
  - unfold Message.checkHash.
    destruct (Nat.eqb_spec (length h) HASH_SIZE); simpl; [|reflexivity].
    apply IH. intros Hall. apply H. now constructor.
Qed.

(** The hashes of the messages found are the hashes asked for that are
    stored, in the order of the request. *)
Lemma found_hashes data (hashes : list Buffer) :
  wellKeyed data ->
  map Message.hash (filterDefined (map (fun hash => Memory.messageByHash data !! toHex hash) hashes))
  = List.filter (fun hash => bool_decide (is_Some (Memory.messageByHash data !! toHex hash)))
      hashes.
Proof.
  intros Hkeys. unfold filterDefined.
  induction hashes as [|h hashes IH]; [reflexivity|]. cbn.
  destruct (Memory.messageByHash data !! toHex h) as [m|] eqn:Hm; cbn.
  - rewrite IH. f_equal. apply toHex_inj. symmetry. now apply Hkeys.
  - exact IH.
Qed.

(** C7: with the default options, [bulk] looks at the first 128 hashes of
    the request, all of which must be 32 bytes long.  It returns the stored
    messages of those hashes, in the order of the request, and the number
    of hashes it looked at as [forwardIndex]. *)
Theorem bulk_spec channel storage hashes :
  ChannelCore.maxBulkCount (ChannelCore.options channel) = MAX_BULK_COUNT ->
  wellKeyed (Memory.getChannelData storage (ChannelCore.id channel)) ->
  let processed := take 128 hashes in
  (Forall (fun hash => length hash = HASH_SIZE) processed ->
   exists response,
     Channel.bulk channel storage hashes = Ok response /\
     Channel.forwardIndex response = Z.of_nat (length processed) /\
     length processed = Nat.min (length hashes) 128 /\
     map Some (Channel.messages response)
     = List.filter (fun found => bool_decide (is_Some found))
         (Channel.getMessages channel storage processed) /\
     map Message.hash (Channel.messages response)
     = List.filter (StorageCache.hasMessage channel storage) processed) /\
  (~ Forall (fun hash => length hash = HASH_SIZE) processed ->
   Channel.bulk channel storage hashes = Throw (BanError "Invalid hash size in bulk()")).
Proof.
  intros Hopt Hkeys processed. subst processed. unfold Channel.bulk. rewrite Hopt.
  change MAX_BULK_COUNT with (Z.of_nat 128). rewrite slice_0. unfold Buffer in *.
  split.
  - intros Hsizes. apply (checkHashes_Ok _ "Invalid hash size in bulk()") in Hsizes.
    eexists. split; [rewrite Hsizes; reflexivity|]. simpl.
    split; [reflexivity|]. split; [rewrite length_take; lia|].
    split.
    + unfold filterDefined.
      induction (Channel.getMessages channel storage (take 128 hashes)) as [|[m|] l IH];
        [reflexivity| |]; cbn.
      * now rewrite <- IH.
      * exact IH.
    + unfold Channel.getMessages, StorageCache.getMessages, StorageCache.hasMessage,
        Memory.getMessages, Memory.hasMessage, Memory.getMessage.
      now apply found_hashes.
  - intros Hsizes. now rewrite checkHashes_Throw.
Qed.

End Bulk.

(** ** Fetching *)

Lemma sliceFrom_shorter {A} (n : Z) (l : list A) :
  (0 < n)%Z -> l <> [] -> length (sliceFrom n l) < length l.
Proof.
  intros Hn Hl. unfold sliceFrom, sliceIndex.
  destruct (Z.ltb_spec n 0); [exfalso; lia|].
  rewrite length_drop. destruct l; [contradiction|]. simpl. lia.
Qed.

Section Fetch.
Context {sodium : Sodium} {proto : Proto} {getters : Message.Getters}.

(** A response with a message that was not asked for ends the loop over
    its messages with an exception: the [BanError] for that message, or
    what [receive] threw for a message before it. *)
Lemma receiveMessages_unexpected channel clock expected storage received delta messages :
  (exists message, message ∈ messages /\ toHex (Message.hash message) ∉ expected) ->
  exists storage' received' e,
    Channel.receiveMessages channel clock expected storage received delta messages
    = (storage', received', Throw e) /\
    (isBan e = true \/
     exists message storage1 n,
       message ∈ messages /\
       Channel.receive channel storage1 (clock n) message = (storage1, Throw e)).
Proof.
  revert storage received delta.
  induction messages as [|m messages IH]; intros storage received delta (bad & Hin & Hbad).
  { now apply elem_of_nil in Hin. }
  simpl. case_bool_decide as Hm; simpl; [|eauto 10].
  destruct (Channel.receive _ _ _ _) as [storage1 [isNew|e]] eqn:Hreceive.
  - destruct (IH storage1 (S received) (if isNew then (delta + 1)%Z else delta))
      as (storage' & received' & e & Hloop & He).
    { exists bad. split; [|assumption].
      apply elem_of_cons in Hin as [->|Hin]; [contradiction|assumption]. }
    exists storage', received', e. split; [assumption|].
    destruct He as [He|(m' & s1 & n & Hm' & He)]; [now left|right].
    exists m', s1, n. split; [now right|assumption].
  - exists storage1, (S received), e. split; [reflexivity|]. right.
    exists m, storage1, received. split; [now left|].
    destruct (receive_cases channel storage (clock received) m)
      as [[_ H]|[[_ (e' & _ & H)]|[_ (decrypted & _ & H)]]];
      rewrite H in Hreceive; try discriminate.
    injection Hreceive as <- <-. assumption.
Qed.

(** The messages before the first one that was not asked for are received
    in turn; the loop stops at that message. *)
Lemma receiveMessages_first_unexpected channel clock expected storage received delta
    before message after storage' received' delta' :
  Channel.receiveMessages channel clock expected storage received delta before
  = (storage', received', Ok delta') ->
  toHex (Message.hash message) ∉ expected ->
  Channel.receiveMessages channel clock expected storage received delta
    (before ++ message :: after)
  = (storage', received',
     Throw (BanError ("Unexpected message in bulk response: "
                      +:+ toHex (Message.hash message)))).
Proof.
  revert storage received delta.
  induction before as [|m before IH]; intros storage received delta Hbefore Hbad; simpl in *.
  - injection Hbefore as <- <- <-. now rewrite bool_decide_eq_false_2.
  - destruct (negb _); [discriminate|].
    destruct (Channel.receive _ _ _ _) as [storage1 [isNew|e]]; [|discriminate].
    now apply IH.
Qed.

(** With as many turns as there are hashes the loop is never cut short. *)
Lemma receiveBulkLoop_fuel fuel fuel' channel remote clock expected storage round received
    delta hashes :
  length hashes <= fuel -> length hashes <= fuel' ->
  Channel.receiveBulkLoop fuel channel remote clock expected storage round received delta hashes
  = Channel.receiveBulkLoop fuel' channel remote clock expected storage round received delta
      hashes.
Proof.
  revert fuel' storage round received delta hashes.
  induction fuel as [|fuel IH]; intros fuel' storage round received delta hashes Hf Hf'.
  - destruct hashes; [|simpl in Hf; lia]. now destruct fuel'.
  - destruct hashes as [|h hashes]; [now destruct fuel'|].
    destruct fuel' as [|fuel']; [simpl in Hf'; lia|].
    simpl. destruct (remote round (h :: hashes)) as [response|e]; [|reflexivity].
    destruct (Z.leb_spec (Channel.forwardIndex response) 0) as [|Hpos]; [reflexivity|].
    destruct (Channel.receiveMessages _ _ _ _ _ _ _) as [[storage' received'] [delta'|e]];
      [|reflexivity].
    assert (Hshorter : length (sliceFrom (Channel.forwardIndex response) (h :: hashes))
                       < length (h :: hashes))
      by (apply sliceFrom_shorter; [assumption|discriminate]).
    apply IH; simpl in *; lia.
Qed.

(** C10, amended: at every turn of the loop of [receiveBulk] at which
    hashes remain,
    an answer whose [forwardIndex] is zero or less ends the fetch with a
    [BanError], and so does an answer that holds a message whose hash is
    not among the hashes asked for, once the messages before it have been
    received; in any case such an answer ends the fetch with an
    exception, which is a [BanError] or what [receive] threw for a message
    of the answer.  The loop needs no more turns than there are hashes. *)
Theorem receiveBulk_ban fuel channel remote clock expected storage round received delta
    hashes response :
  hashes <> [] ->
  remote round hashes = Ok response ->
  let fetch :=
    Channel.receiveBulkLoop (S fuel) channel remote clock expected storage round received
      delta hashes in
  ((Channel.forwardIndex response <= 0)%Z ->
   fetch = (storage, Throw (BanError "Failed to make progress"))) /\
  ((0 < Channel.forwardIndex response)%Z ->
   forall before message after storage' received' delta',
     Channel.messages response = before ++ message :: after ->
     toHex (Message.hash message) ∉ expected ->
     Channel.receiveMessages channel clock expected storage received delta before
     = (storage', received', Ok delta') ->
     fetch = (storage',
              Throw (BanError ("Unexpected message in bulk response: "
                               +:+ toHex (Message.hash message))))) /\
  ((0 < Channel.forwardIndex response)%Z ->
   (exists message,
      message ∈ Channel.messages response /\ toHex (Message.hash message) ∉ expected) ->
   exists storage' e,
     fetch = (storage', Throw e) /\
     (isBan e = true \/
      exists message storage1 n,
        message ∈ Channel.messages response /\
        Channel.receive channel storage1 (clock n) message = (storage1, Throw e))) /\
  (forall fuel' storage0 hashes0,
     length hashes0 <= fuel' ->
     Channel.receiveBulk channel storage0 remote clock hashes0
     = Channel.receiveBulkLoop fuel' channel remote clock (map toHex hashes0) storage0
         0 0 0%Z hashes0).
Proof.
  intros Hne Hremote fetch. subst fetch.
  destruct hashes as [|h hashes]; [contradiction|]. simpl. rewrite Hremote.
  split; [|split; [|split]].
  - intros Hle. destruct (Z.leb_spec (Channel.forwardIndex response) 0); [reflexivity|lia].
  - intros Hpos before message after storage' received' delta' Hmessages Hbad Hbefore.
    destruct (Z.leb_spec (Channel.forwardIndex response) 0); [lia|].
    rewrite Hmessages.
    now rewrite (receiveMessages_first_unexpected _ _ _ _ _ _ _ _ _ _ _ _ Hbefore Hbad).
  - intros Hpos Hbad.
    destruct (Z.leb_spec (Channel.forwardIndex response) 0); [lia|].
    destruct (receiveMessages_unexpected channel clock expected storage received delta
                (Channel.messages response) Hbad) as (storage' & received' & e & -> & He).
    eauto.
  - intros fuel' storage0 hashes0 Hfuel. unfold Channel.receiveBulk.
    now apply receiveBulkLoop_fuel.
Qed.

End Fetch.

(** ** The sync agent *)

Lemma run_app agent events events' :
  SyncAgent.run agent (events ++ events')
  = SyncAgent.run (SyncAgent.run agent events) events'.
Proof. apply foldl_app. Qed.

(** Calls that find the agent pending return at once. *)
Lemma run_calls_pending agent calls :
  SyncAgent.state agent = SyncAgent.pending ->
  SyncAgent.run agent (repeat SyncAgent.Call calls) = agent.
Proof.
  intros Hstate. induction calls as [|calls IH]; [reflexivity|].
  simpl. unfold SyncAgent.synchronize at 1. rewrite Hstate.
  destruct (SyncAgent.destroyed agent); exact IH.
Qed.

(** A run that finishes while the agent is not pending starts nothing. *)
Lemma run_finishes_not_pending agent finishes :
  SyncAgent.state agent <> SyncAgent.pending ->
  let final := SyncAgent.run agent (repeat SyncAgent.Finish finishes) in
  SyncAgent.restarts final = SyncAgent.restarts agent /\
  SyncAgent.syncs final = SyncAgent.syncs agent /\
  SyncAgent.state final <> SyncAgent.pending.
Proof.
  revert agent. induction finishes as [|finishes IH]; intros agent Hstate; simpl.
  { now repeat split. }
  destruct (SyncAgent.awaiting agent =? 0) eqn:Hawait.
  { now apply IH. }
  unfold SyncAgent.resume.
  destruct (SyncAgent.state agent) eqn:Hs; try contradiction; simpl;
    match goal with
    | |- context [SyncAgent.run ?a _] =>
        destruct (IH a) as (Hr & Hn & Hp); [simpl; discriminate|];
        simpl in Hr, Hn; now repeat split
    end.
Qed.

(** C9: a [synchronize()] call that finds a run active leaves the agent
    pending; any number of calls that find it pending change nothing; and
    when the runs in flight then finish, [synchronize] is called again
    once, by the first of them, and [channel.sync] once more. *)
Theorem synchronize_coalesced agent :
  SyncAgent.destroyed agent = false ->
  SyncAgent.state agent = SyncAgent.active ->
  let waiting := SyncAgent.synchronize agent in
  SyncAgent.state waiting = SyncAgent.pending /\
  (forall calls, SyncAgent.run waiting (repeat SyncAgent.Call calls) = waiting) /\
  (forall calls,
     let restarted :=
       SyncAgent.run waiting (repeat SyncAgent.Call calls ++ [SyncAgent.Finish]) in
     SyncAgent.state restarted = SyncAgent.active /\
     SyncAgent.restarts restarted = S (SyncAgent.restarts agent) /\
     SyncAgent.syncs restarted = S (SyncAgent.syncs waiting)) /\
  (forall calls finishes,
     let final :=
       SyncAgent.run waiting
         (repeat SyncAgent.Call calls ++ repeat SyncAgent.Finish (S finishes)) in
     SyncAgent.restarts final = S (SyncAgent.restarts agent) /\
     SyncAgent.syncs final = S (SyncAgent.syncs waiting)).
Proof.
  intros Hdestroyed Hstate waiting.
  assert (Hwaiting : waiting =
            {| SyncAgent.state := SyncAgent.pending;
               SyncAgent.destroyed := false;
               SyncAgent.awaiting := S (SyncAgent.awaiting agent);
               SyncAgent.syncs := S (SyncAgent.syncs agent);
               SyncAgent.restarts := SyncAgent.restarts agent |}).
  { unfold waiting, SyncAgent.synchronize. now rewrite Hdestroyed, Hstate. }
  assert (Hpending : SyncAgent.state waiting = SyncAgent.pending)
    by now rewrite Hwaiting.
  split; [assumption|]. split; [intros calls; now apply run_calls_pending|].
  assert (Hfirst : forall calls,
            SyncAgent.run waiting (repeat SyncAgent.Call calls ++ [SyncAgent.Finish])
            = {| SyncAgent.state := SyncAgent.active;
                 SyncAgent.destroyed := false;
                 SyncAgent.awaiting := S (SyncAgent.awaiting agent);
                 SyncAgent.syncs := S (S (SyncAgent.syncs agent));
                 SyncAgent.restarts := S (SyncAgent.restarts agent) |}).
  { intros calls. rewrite run_app, run_calls_pending by assumption.
    rewrite Hwaiting. reflexivity. }
  split.
  - intros calls. simpl. rewrite Hfirst, Hwaiting. simpl. now repeat split.
  - intros calls finishes. simpl.
    change (SyncAgent.Finish :: repeat SyncAgent.Finish finishes)
      with ([SyncAgent.Finish] ++ repeat SyncAgent.Finish finishes).
    rewrite app_assoc, run_app, Hfirst.
    match goal with
    | |- context [SyncAgent.run ?a _] =>
        destruct (run_finishes_not_pending a finishes) as (Hr & Hn & _);
          [simpl; discriminate|]
    end.
    simpl in Hr, Hn. rewrite Hr, Hn, Hwaiting. simpl. now split.
Qed.

(** ** The linear order of the storage *)

Lemma to_N_inj (a b : byte) : Byte.to_N a = Byte.to_N b -> a = b.
Proof.
  intros H. apply (f_equal Byte.of_N) in H. rewrite !Byte.of_to_N in H. congruence.
Qed.

Lemma Buffer_compare_Eq (a b : Buffer) : Buffer_compare a b = Eq <-> a = b.
Proof.
  revert b. induction a as [|x a IH]; intros [|y b]; simpl; try (split; congruence).
  destruct (N.compare_spec (Byte.to_N x) (Byte.to_N y)) as [H|H|H].
  - apply to_N_inj in H. subst y. rewrite IH. split; congruence.
  - split; [discriminate|]. intros [= -> _]. lia.
  - split; [discriminate|]. intros [= -> _]. lia.
Qed.

Lemma Buffer_compare_antisym (a b : Buffer) :
  Buffer_compare b a = CompOpp (Buffer_compare a b).
Proof.
  revert b. induction a as [|x a IH]; intros [|y b]; simpl; try reflexivity.
  rewrite (N.compare_antisym (Byte.to_N x) (Byte.to_N y)).
  destruct (Byte.to_N x ?= Byte.to_N y)%N; simpl; auto.
Qed.

Lemma Buffer_compare_trans (a b c : Buffer) :
  Buffer_compare a b = Lt -> Buffer_compare b c = Lt -> Buffer_compare a c = Lt.
Proof.
  revert b c. induction a as [|x a IH]; intros [|y b] [|z c]; simpl; try congruence.
  destruct (N.compare_spec (Byte.to_N x) (Byte.to_N y)) as [H1|H1|H1];
    destruct (N.compare_spec (Byte.to_N y) (Byte.to_N z)) as [H2|H2|H2];
    try discriminate; intros Hab Hbc.
  - rewrite H1, H2, N.compare_refl. eauto.
  - rewrite H1. apply N.compare_lt_iff in H2. rewrite H2. reflexivity.
  - rewrite <- H2. apply N.compare_lt_iff in H1. rewrite H1. reflexivity.
  - assert (H : (Byte.to_N x < Byte.to_N z)%N) by lia.
    apply N.compare_lt_iff in H. rewrite H. reflexivity.
Qed.

Lemma Buffer_equals_eq (a b : Buffer) : Buffer_equals a b = true <-> a = b.
Proof.
  revert b. induction a as [|x a IH]; intros [|y b]; simpl; try (split; congruence).
  rewrite andb_true_iff, IH. unfold byte_eqb. rewrite N.eqb_eq. split.
  - intros [H ->]. apply to_N_inj in H. congruence.
  - intros [= -> ->]. auto.
Qed.

Lemma compareMessages_Lt a b : Memory.compareMessages a b = Lt <-> precedes a b.
Proof.
  unfold Memory.compareMessages, precedes.
  destruct (Z.ltb_spec (Message.height a) (Message.height b)).
  - split; auto.
  - destruct (Z.ltb_spec (Message.height b) (Message.height a)).
    + split; [discriminate|]. intros [?|[? _]]; lia.
    + split; [intros; right; split; [lia|assumption]|]. intros [?|[_ ?]]; [lia|assumption].
Qed.

Lemma compareMessages_Gt a b : Memory.compareMessages a b = Gt <-> precedes b a.
Proof.
  unfold Memory.compareMessages, precedes.
  rewrite (Buffer_compare_antisym (Message.hash a) (Message.hash b)).
  destruct (Z.ltb_spec (Message.height a) (Message.height b)).
  - split; [discriminate|]. intros [?|[? _]]; lia.
  - destruct (Z.ltb_spec (Message.height b) (Message.height a)).
    + split; auto.
    + destruct (Buffer_compare (Message.hash a) (Message.hash b)); simpl.
      * split; [discriminate|]. intros [?|[_ ?]]; [lia|discriminate].
      * split; [discriminate|]. intros [?|[_ ?]]; [lia|discriminate].
      * split; [|reflexivity]. intros _. right. split; [lia|reflexivity].
Qed.

Lemma compareMessages_Eq a b :
  Memory.compareMessages a b = Eq -> Message.hash a = Message.hash b.
Proof.
  unfold Memory.compareMessages.
  destruct (Message.height a <? Message.height b)%Z; [discriminate|].
  destruct (Message.height b <? Message.height a)%Z; [discriminate|].
  apply Buffer_compare_Eq.
Qed.

Lemma precedes_trans a b c : precedes a b -> precedes b c -> precedes a c.
Proof.
  unfold precedes. intros [?|[? Hab]] [?|[? Hbc]]; try (left; lia).
  right. split; [lia|]. eapply Buffer_compare_trans; eassumption.
Qed.

Lemma insertSorted_Permutation x sorted : Memory.insertSorted x sorted ≡ₚ x :: sorted.
Proof.
  induction sorted as [|y rest IH]; simpl; [reflexivity|].
  destruct (Memory.compareMessages x y); try reflexivity.
  rewrite IH. apply Permutation_swap.
Qed.

Lemma sort_Permutation l : Memory.sort l ≡ₚ l.
Proof.
  induction l as [|x l IH]; simpl; [reflexivity|].
  unfold Memory.sort in *. simpl. rewrite insertSorted_Permutation, IH. reflexivity.
Qed.

Lemma insertSorted_sorted x sorted :
  StronglySorted precedes sorted ->
  Message.hash x ∉ map Message.hash sorted ->
  StronglySorted precedes (Memory.insertSorted x sorted).
Proof.
  induction 1 as [|y rest Hrest IH Hy]; intros Hx; simpl.
  - repeat constructor.
  - assert (Hxy : Message.hash x <> Message.hash y) by (intros E; apply Hx; simpl; rewrite E; left).
    assert (Hxrest : Message.hash x ∉ map Message.hash rest) by (intros E; apply Hx; simpl; now right).
    destruct (Memory.compareMessages x y) eqn:Hc.
    + apply compareMessages_Eq in Hc. contradiction.
    + apply compareMessages_Lt in Hc. constructor; [now constructor|].
      constructor; [assumption|].
      eapply Forall_impl; [exact Hy|]. intros z Hz. eapply precedes_trans; eassumption.
    + apply compareMessages_Gt in Hc. constructor; [now apply IH|].
      rewrite insertSorted_Permutation. constructor; assumption.
Qed.

Lemma sort_sorted l :
  NoDup (map Message.hash l) -> StronglySorted precedes (Memory.sort l).
Proof.
  induction l as [|x l IH]; simpl; intros Hl.
  - constructor.
  - apply NoDup_cons in Hl as [Hx Hl]. unfold Memory.sort in *. simpl.
    apply insertSorted_sorted; [now apply IH|].
    fold (Memory.sort l). rewrite sort_Permutation. assumption.
Qed.

Lemma Indexed_empty : Indexed Memory.emptyData.
Proof.
  split; simpl.
  - intros m H. inversion H.
  - intros key m H. rewrite lookup_empty in H. discriminate.
  - constructor.
Qed.

Lemma addToData_Indexed data message :
  Indexed data -> Indexed (Memory.addToData data message).
Proof.
  intros [Hm Hb Hd]. unfold Memory.addToData.
  case_bool_decide as Hdup; [now split|].
  assert (Hfresh : Message.hash message ∉ map Message.hash (Memory.messages data)).
  { intros Hin. apply list_elem_of_fmap in Hin as (m & Heq & Hin).
    apply Hdup. rewrite Heq. rewrite (Hm m Hin). eauto. }
  split; simpl.
  - intros m Hin. rewrite sort_Permutation in Hin.
    apply elem_of_app in Hin as [Hin|Hin].
    + rewrite lookup_insert_ne; [now apply Hm|].
      intros E. apply toHex_inj in E. apply Hfresh. rewrite E.
      apply list_elem_of_fmap. eauto.
    + apply list_elem_of_singleton in Hin. subst m. apply lookup_insert_eq.
  - intros key m Hin. rewrite sort_Permutation.
    destruct (decide (toHex (Message.hash message) = key)) as [<-|Hne].
    + rewrite lookup_insert_eq in Hin. injection Hin as <-.
      split; [|reflexivity]. apply elem_of_app. right. now apply list_elem_of_singleton.
    + rewrite lookup_insert_ne in Hin by assumption.
      destruct (Hb key m Hin). split; [|assumption]. apply elem_of_app. now left.
  - rewrite sort_Permutation. rewrite map_app. simpl.
    apply NoDup_app. split; [assumption|]. split; [|apply NoDup_singleton].
    intros h Hin Hin'. apply list_elem_of_singleton in Hin'. subst h. contradiction.
Qed.

Lemma addToData_sorted data message :
  Indexed data ->
  StronglySorted precedes (Memory.messages data) ->
  StronglySorted precedes (Memory.messages (Memory.addToData data message)).
Proof.
  intros HI Hs. pose proof (addToData_Indexed data message HI) as [_ _ Hd].
  revert Hd. unfold Memory.addToData.
  case_bool_decide as Hdup; [auto|]. simpl. intros Hd.
  apply sort_sorted. rewrite sort_Permutation in Hd. assumption.
Qed.

Lemma stored_snoc messages message :
  stored (messages ++ [message]) = Memory.addMessage (stored messages) message.
Proof. unfold stored. now rewrite foldl_app. Qed.

Lemma stored_Indexed messages channelId :
  Indexed (Memory.getChannelData (stored messages) channelId) /\
  StronglySorted precedes (Memory.messages (Memory.getChannelData (stored messages) channelId)).
Proof.
  revert channelId. induction messages as [|message messages IH] using rev_ind; intros channelId.
  - unfold stored, Memory.getChannelData. simpl. rewrite lookup_empty. simpl.
    split; [apply Indexed_empty|constructor].
  - rewrite stored_snoc, getChannelData_addMessage.
    destruct (decide _); [|apply IH].
    destruct (IH (Message.channelId message)).
    split; [now apply addToData_Indexed|now apply addToData_sorted].
Qed.

Lemma StronglySorted_lookup {A} (R : A -> A -> Prop) l i j a b :
  StronglySorted R l -> i < j -> l !! i = Some a -> l !! j = Some b -> R a b.
Proof.
  intros Hs. revert i j. induction Hs as [|x l Hs IH Hx]; intros i j Hij Ha Hb.
  - rewrite lookup_nil in Ha. discriminate.
  - destruct j as [|j]; [lia|]. simpl in Hb. destruct i as [|i]; simpl in Ha.
    + injection Ha as <-. rewrite Forall_forall in Hx. apply Hx.
      eapply list_elem_of_lookup_2. eassumption.
    + eapply IH; [|eassumption|eassumption]. lia.
Qed.

(** The linear order: whatever the messages added and their order of arrival,
    the message at a lower offset has the lower height, or the same height
    and the lower hash. *)
Theorem messages_ordered (added : list Message.t) (channelId : Buffer)
    (i j : nat) (a b : Message.t) :
  i < j ->
  Memory.getMessageAtOffset (stored added) channelId i = Some a ->
  Memory.getMessageAtOffset (stored added) channelId j = Some b ->
  precedes a b.
Proof.
  intros Hij Ha Hb. destruct (stored_Indexed added channelId) as [_ Hs].
  eapply StronglySorted_lookup; eassumption.
Qed.

(** The hash index and the linear order hold the same messages, each at one offset only. *)
Theorem messages_indexed (added : list Message.t) (channelId hash : Buffer) :
  let storage := stored added in
  (Memory.hasMessage storage channelId hash = true <->
   exists offset message,
     Memory.getMessageAtOffset storage channelId offset = Some message /\
     Message.hash message = hash) /\
  (forall i j a b,
     Memory.getMessageAtOffset storage channelId i = Some a ->
     Memory.getMessageAtOffset storage channelId j = Some b ->
     Message.hash a = Message.hash b -> i = j) /\
  (forall offset message,
     Memory.getMessageAtOffset storage channelId offset = Some message ->
     (offset < Memory.getMessageCount storage channelId)%nat /\
     Memory.getMessage storage channelId (Message.hash message) = Some message).
Proof.
  intros storage. destruct (stored_Indexed added channelId) as [[Hm Hb Hd] _].
  fold storage in Hm, Hb, Hd.
  unfold Memory.hasMessage, Memory.getMessageAtOffset, Memory.getMessage, Memory.getMessageCount.
  split; [|split].
  - rewrite bool_decide_eq_true. split.
    + intros [m Hin]. destruct (Hb _ _ Hin) as [Hel Hkey].
      apply toHex_inj in Hkey. apply list_elem_of_lookup_1 in Hel as [i Hi]. eauto.
    + intros (i & m & Hi & <-). exists m. apply Hm. eapply list_elem_of_lookup_2. eassumption.
  - intros i j a b Ha Hb' Hab.
    eapply NoDup_lookup; [exact Hd| |]; rewrite list_lookup_fmap.
    + rewrite Ha. reflexivity.
    + rewrite Hb'. simpl. now rewrite Hab.
  - intros i m Hi. split.
    + eapply lookup_lt_Some. eassumption.
    + apply Hm. eapply list_elem_of_lookup_2. eassumption.
Qed.

Lemma addToData_lookup data message :
  Memory.messageByHash (Memory.addToData data message) !! toHex (Message.hash message)
  = Some (default message (Memory.messageByHash data !! toHex (Message.hash message))).
Proof.
  unfold Memory.addToData. case_bool_decide as Hdup.
  - destruct Hdup as [held Hstored]. now rewrite Hstored.
  - simpl. rewrite lookup_insert_eq.
    destruct (Memory.messageByHash data !! _) eqn:H; [|reflexivity].
    exfalso. apply Hdup. eauto.
Qed.

Lemma addToData_kept data message key held :
  Memory.messageByHash data !! key = Some held ->
  Memory.messageByHash (Memory.addToData data message) !! key = Some held.
Proof.
  intros Hstored. unfold Memory.addToData. case_bool_decide as Hdup; [assumption|].
  simpl. rewrite lookup_insert_ne; [assumption|].
  intros <-. apply Hdup. eauto.
Qed.

Lemma addToData_idempotent data message :
  Memory.addToData (Memory.addToData data message) message = Memory.addToData data message.
Proof.
  apply addToData_duplicate. rewrite addToData_lookup. eauto.
Qed.

(** [addMessage] files a message under its channel and its hash: it is
    found afterwards; a message already stored under that hash stays and the
    count stays, otherwise the count grows by one; adding the message again
    changes nothing; and the data of every other channel is as before. *)
Theorem addMessage_lookup (storage : Memory.t) (message : Message.t) :
  let channelId := Message.channelId message in
  let storage' := Memory.addMessage storage message in
  Memory.hasMessage storage' channelId (Message.hash message) = true /\
  Memory.getMessage storage' channelId (Message.hash message)
  = Some (default message (Memory.getMessage storage channelId (Message.hash message))) /\
  Memory.getMessageCount storage' channelId
  = (Memory.getMessageCount storage channelId
     + if Memory.hasMessage storage channelId (Message.hash message) then 0 else 1)%nat /\
  (forall hash held,
     Memory.getMessage storage channelId hash = Some held ->
     Memory.getMessage storage' channelId hash = Some held) /\
  (forall other,
     other <> channelId ->
     Memory.getChannelData storage' other = Memory.getChannelData storage other) /\
  Memory.addMessage storage' message = storage'.
Proof.
  simpl. unfold Memory.hasMessage, Memory.getMessage, Memory.getMessageCount.
  rewrite !getChannelData_addMessage, !decide_True by reflexivity.
  split; [|split; [|split; [|split; [|split]]]].
  - rewrite addToData_lookup. apply bool_decide_eq_true. eauto.
  - apply addToData_lookup.
  - unfold Memory.addToData. case_bool_decide as Hdup; [lia|]. simpl.
    rewrite sort_length, length_app. reflexivity.
  - intros hash held. apply addToData_kept.
  - intros other Hother. rewrite getChannelData_addMessage.
    rewrite decide_False; [reflexivity|]. intros E. apply toHex_inj in E. congruence.
  - unfold Memory.addMessage at 1. rewrite getChannelData_addMessage, decide_True by reflexivity.
    rewrite addToData_idempotent. unfold Memory.addMessage. simpl.
    now rewrite insert_insert_eq.
Qed.

(** ** Parents come first *)

Lemma computeHeight_above parents parent :
  parent ∈ parents -> (Message.height parent < Channel.computeHeight parents)%Z.
Proof.
  unfold Channel.computeHeight. generalize 0%Z.
  induction parents as [|first rest IH]; intros acc Hin; [inversion Hin|].
  simpl. apply elem_of_cons in Hin as [->|Hin]; [|now apply IH].
  pose proof (computeHeight_lower rest (Z.max acc (Message.height first + 1))). lia.
Qed.

Lemma addToData_parentsBelow data message :
  parentsBelow data ->
  (forall parent, parent ∈ Message.parents message ->
     exists held,
       Memory.messageByHash data !! toHex parent = Some held /\
       (Message.height held < Message.height message)%Z) ->
  parentsBelow (Memory.addToData data message).
Proof.
  intros Hdata Hnew. unfold Memory.addToData.
  case_bool_decide as Hdup; [assumption|].
  intros key m parent Hm Hin. simpl in *.
  assert (Hold : forall parent held,
            Memory.messageByHash data !! toHex parent = Some held ->
            <[toHex (Message.hash message) := message]> (Memory.messageByHash data)
              !! toHex parent = Some held).
  { intros p held Hp. rewrite lookup_insert_ne; [assumption|].
    intros E. apply Hdup. rewrite E. eauto. }
  destruct (decide (toHex (Message.hash message) = key)) as [<-|Hne].
  - rewrite lookup_insert_eq in Hm. injection Hm as <-.
    destruct (Hnew parent Hin) as (held & Hp & Hh). eauto.
  - rewrite lookup_insert_ne in Hm by assumption.
    destruct (Hdata key m parent Hm Hin) as (held & Hp & Hh). eauto.
Qed.

Lemma parents_below data offset message parent :
  Indexed data ->
  StronglySorted precedes (Memory.messages data) ->
  parentsBelow data ->
  Memory.messages data !! offset = Some message ->
  parent ∈ Message.parents message ->
  exists below found,
    below < offset /\
    Memory.messages data !! below = Some found /\
    Message.hash found = parent /\
    (Message.height found < Message.height message)%Z.
Proof.
  intros [Hm Hb Hd] Hs Hbelow Hmessage Hin.
  assert (Hel : message ∈ Memory.messages data)
    by (eapply list_elem_of_lookup_2; eassumption).
  destruct (Hbelow _ _ _ (Hm _ Hel) Hin) as (found & Hfound & Hh).
  destruct (Hb _ _ Hfound) as [Hin' Hkey]. apply toHex_inj in Hkey.
  apply list_elem_of_lookup_1 in Hin' as [below Hbelow'].
  exists below, found. split; [|auto].
  destruct (Nat.lt_trichotomy below offset) as [Hlt|[->|Hgt]]; [assumption| |].
  - rewrite Hmessage in Hbelow'. injection Hbelow' as ->. lia.
  - pose proof (StronglySorted_lookup _ _ _ _ _ _ Hs Hgt Hmessage Hbelow') as [?|[? _]]; lia.
Qed.

Section Order.
Context {sodium : Sodium} {proto : Proto} {getters : Message.Getters}.

Lemma getMessages_lookup channel storage hashes parents parent :
  Channel.getMessages channel storage hashes = map Some parents ->
  parent ∈ hashes ->
  exists held,
    held ∈ parents /\
    Memory.messageByHash (Memory.getChannelData storage (ChannelCore.id channel))
      !! toHex parent = Some held.
Proof.
  unfold Channel.getMessages, StorageCache.getMessages, Memory.getMessages, Memory.getMessage.
  revert parents. induction hashes as [|hash hashes IH]; intros parents Hget Hin;
    [inversion Hin|].
  destruct parents as [|first rest]; [discriminate|]. simpl in Hget.
  injection Hget as Hfirst Hrest.
  apply elem_of_cons in Hin as [->|Hin].
  - exists first. split; [left|assumption].
  - destruct (IH rest Hrest Hin) as (held & Hel & Hs). exists held. split; [now right|assumption].
Qed.

Lemma Reachable_stored channel storage :
  Reachable channel storage -> exists added, storage = stored added.
Proof.
  induction 1 as [|storage clock message _ [added ->]
                  |storage rnd body identity timestamp _ [added ->]].
  - now exists [].
  - destruct (receive_cases channel (stored added) clock message)
      as [[_ H]|[[_ (e & _ & H)]|[_ (decrypted & _ & H)]]]; rewrite H; simpl.
    + now exists added.
    + now exists added.
    + exists (added ++ [decrypted]). now rewrite stored_snoc.
  - unfold Channel.post. destruct (Channel.postMessage _ _ _ _ _ _) as [message|e]; simpl.
    + exists (added ++ [message]). now rewrite stored_snoc.
    + now exists added.
Qed.

Lemma Reachable_parentsBelow channel storage :
  Reachable channel storage ->
  parentsBelow (Memory.getChannelData storage (ChannelCore.id channel)).
Proof.
  induction 1 as [|storage clock message Hreach IH
                  |storage rnd body identity timestamp Hreach IH].
  - unfold Memory.getChannelData. simpl. rewrite lookup_empty. simpl.
    intros key m parent Hm. simpl in Hm. rewrite lookup_empty in Hm. discriminate.
  - destruct (receive_cases channel storage clock message)
      as [[_ H]|[[_ (e & _ & H)]|[_ (decrypted & Hchecks & H)]]];
      rewrite H; simpl; try assumption.
    apply receiveChecks_Ok in Hchecks as [parents Hacc].
    unfold StorageCache.addMessage. rewrite getChannelData_addMessage.
    case_decide as Hid; [|assumption].
    apply toHex_inj in Hid. rewrite Hid.
    apply addToData_parentsBelow; [assumption|]. intros parent Hin.
    destruct (getMessages_lookup _ _ _ _ _ (accepted_parents _ _ _ _ _ _ Hacc) Hin)
      as (held & Hel & Hs).
    exists held. split; [assumption|].
    rewrite (accepted_height _ _ _ _ _ _ Hacc). now apply computeHeight_above.
  - unfold Channel.post.
    destruct (Channel.postMessage _ _ _ _ _ _) as [message|e] eqn:Hpost; simpl;
      [|assumption].
    apply postMessage_Ok in Hpost as (leaves & Hleaves & _ & Hp & Hh & _ & _ & Hid).
    unfold StorageCache.addMessage. rewrite getChannelData_addMessage, Hid.
    rewrite decide_True by reflexivity.
    apply addToData_parentsBelow; [assumption|]. intros parent Hin.
    rewrite Hp in Hin. apply list_elem_of_fmap in Hin as (leaf & -> & Hin).
    exists leaf. split.
    + destruct (Reachable_Consistent channel storage Hreach) as (Hc & _ & _).
      apply (getLeaves_stored channel storage leaves (consistent_keys _ Hc) Hleaves).
      now apply filterParents_elem in Hin.
    + rewrite Hh. now apply computeHeight_above.
Qed.

(** The linear order extends the DAG: in every storage reached by [receive]
    and [post], each parent of the message at an offset is stored at a lower
    offset, with a lower height. *)
Theorem parents_before_children channel storage offset message parent :
  Reachable channel storage ->
  Memory.getMessageAtOffset storage (ChannelCore.id channel) offset = Some message ->
  parent ∈ Message.parents message ->
  exists below found,
    below < offset /\
    Memory.getMessageAtOffset storage (ChannelCore.id channel) below = Some found /\
    Message.hash found = parent /\
    (Message.height found < Message.height message)%Z.
Proof.
  intros Hreach Hmessage Hin.
  pose proof (Reachable_parentsBelow channel storage Hreach) as Hbelow.
  destruct (Reachable_stored channel storage Hreach) as [added ->].
  destruct (stored_Indexed added (ChannelCore.id channel)) as [Hindexed Hsorted].
  unfold Memory.getMessageAtOffset in *.
  eapply parents_below; eassumption.
Qed.

End Order.

(** ** Queries of the storage *)

Lemma findIndex_Some {A} (p : A -> bool) (l : list A) (i : nat) :
  findIndex p l = Some i <->
  (exists x, l !! i = Some x /\ p x = true) /\
  (forall j y, j < i -> l !! j = Some y -> p y = false).
Proof.
  revert i. induction l as [|x l IH]; intros i; simpl.
  - split; [discriminate|]. intros [(y & Hy & _) _]. rewrite lookup_nil in Hy. discriminate.
  - destruct (p x) eqn:Hx.
    + split.
      * intros [= <-]. split; [eauto|]. intros j y Hj. lia.
      * intros [(y & Hy & Hpy) Hfirst]. destruct i as [|i]; [reflexivity|].
        specialize (Hfirst 0 x ltac:(lia) eq_refl). congruence.
    + destruct (findIndex p l) as [k|]; simpl.
      * split.
        -- intros [= <-]. destruct (proj1 (IH k) eq_refl) as [Hfound Hfirst].
           split; [assumption|].
           intros [|j] y Hj Hy; simpl in Hy; [congruence|]. eapply Hfirst; [|eassumption]. lia.
        -- intros [(y & Hy & Hpy) Hfirst]. destruct i as [|i]; simpl in Hy; [congruence|].
           assert (H : Some k = Some i); [|congruence]. apply IH. split; [eauto|].
           intros j z Hj Hz. apply (Hfirst (S j) z); [lia|assumption].
      * split; [discriminate|].
        intros [(y & Hy & Hpy) Hfirst]. destruct i as [|i]; simpl in Hy; [congruence|].
        assert (H : None = Some i); [|discriminate]. apply IH. split; [eauto|].
        intros j z Hj Hz. apply (Hfirst (S j) z); [lia|assumption].
Qed.

Lemma findIndex_None {A} (p : A -> bool) (l : list A) :
  findIndex p l = None <-> forall x, x ∈ l -> p x = false.
Proof.
  induction l as [|x l IH]; simpl.
  - split; [|reflexivity]. intros _ x H. inversion H.
  - destruct (p x) eqn:Hx.
    + split; [discriminate|]. intros H. specialize (H x (list_elem_of_here _ _)). congruence.
    + destruct (findIndex p l); simpl.
      * split; [discriminate|]. intros H.
        assert (Some n = None); [|discriminate]. apply IH. intros y Hy. apply H. now right.
      * split; [|reflexivity]. intros _ y Hy. apply elem_of_cons in Hy as [->|Hy]; [assumption|].
        now apply IH.
Qed.

Lemma slice_nat {A} (start stop : nat) (l : list A) :
  start <= length l -> stop <= length l ->
  slice (Z.of_nat start) (Z.of_nat stop) l = take (stop - start) (drop start l).
Proof.
  intros Hstart Hstop. unfold slice, sliceIndex.
  destruct (Z.ltb_spec (Z.of_nat start) 0); [lia|].
  destruct (Z.ltb_spec (Z.of_nat stop) 0); [lia|].
  rewrite !Nat2Z.id, !Nat.min_l by assumption. reflexivity.
Qed.

Lemma findIndex_hash (messages : list Message.t) (offset : nat) (message : Message.t) :
  NoDup (map Message.hash messages) ->
  messages !! offset = Some message ->
  findIndex (Memory.atCursor (Memory.AtHash (Message.hash message))) messages = Some offset.
Proof.
  intros Hd Hm. apply findIndex_Some. split.
  - exists message. split; [assumption|]. simpl. now apply Buffer_equals_eq.
  - intros j y Hj Hy. simpl. destruct (Buffer_equals _ _) eqn:He; [|reflexivity].
    apply Buffer_equals_eq in He.
    assert (j = offset); [|lia].
    eapply NoDup_lookup; [exact Hd| |]; rewrite list_lookup_fmap.
    + rewrite Hy. reflexivity.
    + rewrite Hm. simpl. now rewrite He.
Qed.


Lemma slice_length {A} (start stop : Z) (l : list A) :
  (0 <= start)%Z -> (0 <= stop)%Z ->
  Z.of_nat (length (slice start stop l)) = Z.max 0 (Z.min stop (Z.of_nat (length l)) - start).
Proof.
  intros Hstart Hstop. unfold slice, sliceIndex.
  destruct (Z.ltb_spec start 0); [lia|]. destruct (Z.ltb_spec stop 0); [lia|].
  rewrite length_take, length_drop. lia.
Qed.


Lemma query_forward_at (storage : Memory.t) (channelId : Buffer) (cursor : Memory.Cursor)
    (offset : nat) (message : Message.t) (limit : Z) :
  let messages := Memory.messages (Memory.getChannelData storage channelId) in
  findIndex (Memory.atCursor cursor) messages = Some offset ->
  messages !! offset = Some message ->
  (0 < limit)%Z ->
  exists page,
    Memory.query storage channelId cursor false limit = Ok page /\
    (forall k,
       Memory.found page !! k =
       if (Z.of_nat k <? limit)%Z then messages !! (offset + k) else None) /\
    Memory.forwardHash page = (Message.hash <$> messages !! (offset + Z.to_nat limit)) /\
    Memory.backwardHash page
    = if (offset =? 0)%nat then None else Some (Message.hash message).
Proof.
  intros messages Hindex Hm Hlimit. unfold Memory.query. fold messages. rewrite Hindex.
  pose proof (lookup_lt_Some _ _ _ Hm) as Hlt.
  set (stop := Nat.min (length messages) (offset + Z.to_nat limit)).
  replace (Z.min (Z.of_nat (length messages)) (Z.of_nat offset + limit))
    with (Z.of_nat stop) by (unfold stop; lia).
  rewrite slice_nat by (unfold stop; lia).
  assert (Hfirst : take (stop - offset) (drop offset messages) !! 0 = Some message).
  { rewrite lookup_take_lt by (unfold stop; lia). rewrite lookup_drop.
    now rewrite Nat.add_0_r. }
  assert (Hback : (if (Z.of_nat offset =? 0)%Z then Ok None
                   else Memory.hashOf (take (stop - offset) (drop offset messages) !! 0))
                  = Ok (if (offset =? 0)%nat then None else Some (Message.hash message))).
  { rewrite Hfirst. destruct offset; reflexivity. }
  rewrite Hback. simpl.
  assert (Hforward : (if (Z.of_nat stop =? Z.of_nat (length messages))%Z then Ok None
                      else Memory.hashOf (at_index messages (Z.of_nat stop)))
                     = Ok (Message.hash <$> messages !! (offset + Z.to_nat limit))).
  { destruct (Z.eqb_spec (Z.of_nat stop) (Z.of_nat (length messages))) as [He|Hne].
    - rewrite lookup_ge_None_2 by (unfold stop in He; lia). reflexivity.
    - unfold at_index. destruct (Z.ltb_spec (Z.of_nat stop) 0); [lia|].
      rewrite Nat2Z.id. replace stop with (offset + Z.to_nat limit) by (unfold stop in *; lia).
      destruct (messages !! (offset + Z.to_nat limit)) eqn:Hnext; [reflexivity|].
      apply lookup_ge_None in Hnext. unfold stop in Hne. lia. }
  rewrite Hforward. simpl. eexists. split; [reflexivity|]. simpl.
  split; [|split; reflexivity].
  intros k. destruct (Z.ltb_spec (Z.of_nat k) limit) as [Hk|Hk].
  - destruct (decide (k < stop - offset)) as [Hin|Hout].
    + rewrite lookup_take_lt by assumption. now rewrite lookup_drop.
    + rewrite lookup_take_ge by lia. symmetry. apply lookup_ge_None. unfold stop in Hout. lia.
  - apply lookup_take_ge. unfold stop. lia.
Qed.

(** A page forward: from the message under the cursor, [limit] messages of
    the linear order or what is left of it; [forwardHash] is the hash of
    the message after the page, and [backwardHash] that of the cursor unless
    it is the first message. *)
Theorem query_forward (added : list Message.t) (channelId : Buffer) (offset : nat)
    (message : Message.t) (limit : Z) :
  let storage := stored added in
  Memory.getMessageAtOffset storage channelId offset = Some message ->
  (0 < limit)%Z ->
  exists page,
    Memory.query storage channelId (Memory.AtHash (Message.hash message)) false limit
    = Ok page /\
    (forall k,
       Memory.found page !! k =
       if (Z.of_nat k <? limit)%Z
       then Memory.getMessageAtOffset storage channelId (offset + k) else None) /\
    Memory.forwardHash page
    = (Message.hash <$>
       Memory.getMessageAtOffset storage channelId (offset + Z.to_nat limit)) /\
    Memory.backwardHash page
    = if (offset =? 0)%nat then None else Some (Message.hash message).
Proof.
  intros storage Hm Hlimit.
  destruct (stored_Indexed added channelId) as [[_ _ Hd] _]. fold storage in Hd.
  unfold Memory.getMessageAtOffset in *.
  apply query_forward_at; [|assumption|assumption].
  now apply findIndex_hash.
Qed.

(** A page backward: the [limit] messages before the message under the
    cursor, or all of them when there are fewer; [forwardHash] is the hash
    under the cursor, and [backwardHash] that of the first message of the
    page unless the page starts the linear order. *)
Theorem query_backward (added : list Message.t) (channelId : Buffer) (offset : nat)
    (message : Message.t) (limit : Z) :
  let storage := stored added in
  Memory.getMessageAtOffset storage channelId offset = Some message ->
  (0 < limit)%Z ->
  let start := (offset - Z.to_nat limit)%nat in
  exists page,
    Memory.query storage channelId (Memory.AtHash (Message.hash message)) true limit
    = Ok page /\
    (forall k,
       Memory.found page !! k =
       if (start + k <? offset)%nat
       then Memory.getMessageAtOffset storage channelId (start + k) else None) /\
    Memory.forwardHash page = Some (Message.hash message) /\
    Memory.backwardHash page
    = if (start =? 0)%nat then None
      else Message.hash <$> Memory.getMessageAtOffset storage channelId start.
Proof.
  intros storage Hm Hlimit start.
  destruct (stored_Indexed added channelId) as [[_ _ Hd] _]. fold storage in Hd.
  unfold Memory.getMessageAtOffset in *. unfold Memory.query.
  set (messages := Memory.messages (Memory.getChannelData storage channelId)) in *.
  rewrite (findIndex_hash messages offset message Hd Hm).
  pose proof (lookup_lt_Some _ _ _ Hm) as Hlt.
  replace (Z.max 0 (Z.of_nat offset - limit)) with (Z.of_nat start) by (unfold start; lia).
  rewrite slice_nat by (unfold start; lia).
  assert (Hback : (if (Z.of_nat start =? 0)%Z then Ok None
                   else Memory.hashOf (take (offset - start) (drop start messages) !! 0))
                  = Ok (if (start =? 0)%nat then None
                        else Message.hash <$> messages !! start)).
  { destruct (Z.eqb_spec (Z.of_nat start) 0) as [He|Hne].
    - destruct start; [reflexivity|lia].
    - destruct (Nat.eqb_spec start 0) as [He|_]; [lia|].
      rewrite lookup_take_lt by (unfold start in *; lia).
      rewrite lookup_drop, Nat.add_0_r.
      destruct (messages !! start) eqn:Hs; [reflexivity|].
      apply lookup_ge_None in Hs. unfold start in *. lia. }
  rewrite Hback. simpl.
  destruct (Z.eqb_spec (Z.of_nat offset) (Z.of_nat (length messages))) as [He|_]; [lia|].
  unfold at_index. destruct (Z.ltb_spec (Z.of_nat offset) 0); [lia|].
  rewrite Nat2Z.id, Hm. simpl. eexists. split; [reflexivity|]. simpl.
  split; [|split; reflexivity].
  intros k. destruct (Nat.ltb_spec (start + k) offset) as [Hk|Hk].
  - rewrite lookup_take_lt by lia. now rewrite lookup_drop.
  - apply lookup_take_ge. lia.
Qed.


(** The edges of [query]: a hash that is not stored gets the empty answer;
    a limit of 0 or less ends in a TypeError, except that a limit of 0 on
    the first message of the order gets the empty page. *)
Theorem query_edges (added : list Message.t) (channelId : Buffer) (isBackward : bool)
    (limit : Z) :
  let storage := stored added in
  (forall hash,
     Memory.hasMessage storage channelId hash = false ->
     Memory.query storage channelId (Memory.AtHash hash) isBackward limit
     = Ok {| Memory.found := []; Memory.forwardHash := None; Memory.backwardHash := None |}) /\
  (forall offset message,
     Memory.getMessageAtOffset storage channelId offset = Some message ->
     (limit <= 0)%Z ->
     (0 < offset)%nat \/ (limit < 0)%Z ->
     Memory.query storage channelId (Memory.AtHash (Message.hash message)) isBackward limit
     = Throw (TypeError "Cannot read property 'hash' of undefined")) /\
  (forall message,
     Memory.getMessageAtOffset storage channelId 0 = Some message ->
     limit = 0%Z ->
     Memory.query storage channelId (Memory.AtHash (Message.hash message)) isBackward limit
     = Ok {| Memory.found := []; Memory.forwardHash := Some (Message.hash message);
             Memory.backwardHash := None |}).
Proof.
  intros storage.
  destruct (stored_Indexed added channelId) as [[Hmem _ Hd] _]. fold storage in Hmem, Hd.
  unfold Memory.getMessageAtOffset, Memory.hasMessage, Memory.query.
  set (messages := Memory.messages (Memory.getChannelData storage channelId)) in *.
  split; [|split].
  - intros hash Hno. apply bool_decide_eq_false in Hno.
    assert (Hnone : findIndex (Memory.atCursor (Memory.AtHash hash)) messages = None).
    { apply findIndex_None. intros m Hin. simpl.
      destruct (Buffer_equals _ _) eqn:He; [|reflexivity].
      apply Buffer_equals_eq in He. subst hash. exfalso. apply Hno.
      rewrite (Hmem m Hin). eauto. }
    now rewrite Hnone.
  - intros offset message Hm Hlimit Hedge.
    rewrite (findIndex_hash messages offset message Hd Hm).
    pose proof (lookup_lt_Some _ _ _ Hm) as Hlt.
    destruct isBackward.
    + (* start = offset - limit >= offset = stop *)
      assert (Hempty : slice (Z.max 0 (Z.of_nat offset - limit)) (Z.of_nat offset) messages = []).
      { unfold slice, sliceIndex.
        destruct (Z.ltb_spec (Z.max 0 (Z.of_nat offset - limit)) 0); [lia|].
        destruct (Z.ltb_spec (Z.of_nat offset) 0); [lia|].
        apply length_zero_iff_nil. rewrite length_take. lia. }
      rewrite Hempty.
      destruct (Z.eqb_spec (Z.max 0 (Z.of_nat offset - limit)) 0); [lia|]. reflexivity.
    + assert (Hempty : ((0 <= Z.of_nat offset + limit)%Z /\
                        slice (Z.of_nat offset)
                          (Z.min (Z.of_nat (length messages)) (Z.of_nat offset + limit))
                          messages = []) \/
                       (Z.of_nat offset + limit < 0)%Z).
      { destruct (Z.ltb_spec (Z.of_nat offset + limit) 0); [now right|left].
        split; [assumption|].
        unfold slice, sliceIndex.
        destruct (Z.ltb_spec (Z.of_nat offset) 0); [lia|].
        destruct (Z.ltb_spec (Z.min (Z.of_nat (length messages)) (Z.of_nat offset + limit)) 0);
          [lia|].
        apply length_zero_iff_nil. rewrite length_take. lia. }
      destruct Hempty as [[Hpos Hempty]|Hneg].
      * rewrite Hempty.
        destruct (Z.eqb_spec (Z.of_nat offset) 0); [lia|]. reflexivity.
      * match goal with
        | |- context [mbind _ ?b] => 
            assert (Hback : (exists x, b = Ok x) \/
                            b = Throw (TypeError "Cannot read property 'hash' of undefined"))
        end.
        { destruct (Z.eqb_spec (Z.of_nat offset) 0); [eauto|].
          destruct (slice _ _ messages !! 0); simpl; eauto. }
        destruct Hback as [[x ->]| ->]; simpl; [|reflexivity].
        destruct (Z.eqb_spec (Z.min (Z.of_nat (length messages)) (Z.of_nat offset + limit))
                    (Z.of_nat (length messages))); [lia|].
        unfold at_index.
        destruct (Z.ltb_spec (Z.min (Z.of_nat (length messages)) (Z.of_nat offset + limit)) 0);
          [reflexivity|lia].
  - intros message Hm ->.
    rewrite (findIndex_hash messages 0 message Hd Hm).
    pose proof (lookup_lt_Some _ _ _ Hm) as Hlt.
    assert (Hslice : slice 0 0 messages = []) by (unfold slice, sliceIndex; reflexivity).
    assert (Hforward : (if (0 =? Z.of_nat (length messages))%Z then Ok None
                        else Memory.hashOf (at_index messages 0))
                       = Ok (Some (Message.hash message))).
    { destruct (Z.eqb_spec 0 (Z.of_nat (length messages))); [lia|].
      unfold at_index. change (0 <? 0)%Z with false. cbv iota.
      change (Z.to_nat 0) with 0. rewrite Hm. reflexivity. }
    change (Z.of_nat 0) with 0%Z.
    destruct isBackward.
    + change (Z.max 0 (0 - 0)) with 0%Z. rewrite Hslice, Hforward. reflexivity.
    + change (0 + 0)%Z with 0%Z.
      replace (Z.min (Z.of_nat (length messages)) 0) with 0%Z by lia.
      rewrite Hslice, Hforward. reflexivity.
Qed.

(** A height cursor stands for the first message of that height in the
    linear order; a height that no stored message has gets the empty
    answer. *)
Theorem query_height (added : list Message.t) (channelId : Buffer) (isBackward : bool)
    (limit : Z) :
  let storage := stored added in
  (forall offset message,
     Memory.getMessageAtOffset storage channelId offset = Some message ->
     (forall earlier other,
        earlier < offset ->
        Memory.getMessageAtOffset storage channelId earlier = Some other ->
        Message.height other <> Message.height message) ->
     Memory.query storage channelId (Memory.AtHeight (Message.height message)) isBackward limit
     = Memory.query storage channelId (Memory.AtHash (Message.hash message)) isBackward limit) /\
  (forall height,
     (forall offset message,
        Memory.getMessageAtOffset storage channelId offset = Some message ->
        Message.height message <> height) ->
     Memory.query storage channelId (Memory.AtHeight height) isBackward limit
     = Ok {| Memory.found := []; Memory.forwardHash := None; Memory.backwardHash := None |}).
Proof.
  intros storage.
  destruct (stored_Indexed added channelId) as [[_ _ Hd] _]. fold storage in Hd.
  unfold Memory.getMessageAtOffset, Memory.query.
  set (messages := Memory.messages (Memory.getChannelData storage channelId)) in *.
  split.
  - intros offset message Hm Hfirst.
    rewrite (findIndex_hash messages offset message Hd Hm).
    assert (Hfound : findIndex (Memory.atCursor (Memory.AtHeight (Message.height message)))
                       messages = Some offset).
    { apply findIndex_Some. split.
      - exists message. split; [assumption|]. simpl. apply Z.eqb_refl.
      - intros j other Hj Hother. simpl. apply Z.eqb_neq. eapply Hfirst; eassumption. }
    now rewrite Hfound.
  - intros height Hnone.
    assert (Hfound : findIndex (Memory.atCursor (Memory.AtHeight height)) messages = None).
    { apply findIndex_None. intros m Hin. apply list_elem_of_lookup_1 in Hin as [i Hi].
      simpl. apply Z.eqb_neq. eapply Hnone. eassumption. }
    now rewrite Hfound.
Qed.

Lemma query_found_bounded (storage : Memory.t) (channelId : Buffer) (cursor : Memory.Cursor)
    (isBackward : bool) (limit : Z) (page : Memory.QueryResult) :
  Memory.query storage channelId cursor isBackward limit = Ok page ->
  (Z.of_nat (length (Memory.found page)) <= Z.max 0 limit)%Z /\
  (Z.of_nat (length (Memory.found page))
   <= Z.of_nat (Memory.getMessageCount storage channelId))%Z.
Proof.
  unfold Memory.query, Memory.getMessageCount.
  set (messages := Memory.messages (Memory.getChannelData storage channelId)).
  destruct (findIndex _ messages) as [index|] eqn:Hindex.
  2:{ intros [= <-]. simpl. lia. }
  assert (Hlt : index < length messages).
  { apply findIndex_Some in Hindex as [(x & Hx & _) _]. eapply lookup_lt_Some. eassumption. }
  destruct isBackward.
  - destruct (if (_ =? 0)%Z then _ else _) as [backwardHash|]; simpl; [|discriminate].
    destruct (if (_ =? _)%Z then _ else _) as [forwardHash|]; simpl; [|discriminate].
    intros [= <-]. simpl. rewrite slice_length by lia. lia.
  - destruct (if (_ =? 0)%Z then _ else _) as [backwardHash|]; simpl; [|discriminate].
    destruct (Z.ltb_spec (Z.of_nat index + limit) 0) as [Hneg|Hpos].
    + destruct (Z.eqb_spec (Z.min (Z.of_nat (length messages)) (Z.of_nat index + limit))
                  (Z.of_nat (length messages))); [lia|].
      unfold at_index.
      destruct (Z.ltb_spec (Z.min (Z.of_nat (length messages)) (Z.of_nat index + limit)) 0);
        [discriminate|lia].
    + destruct (if (_ =? _)%Z then _ else _) as [forwardHash|]; simpl; [|discriminate].
      intros [= <-]. simpl. rewrite slice_length by lia. lia.
Qed.

(** ** The partial DAG of an answer *)

Section PartialDAG.
Context {sodium : Sodium} {proto : Proto} {getters : Message.Getters}.
Variables (channel : ChannelCore.t) (storage : Memory.t).


(** What the inner loop of [computePartialDAG] leaves. *)
Lemma scanParent_fold unknown local parents external missing external' missing' :
  foldl (Channel.scanParent channel storage unknown local) (external, missing) parents
  = (external', missing') ->
  NoDup external ->
  NoDup external' /\
  missing <= missing' /\
  (forall hex, hex ∈ external' <->
     hex ∈ external \/
     exists parent, parent ∈ parents /\ hex = toHex parent /\
       (hex ∉ unknown) /\ (hex ∉ local) /\ StorageCache.hasMessage channel storage parent = false) /\
  (missing' = missing ->
   forall parent, parent ∈ parents ->
     (toHex parent ∉ unknown) /\ (toHex parent ∈ local \/ StorageCache.hasMessage channel storage parent = true)).
Proof.
  revert external missing. induction parents as [|parent parents IH];
    intros external missing Hfold Hd.
  - injection Hfold as <- <-. split; [assumption|]. split; [lia|]. split.
    + intros hex. split; [auto|]. intros [?|(p & Hp & _)]; [assumption|inversion Hp].
    + intros _ p Hp. inversion Hp.
  - cbn [foldl] in Hfold.
    destruct (Channel.scanParent channel storage unknown local (external, missing) parent)
      as [external1 missing1] eqn:Hstep.
    unfold Channel.scanParent in Hstep.
    case_bool_decide as Hunknown.
    { injection Hstep as <- <-.
      destruct (IH _ _ Hfold Hd) as (Hd' & Hle & Hiff & Hzero).
      split; [assumption|]. split; [lia|]. split; [|intros; lia].
      intros hex. rewrite Hiff. split.
      - intros [?|(p & Hp & Hrest)]; [auto|]. right. exists p. split; [now right|assumption].
      - intros [?|(p & Hp & -> & Hrest)]; [auto|].
        apply elem_of_cons in Hp as [->|Hp]; [tauto|]. right. exists p. tauto. }
    case_bool_decide as Hlocal.
    { injection Hstep as <- <-.
      destruct (IH _ _ Hfold Hd) as (Hd' & Hle & Hiff & Hzero).
      split; [assumption|]. split; [lia|]. split.
      - intros hex. rewrite Hiff. split.
        + intros [?|(p & Hp & Hrest)]; [auto|]. right. exists p. split; [now right|assumption].
        + intros [?|(p & Hp & -> & Hrest)]; [auto|].
          apply elem_of_cons in Hp as [->|Hp]; [tauto|]. right. exists p. tauto.
      - intros He p Hp. apply elem_of_cons in Hp as [->|Hp]; [auto|]. now apply Hzero. }
    destruct (StorageCache.hasMessage channel storage parent) eqn:Hpresent.
    { injection Hstep as <- <-.
      destruct (IH _ _ Hfold Hd) as (Hd' & Hle & Hiff & Hzero).
      split; [assumption|]. split; [lia|]. split.
      - intros hex. rewrite Hiff. split.
        + intros [?|(p & Hp & Hrest)]; [auto|]. right. exists p. split; [now right|assumption].
        + intros [?|(p & Hp & -> & Hu & Hl & Hs)]; [auto|].
          apply elem_of_cons in Hp as [->|Hp]; [congruence|]. right. exists p. tauto.
      - intros He p Hp. apply elem_of_cons in Hp as [->|Hp]; [auto|]. now apply Hzero. }
    injection Hstep as <- <-.
    destruct (IH _ _ Hfold (Set_add_NoDup _ _ Hd)) as (Hd' & Hle & Hiff & Hzero).
    split; [assumption|]. split; [lia|]. split; [|intros; lia].
    intros hex. rewrite Hiff, Set_add_elem. split.
    + intros [[->|?]|(p & Hp & Hrest)]; [|auto|].
      * right. exists parent. split; [left|]. auto.
      * right. exists p. split; [now right|assumption].
    + intros [?|(p & Hp & -> & Hrest)]; [auto|].
      apply elem_of_cons in Hp as [->|Hp]; [auto|]. right. exists p. tauto.
Qed.

Lemma Scanned_nil :
  Scanned channel storage [] {| Channel.d_external := []; Channel.d_local := []; Channel.d_known := [];
                Channel.d_unknown := [] |}.
Proof.
  split; simpl.
  - intros hex. split; [intros H; inversion H|]. intros (a & H & _). inversion H.
  - auto.
  - intros a H. inversion H.
  - intros n h H. rewrite lookup_nil in H. discriminate.
  - constructor.
  - intros hex. split; [intros H; inversion H|].
    intros (i & a & p & H & _). rewrite lookup_nil in H. discriminate.
Qed.

Lemma Scanned_snoc processed state abbr :
  Scanned channel storage processed state ->
  Scanned channel storage (processed ++ [abbr]) (Channel.scanMessage channel storage state abbr).
Proof.
  intros [Hlocal Hunknown Hsorted Hknown Hdistinct Hexternal].
  unfold Channel.scanMessage.
  set (local := Memory.Set_add (toHex (QueryResponse.hash abbr)) (Channel.d_local state)).
  destruct (foldl _ _ _) as [external missing] eqn:Hfold.
  destruct (scanParent_fold _ _ _ _ _ _ _ Hfold Hdistinct) as (Hd' & _ & Hiff & Hzero).
  assert (Hlocal' : forall hex,
            hex ∈ local <->
            exists a, a ∈ processed ++ [abbr] /\ hex = toHex (QueryResponse.hash a)).
  { intros hex. unfold local. rewrite Set_add_elem, Hlocal. split.
    - intros [->|(a & Ha & ->)].
      + exists abbr. split; [|reflexivity]. apply elem_of_app. right. left.
      + exists a. split; [|reflexivity]. apply elem_of_app. now left.
    - intros (a & Ha & ->). apply elem_of_app in Ha as [Ha|Ha]; [eauto|].
      apply list_elem_of_singleton in Ha. subst a. now left. }
  assert (Hexternal' : forall hex,
            hex ∈ external <->
            exists i a parent,
              (processed ++ [abbr]) !! i = Some a /\ parent ∈ QueryResponse.parents a /\
              hex = toHex parent /\ StorageCache.hasMessage channel storage parent = false /\
              forall j other, j <= i -> (processed ++ [abbr]) !! j = Some other ->
                QueryResponse.hash other <> parent).
  { intros hex. rewrite Hiff, Hexternal. split.
    - intros [(i & a & p & Hi & Hp & -> & Hs & Hfresh)|(p & Hp & -> & Hu & Hl & Hs)].
      + pose proof (lookup_lt_Some _ _ _ Hi) as Hlt.
        exists i, a, p. rewrite lookup_app_l by assumption.
        repeat (split; [assumption|]). split; [reflexivity|]. split; [assumption|].
        intros j other Hj Hother. rewrite lookup_app_l in Hother by lia. eauto.
      + exists (length processed), abbr, p.
        rewrite list_lookup_middle by reflexivity.
        repeat (split; [reflexivity || assumption|]).
        intros j other Hj Hother E. apply Hl. apply Hlocal'.
        exists other. split; [|now rewrite E].
        eapply list_elem_of_lookup_2. eassumption.
    - intros (i & a & p & Hi & Hp & -> & Hs & Hfresh).
      destruct (decide (i < length processed)) as [Hlt|Hge].
      + left. rewrite lookup_app_l in Hi by assumption.
        exists i, a, p. repeat (split; [reflexivity || assumption|]).
        intros j other Hj Hother. apply (Hfresh j); [assumption|].
        rewrite lookup_app_l by lia. assumption.
      + assert (i = length processed).
        { apply lookup_lt_Some in Hi. rewrite length_app in Hi. simpl in Hi. lia. }
        subst i. rewrite list_lookup_middle in Hi by reflexivity. injection Hi as <-.
        right. exists p. split; [assumption|]. split; [reflexivity|].
        assert (Hnl : toHex p ∉ local).
        { intros Hin. apply Hlocal' in Hin as (other & Hother & E).
          apply toHex_inj in E. apply list_elem_of_lookup_1 in Hother as [j Hj].
          pose proof (lookup_lt_Some _ _ _ Hj) as Hlt.
          rewrite length_app in Hlt. simpl in Hlt.
          apply (Hfresh j other); [lia|assumption|congruence]. }
        split; [|split; assumption].
        intros Hin. apply Hnl. unfold local. apply Set_add_elem. right.
        now apply Hunknown. }
  destruct (Nat.eqb_spec missing 0) as [->|Hmissing].
  - specialize (Hzero eq_refl).
    assert (Hresolved : forall (parent : Buffer) (known' : list Buffer),
              parent ∈ QueryResponse.parents abbr ->
              (forall h, h ∈ Channel.d_known state -> h ∈ known') ->
              (StorageCache.hasMessage channel storage (QueryResponse.hash abbr) = false ->
               QueryResponse.hash abbr ∈ known') ->
              StorageCache.hasMessage channel storage parent = true \/ parent ∈ known').
    { intros p known' Hp Hsub Hself. destruct (Hzero p Hp) as [Hnu [Hl|Hs]]; [|now left].
      unfold local in Hl. apply Set_add_elem in Hl as [E|Hl].
      - apply toHex_inj in E. subst p.
        destruct (StorageCache.hasMessage channel storage (QueryResponse.hash abbr)) eqn:Hs; [now left|right; auto].
      - apply Hlocal in Hl as (a & Ha & E). apply toHex_inj in E. subst p.
        destruct (Hsorted a Ha) as [Hu|[Hs|Hk]]; [contradiction|now left|right; auto]. }
    split; simpl; try assumption.
    + intros hex Hin. unfold local. apply Set_add_elem. right. now apply Hunknown.
    + intros a Ha. apply elem_of_app in Ha as [Ha|Ha].
      * destruct (Hsorted a Ha) as [?|[?|Hk]]; [auto|auto|].
        right. right. destruct (StorageCache.hasMessage channel storage _); [assumption|]. apply elem_of_app. now left.
      * apply list_elem_of_singleton in Ha. subst a.
        destruct (StorageCache.hasMessage channel storage (QueryResponse.hash abbr)) eqn:Hs; [auto|].
        right. right. apply elem_of_app. right. left.
    + intros n hash Hn.
      destruct (StorageCache.hasMessage channel storage (QueryResponse.hash abbr)) eqn:Hs.
      * destruct (Hknown n hash Hn) as (Hns & a & Ha & Hh & Hps).
        split; [assumption|]. exists a. split; [apply elem_of_app; now left|].
        split; assumption.
      * destruct (decide (n < length (Channel.d_known state))) as [Hlt|Hge].
        -- rewrite lookup_app_l in Hn by assumption.
           destruct (Hknown n hash Hn) as (Hns & a & Ha & Hh & Hps).
           split; [assumption|]. exists a. split; [apply elem_of_app; now left|].
           split; [assumption|]. intros p Hp.
           rewrite take_app_le by lia. auto.
        -- assert (n = length (Channel.d_known state)).
           { apply lookup_lt_Some in Hn. rewrite length_app in Hn. simpl in Hn. lia. }
           subst n. rewrite list_lookup_middle in Hn by reflexivity. injection Hn as <-.
           split; [assumption|]. exists abbr. split; [apply elem_of_app; right; left|].
           split; [reflexivity|]. intros p Hp.
           rewrite take_ge by (rewrite length_app; simpl; lia).
           apply Hresolved; [assumption| |].
           ++ intros h Hh. apply elem_of_app. now left.
           ++ intros _. apply elem_of_app. right. left.
  - split; simpl; try assumption.
    + intros hex Hin. apply Set_add_elem in Hin as [->|Hin].
      * unfold local. apply Set_add_elem. now left.
      * unfold local. apply Set_add_elem. right. now apply Hunknown.
    + intros a Ha. apply elem_of_app in Ha as [Ha|Ha].
      * destruct (Hsorted a Ha) as [?|[?|Hk]]; [|auto|auto].
        left. apply Set_add_elem. now right.
      * apply list_elem_of_singleton in Ha. subst a. left. apply Set_add_elem. now left.
    + intros n hash Hn. destruct (Hknown n hash Hn) as (Hns & a & Ha & Hh & Hps).
      split; [assumption|]. exists a. split; [apply elem_of_app; now left|].
      split; assumption.
Qed.

Lemma Scanned_scanMessages abbreviatedMessages :
  Scanned channel storage abbreviatedMessages
    (Channel.scanMessages channel storage abbreviatedMessages).
Proof.
  unfold Channel.scanMessages.
  induction abbreviatedMessages as [|abbr processed IH] using rev_ind.
  - apply Scanned_nil.
  - rewrite foldl_app. simpl. now apply Scanned_snoc.
Qed.

Lemma scanParent_fold_resolved unknown local parents external missing :
  (forall parent, parent ∈ parents ->
     (toHex parent ∉ unknown) /\
     (toHex parent ∈ local \/ StorageCache.hasMessage channel storage parent = true)) ->
  foldl (Channel.scanParent channel storage unknown local) (external, missing) parents
  = (external, missing).
Proof.
  induction parents as [|parent parents IH]; intros Hresolved; [reflexivity|].
  cbn [foldl]. destruct (Hresolved parent (list_elem_of_here _ _)) as [Hu Hl].
  assert (Hstep : Channel.scanParent channel storage unknown local (external, missing) parent
                  = (external, missing)).
  { unfold Channel.scanParent. rewrite bool_decide_eq_false_2 by assumption.
    case_bool_decide; [reflexivity|]. destruct Hl as [?| ->]; [contradiction|reflexivity]. }
  rewrite Hstep. apply IH. intros p Hp. apply Hresolved. now right.
Qed.

(** The messages that [computePartialDAG] hands over to be fetched: none is
    stored, each is a message of the response, and each of its parents is
    stored or listed before it, unless it is that very message. *)
Theorem computePartialDAG_known (response : QueryResponse.t) (n : nat) (hash : Buffer) :
  let dag := Channel.computePartialDAG channel storage response in
  Channel.known dag !! n = Some hash ->
  StorageCache.hasMessage channel storage hash = false /\
  exists abbr,
    abbr ∈ QueryResponse.abbreviatedMessages response /\
    QueryResponse.hash abbr = hash /\
    forall parent, parent ∈ QueryResponse.parents abbr ->
      StorageCache.hasMessage channel storage parent = true \/
      parent ∈ take (S n) (Channel.known dag).
Proof.
  simpl. apply (scanned_known _ _ _ _ (Scanned_scanMessages _)).
Qed.

(** The external hashes of [computePartialDAG], each listed once: the
    parents named by a message of the response that are not stored and are
    not the hash of that message or of one before it in the response. *)
Theorem computePartialDAG_external (response : QueryResponse.t) :
  let dag := Channel.computePartialDAG channel storage response in
  NoDup (Channel.external dag) /\
  forall hash,
    hash ∈ Channel.external dag <->
    exists i abbr,
      QueryResponse.abbreviatedMessages response !! i = Some abbr /\
      hash ∈ QueryResponse.parents abbr /\
      StorageCache.hasMessage channel storage hash = false /\
      forall j other,
        j <= i -> QueryResponse.abbreviatedMessages response !! j = Some other ->
        QueryResponse.hash other <> hash.
Proof.
  simpl. pose proof (Scanned_scanMessages (QueryResponse.abbreviatedMessages response))
    as [_ _ _ _ Hd He].
  split.
  - apply NoDup_fmap_2_strong; [|assumption].
    intros x y Hx Hy E. apply He in Hx as (i & a & p & Hi & Hp & Hx & Hrest).
    apply He in Hy as (j & b & q & Hj & Hq & Hy & Hrest').
    subst x y. rewrite !fromHex_toHex in E. now rewrite E.
  - intros hash. rewrite list_elem_of_fmap. split.
    + intros (hex & -> & Hin). apply He in Hin as (i & a & p & Hi & Hp & -> & Hs & Hfresh).
      rewrite fromHex_toHex. eauto 10.
    + intros (i & a & Hi & Hp & Hs & Hfresh). exists (toHex hash).
      split; [now rewrite fromHex_toHex|]. apply He. eauto 10.
Qed.

Lemma scanMessages_closed (abbreviatedMessages : list QueryResponse.Abbreviated) :
  (forall i abbr parent,
     abbreviatedMessages !! i = Some abbr ->
     parent ∈ QueryResponse.parents abbr ->
     StorageCache.hasMessage channel storage parent = true \/
     exists j other,
       j <= i /\ abbreviatedMessages !! j = Some other /\ QueryResponse.hash other = parent) ->
  Channel.d_external (Channel.scanMessages channel storage abbreviatedMessages) = [] /\
  Channel.d_unknown (Channel.scanMessages channel storage abbreviatedMessages) = [] /\
  Channel.d_known (Channel.scanMessages channel storage abbreviatedMessages)
  = List.filter (fun hash => negb (StorageCache.hasMessage channel storage hash))
      (map QueryResponse.hash abbreviatedMessages).
Proof.
  induction abbreviatedMessages as [|abbr processed IH] using rev_ind; intros Hclosed;
    [now split|].
  pose proof (Scanned_scanMessages processed) as [Hlocal _ _ _ _ _].
  destruct IH as (He & Hu & Hk).
  { intros i a p Hi Hp.
    pose proof (lookup_lt_Some _ _ _ Hi) as Hlt.
    destruct (Hclosed i a p) as [?|(j & other & Hj & Hother & E)];
      [rewrite lookup_app_l by assumption; assumption|assumption|now left|].
    right. exists j, other. rewrite lookup_app_l in Hother by lia. auto. }
  unfold Channel.scanMessages in *. rewrite foldl_app. cbn [foldl].
  set (state := foldl (Channel.scanMessage channel storage) _ processed) in *.
  unfold Channel.scanMessage. rewrite scanParent_fold_resolved.
  - cbn [Nat.eqb]. rewrite map_app, List.filter_app. cbn [map List.filter].
    destruct (StorageCache.hasMessage channel storage (QueryResponse.hash abbr));
      cbn [negb Channel.d_external Channel.d_unknown Channel.d_known];
      rewrite ?app_nil_r; auto.
    rewrite Hk. auto.
  - intros p Hp. rewrite Hu. split; [apply not_elem_of_nil|].
    destruct (Hclosed (length processed) abbr p) as [?|(j & other & Hj & Hother & E)];
      [now rewrite list_lookup_middle|assumption|now right|].
    left. apply Set_add_elem.
    destruct (decide (j = length processed)) as [->|Hne].
    + rewrite list_lookup_middle in Hother by reflexivity. injection Hother as <-.
      left. now rewrite E.
    + right. apply Hlocal. exists other. split; [|now rewrite E].
      rewrite lookup_app_l in Hother by lia.
      eapply list_elem_of_lookup_2. eassumption.
Qed.

(** When every parent named in the response is stored or is the hash of a
    message up to there in the response, nothing is external and every
    message of the response that is not stored is handed over, in the order
    of the response. *)
Theorem computePartialDAG_closed (response : QueryResponse.t) :
  (forall i abbr parent,
     QueryResponse.abbreviatedMessages response !! i = Some abbr ->
     parent ∈ QueryResponse.parents abbr ->
     StorageCache.hasMessage channel storage parent = true \/
     exists j other,
       j <= i /\ QueryResponse.abbreviatedMessages response !! j = Some other /\
       QueryResponse.hash other = parent) ->
  Channel.computePartialDAG channel storage response
  = {| Channel.external := [];
       Channel.known :=
         List.filter (fun hash => negb (StorageCache.hasMessage channel storage hash))
           (map QueryResponse.hash (QueryResponse.abbreviatedMessages response)) |}.
Proof.
  intros Hclosed. unfold Channel.computePartialDAG.
  destruct (scanMessages_closed _ Hclosed) as (Hexternal & _ & Hknown).
  rewrite Hexternal, Hknown. reflexivity.
Qed.

End PartialDAG.

(** ** Queries of a channel *)

Lemma addToData_rootsAtZero data message :
  rootsAtZero data ->
  (Message.parents message = [] -> Message.height message = 0%Z) ->
  rootsAtZero (Memory.addToData data message).
Proof.
  intros Hdata Hnew. unfold Memory.addToData.
  case_bool_decide as Hdup; [assumption|].
  intros key m Hm. simpl in Hm.
  destruct (decide (toHex (Message.hash message) = key)) as [<-|Hne].
  - rewrite lookup_insert_eq in Hm. now injection Hm as <-.
  - rewrite lookup_insert_ne in Hm by assumption. now apply (Hdata key).
Qed.

Section ChannelQuery.
Context {sodium : Sodium} {proto : Proto} {getters : Message.Getters}.

Lemma Reachable_rootsAtZero channel storage :
  Reachable channel storage ->
  rootsAtZero (Memory.getChannelData storage (ChannelCore.id channel)).
Proof.
  induction 1 as [|storage clock message Hreach IH
                  |storage rnd body identity timestamp Hreach IH].
  - unfold Memory.getChannelData. simpl. rewrite lookup_empty. simpl.
    intros key m Hm. simpl in Hm. rewrite lookup_empty in Hm. discriminate.
  - destruct (receive_cases channel storage clock message)
      as [[_ H]|[[_ (e & _ & H)]|[_ (decrypted & Hchecks & H)]]];
      rewrite H; simpl; try assumption.
    apply receiveChecks_Ok in Hchecks as [parents Hacc].
    unfold StorageCache.addMessage. rewrite getChannelData_addMessage.
    case_decide as Hid; [|assumption].
    apply toHex_inj in Hid. rewrite Hid.
    apply addToData_rootsAtZero; [assumption|]. intros Hnone.
    pose proof (accepted_parents _ _ _ _ _ _ Hacc) as Hget. rewrite Hnone in Hget.
    destruct parents; [|discriminate].
    now rewrite (accepted_height _ _ _ _ _ _ Hacc).
  - unfold Channel.post.
    destruct (Channel.postMessage _ _ _ _ _ _) as [message|e] eqn:Hpost; simpl;
      [|assumption].
    apply postMessage_Ok in Hpost as (leaves & Hleaves & Hne & Hp & Hh & _ & _ & Hid).
    unfold StorageCache.addMessage. rewrite getChannelData_addMessage, Hid.
    rewrite decide_True by reflexivity.
    apply addToData_rootsAtZero; [assumption|]. intros Hnone.
    rewrite Hp in Hnone. apply fmap_nil_inv in Hnone. contradiction.
Qed.

Lemma minLeafHeight_fold (leaves : list Message.t) (acc : Z) :
  foldl (fun acc leave =>
           acc ← acc;
           match leave with
           | Some leave => Ok (Z.min acc (Message.height leave))
           | None => Throw (TypeError "Cannot read property 'height' of undefined")
           end) (Ok acc) (map Some leaves)
  = Ok (foldl (fun acc leave => Z.min acc (Message.height leave)) acc leaves).
Proof.
  revert acc. induction leaves as [|leaf leaves IH]; intros acc; [reflexivity|].
  simpl. apply IH.
Qed.

Lemma foldl_min_spec (leaves : list Message.t) (acc : Z) :
  let least := foldl (fun acc leave => Z.min acc (Message.height leave)) acc leaves in
  (least <= acc)%Z /\
  (forall leaf, leaf ∈ leaves -> (least <= Message.height leaf)%Z) /\
  (least = acc \/ exists leaf, leaf ∈ leaves /\ Message.height leaf = least).
Proof.
  revert acc. induction leaves as [|leaf leaves IH]; intros acc; simpl.
  - split; [lia|]. split; [|now left]. intros leaf H. inversion H.
  - destruct (IH (Z.min acc (Message.height leaf))) as (Hle & Hall & Hsome).
    split; [lia|]. split.
    + intros l Hl. apply elem_of_cons in Hl as [->|Hl]; [lia|now apply Hall].
    + destruct Hsome as [He|(l & Hl & He)].
      * destruct (Z.min_spec acc (Message.height leaf)) as [[_ Hm]|[_ Hm]].
        -- left. lia.
        -- right. exists leaf. split; [left|lia].
      * right. exists l. split; [now right|assumption].
Qed.

Lemma getMinLeafHeight_leaves channel storage (leaves : list Message.t) :
  Channel.getLeaves channel storage = map Some leaves ->
  Channel.getMinLeafHeight channel storage
  = Ok match leaves with
       | [] => 0%Z
       | _ :: _ =>
           foldl (fun acc leave => Z.min acc (Message.height leave))
             Channel.MAX_SAFE_INTEGER leaves
       end.
Proof.
  intros Hget. unfold Channel.getMinLeafHeight. rewrite Hget, length_map.
  destruct leaves as [|leaf leaves]; [reflexivity|].
  cbn [length Nat.eqb]. apply minLeafHeight_fold.
Qed.

(** On every storage that [receive] and [post] reach, [getMinLeafHeight]
    returns: 0 for a channel without messages, and otherwise a height that
    is not negative and not above that of any leaf returned by [getLeaves],
    that is of the first 128 leaves, the height of one of them unless all
    are above MAX_SAFE_INTEGER. *)
Theorem getMinLeafHeight_Reachable channel storage :
  Reachable channel storage ->
  exists least,
    Channel.getMinLeafHeight channel storage = Ok least /\
    (0 <= least <= Channel.MAX_SAFE_INTEGER)%Z /\
    (Channel.getMessageCount channel storage = 0 -> least = 0%Z) /\
    (forall leaf, Some leaf ∈ Channel.getLeaves channel storage ->
       (least <= Message.height leaf)%Z) /\
    (least = 0%Z \/ least = Channel.MAX_SAFE_INTEGER \/
     exists leaf, Some leaf ∈ Channel.getLeaves channel storage /\
                  Message.height leaf = least).
Proof.
  intros Hreach.
  destruct (Reachable_getLeaves channel storage Hreach) as (leaves & Hget & Hempty & Hheights).
  rewrite (getMinLeafHeight_leaves channel storage leaves Hget), Hget.
  eexists. split; [reflexivity|].
  destruct leaves as [|leaf leaves].
  - unfold Channel.MAX_SAFE_INTEGER.
    split; [lia|]. split; [reflexivity|]. split; [|now left].
    intros l Hl. inversion Hl.
  - destruct (foldl_min_spec (leaf :: leaves) Channel.MAX_SAFE_INTEGER) as (Hle & Hall & Hsome).
    set (least := foldl _ _ _) in *.
    assert (Hpos : (0 <= least)%Z).
    { destruct Hsome as [->|(l & Hl & <-)]; [unfold Channel.MAX_SAFE_INTEGER; lia|].
      rewrite Forall_forall in Hheights. now apply Hheights. }
    split; [lia|]. split.
    + intros Hcount. specialize (Hempty Hcount). discriminate.
    + split.
      * intros l Hl. apply Hall. apply list_elem_of_fmap in Hl as (l' & [= ->] & Hl'). assumption.
      * right. destruct Hsome as [->|(l & Hl & He)]; [now left|right].
        exists l. split; [now apply list_elem_of_fmap_2|assumption].
Qed.

(** The size of an answer.  The storage answers with [limit] messages at
    most, none when the limit is 0 or less, and never with more messages
    than it holds; the channel caps the limit at [maxQueryLimit], and
    refuses a cursor whose hash is not of 32 bytes with a BanError. *)
Theorem query_bounded channel storage (cursor : Memory.Cursor) (isBackward : bool)
    (limit : Z) :
  (forall page,
     Memory.query storage (ChannelCore.id channel) cursor isBackward limit = Ok page ->
     (Z.of_nat (length (Memory.found page)) <= Z.max 0 limit)%Z /\
     length (Memory.found page) <= Memory.getMessageCount storage (ChannelCore.id channel)) /\
  (forall hash,
     cursor = Memory.AtHash hash -> length hash <> HASH_SIZE ->
     Channel.query channel storage cursor isBackward limit
     = Throw (BanError "Invalid cursor.hash length in query()")) /\
  (forall response,
     Channel.query channel storage cursor isBackward limit = Ok response ->
     (Z.of_nat (length (QueryResponse.abbreviatedMessages response))
      <= Z.max 0 (Z.min limit (ChannelCore.maxQueryLimit (ChannelCore.options channel))))%Z /\
     length (QueryResponse.abbreviatedMessages response)
     <= Channel.getMessageCount channel storage).
Proof.
  split; [|split].
  - intros page Hpage. destruct (query_found_bounded _ _ _ _ _ _ Hpage). split; lia.
  - intros hash -> Hlength. unfold Channel.query, Message.checkHash.
    destruct (Nat.eqb_spec (length hash) HASH_SIZE); [contradiction|reflexivity].
  - intros response. unfold Channel.query.
    match goal with |- mbind _ ?m = _ -> _ => destruct m as [[]|] end;
      simpl; [|discriminate].
    match goal with |- mbind _ ?m = _ -> _ => destruct m as [clamped|] end;
      simpl; [|discriminate].
    unfold StorageCache.query.
    destruct (Memory.query storage (ChannelCore.id channel) clamped isBackward _)
      as [page|] eqn:Hpage; simpl; [|discriminate].
    intros [= <-]. simpl. rewrite length_map.
    destruct (query_found_bounded _ _ _ _ _ _ Hpage).
    unfold Channel.getMessageCount, StorageCache.getMessageCount. split; lia.
Qed.

(** The first answer to a full sync: a channel with at least one message,
    asked forward from height 0, answers with the first messages of its
    linear order, abbreviated; whatever the asker has stored, none of their
    parents is external to it, and it fetches those it has not stored, in
    that order. *)
Theorem full_sync_first_page channel (remote asker : Memory.t) (first : Message.t)
    (limit : Z) :
  Reachable channel remote ->
  Memory.getMessageAtOffset remote (ChannelCore.id channel) 0 = Some first ->
  (0 < limit)%Z ->
  (0 < ChannelCore.maxQueryLimit (ChannelCore.options channel))%Z ->
  exists response,
    Channel.query channel remote (Memory.AtHeight 0) false limit = Ok response /\
    (forall k,
       QueryResponse.abbreviatedMessages response !! k =
       if (Z.of_nat k <? Z.min limit (ChannelCore.maxQueryLimit (ChannelCore.options channel)))%Z
       then QueryResponse.abbreviate
              <$> Memory.getMessageAtOffset remote (ChannelCore.id channel) k
       else None) /\
    Channel.computePartialDAG channel asker response
    = {| Channel.external := [];
         Channel.known :=
           List.filter (fun hash => negb (StorageCache.hasMessage channel asker hash))
             (map QueryResponse.hash (QueryResponse.abbreviatedMessages response)) |}.
Proof.
  intros Hreach Hfirst Hlimit Hmax.
  destruct (Reachable_getLeaves channel remote Hreach) as (leaves & Hget & _ & Hheights).
  pose proof (getMinLeafHeight_leaves channel remote leaves Hget) as Hleast.
  set (least := match leaves with [] => 0%Z | _ :: _ => _ end) in Hleast.
  assert (Hpos : (0 <= least)%Z).
  { unfold least. destruct leaves as [|leaf leaves']; [lia|].
    destruct (foldl_min_spec (leaf :: leaves') Channel.MAX_SAFE_INTEGER)
      as (_ & _ & [->|(l & Hl & <-)]); [unfold Channel.MAX_SAFE_INTEGER; lia|].
    rewrite Forall_forall in Hheights. now apply Hheights. }
  pose proof (Reachable_rootsAtZero channel remote Hreach) as Hroots.
  pose proof (Reachable_parentsBelow channel remote Hreach) as Hbelow.
  destruct (Reachable_stored channel remote Hreach) as [added ->].
  destruct (stored_Indexed added (ChannelCore.id channel)) as [Hindexed Hsorted].
  unfold Memory.getMessageAtOffset in *.
  set (messages := Memory.messages
                     (Memory.getChannelData (stored added) (ChannelCore.id channel))) in *.
  assert (Hheight : Message.height first = 0%Z).
  { apply (Hroots (toHex (Message.hash first))).
    - apply (indexed_messages _ Hindexed). eapply list_elem_of_lookup_2. exact Hfirst.
    - destruct (Message.parents first) as [|parent parents] eqn:Hparents; [reflexivity|].
      destruct (parents_below _ 0 first parent Hindexed Hsorted Hbelow Hfirst)
        as (below & _ & Hlt & _); [rewrite Hparents; left|lia]. }
  set (limit' := Z.min limit (ChannelCore.maxQueryLimit (ChannelCore.options channel))).
  assert (Hlimit' : (0 < limit')%Z) by (unfold limit'; lia).
  assert (Hindex : findIndex (Memory.atCursor (Memory.AtHeight 0)) messages = Some 0).
  { apply findIndex_Some. split; [|intros; lia].
    exists first. split; [assumption|]. simpl. rewrite Hheight. reflexivity. }
  destruct (query_forward_at (stored added) (ChannelCore.id channel) (Memory.AtHeight 0) 0
              first limit' Hindex Hfirst Hlimit') as (page & Hpage & Hfound & _).
  fold messages in Hfound.
  assert (Hquery : Channel.query channel (stored added) (Memory.AtHeight 0) false limit
                   = Ok {| QueryResponse.abbreviatedMessages :=
                             map QueryResponse.abbreviate (Memory.found page);
                           QueryResponse.forwardHash := Memory.forwardHash page;
                           QueryResponse.backwardHash := Memory.backwardHash page |}).
  { unfold Channel.query. cbn [mbind Result_bind]. rewrite Hleast. cbn [mbind Result_bind].
    replace (Z.min 0 least) with 0%Z by lia.
    unfold StorageCache.query. fold limit'. rewrite Hpage. reflexivity. }
  eexists. split; [exact Hquery|]. cbn [QueryResponse.abbreviatedMessages].
  assert (Hlookup : forall k,
            map QueryResponse.abbreviate (Memory.found page) !! k =
            if (Z.of_nat k <? limit')%Z
            then QueryResponse.abbreviate <$> messages !! k
            else None).
  { intros k. rewrite list_lookup_fmap, Hfound. simpl. now destruct (_ <? _)%Z. }
  split; [exact Hlookup|].
  unfold Channel.computePartialDAG.
  destruct (scanMessages_closed channel asker
              (map QueryResponse.abbreviate (Memory.found page))) as (Hexternal & _ & Hknown).
  { intros i abbr parent Hi Hparent. right.
    rewrite Hlookup in Hi. destruct (Z.ltb_spec (Z.of_nat i) limit') as [Hil|]; [|discriminate].
    destruct (messages !! i) as [message|] eqn:Hmessage; [|discriminate].
    injection Hi as <-. simpl in Hparent.
    destruct (parents_below _ i message parent Hindexed Hsorted Hbelow Hmessage Hparent)
      as (below & found & Hlt & Hfoundbelow & Hhash & _).
    exists below, (QueryResponse.abbreviate found). split; [lia|]. split; [|assumption].
    rewrite Hlookup. destruct (Z.ltb_spec (Z.of_nat below) limit'); [|lia].
    fold messages in Hfoundbelow. now rewrite Hfoundbelow. }
  cbn [QueryResponse.abbreviatedMessages]. rewrite Hexternal, Hknown. reflexivity.
Qed.

End ChannelQuery.

(** ** Synchronization *)

Section Sync.
Context {sodium : Sodium} {proto : Proto} {getters : Message.Getters}.

(** What [receive] keeps, a sync keeps: it writes through [receive] only. *)
Section Invariant.
Variable channel : ChannelCore.t.
Variable kept : Memory.t -> Prop.
Hypothesis kept_receive : forall storage clock message,
  kept storage -> kept (fst (Channel.receive channel storage clock message)).

Lemma receiveMessages_kept clock expected storage received delta messages :
  kept storage ->
  kept (fst (fst (Channel.receiveMessages channel clock expected storage received delta
                    messages))).
Proof.
  revert storage received delta.
  induction messages as [|message messages IH]; intros storage received delta Hkept;
    simpl; [assumption|].
  destruct (negb _); [assumption|].
  pose proof (kept_receive storage (clock received) message Hkept) as Hnext.
  destruct (Channel.receive channel storage (clock received) message) as [storage' [isNew|e]];
    simpl in Hnext; [now apply IH|assumption].
Qed.

Lemma receiveBulkLoop_kept fuel remote clock expected storage round received delta hashes :
  kept storage ->
  kept (fst (Channel.receiveBulkLoop fuel channel remote clock expected storage round
               received delta hashes)).
Proof.
  revert storage round received delta hashes.
  induction fuel as [|fuel IH]; intros storage round received delta hashes Hkept.
  - destruct hashes; assumption.
  - destruct hashes as [|hash hashes]; [assumption|]. cbn [Channel.receiveBulkLoop].
    destruct (remote round (hash :: hashes)) as [response|e]; [|assumption].
    destruct (_ <=? _)%Z; [assumption|].
    pose proof (receiveMessages_kept clock expected storage received delta
                  (Channel.messages response) Hkept) as Hnext.
    destruct (Channel.receiveMessages _ _ _ _ _ _ _) as [[storage' received'] [delta'|e]];
      simpl in Hnext; [now apply IH|assumption].
Qed.

Lemma receiveBulk_kept storage remote clock hashes :
  kept storage ->
  kept (fst (Channel.receiveBulk channel storage remote clock hashes)).
Proof. apply receiveBulkLoop_kept. Qed.

Lemma syncTurn_kept remote isFull turn storage delta cursor unresolved :
  kept storage ->
  match Channel.syncTurn channel remote isFull turn storage delta cursor unresolved with
  | Channel.Continue storage' _ _ _ | Channel.Completed storage' _
  | Channel.FullSync storage' _ | Channel.Thrown storage' _ => kept storage'
  end.
Proof.
  intros Hkept. unfold Channel.syncTurn.
  destruct (Channel.remoteQuery _ _ _ _ _) as [response|e]; [|assumption].
  destruct (_ <? _)%Z; [assumption|].
  destruct (_ && _); [assumption|].
  pose proof (receiveBulk_kept storage (Channel.remoteBulk remote turn)
                (Channel.remoteClock remote turn)
                (Channel.known (Channel.computePartialDAG channel storage response)) Hkept)
    as Hnext.
  destruct (Channel.receiveBulk _ _ _ _ _) as [storage' [received|e]]; simpl in Hnext;
    [|assumption].
  destruct (Channel.addUnresolved _ _ _) as [unresolved'|]; [|assumption].
  destruct (_ =? _)%nat.
  - destruct (QueryResponse.forwardHash response); assumption.
  - destruct isFull; [assumption|].
    destruct (QueryResponse.backwardHash response); assumption.
Qed.

Lemma syncLoop_kept fuel remote isFull turn storage delta cursor unresolved :
  kept storage ->
  kept (fst (Channel.syncLoop fuel channel remote isFull turn storage delta cursor
               unresolved)).
Proof.
  revert isFull turn storage delta cursor unresolved.
  induction fuel as [|fuel IH]; intros isFull turn storage delta cursor unresolved Hkept;
    [assumption|].
  cbn [Channel.syncLoop].
  pose proof (syncTurn_kept remote isFull turn storage delta cursor unresolved Hkept)
    as Hnext.
  destruct (Channel.syncTurn _ _ _ _ _ _ _ _) as [storage' d h u|storage' d|storage' d|storage' e];
    try assumption.
  - now apply IH.
  - specialize (IH true (S turn) storage' 0%Z (Memory.AtHeight 0) [] Hnext).
    destruct (Channel.syncLoop fuel channel remote true (S turn) storage' 0
                (Memory.AtHeight 0) []) as [storage'' [full|e]]; assumption.
Qed.

Lemma sync_kept fuel storage remote isFull :
  kept storage -> kept (fst (Channel.sync fuel channel storage remote isFull)).
Proof.
  intros Hkept. unfold Channel.sync.
  destruct (if isFull then _ else _) as [height|e]; [|assumption].
  now apply syncLoop_kept.
Qed.

End Invariant.

(** Whatever the remote answers and however long the sync lasts, the
    storage it leaves is one that [receive] and [post] reach: a sync stores
    a message only by [receive]. *)
Theorem sync_Reachable fuel channel storage remote isFull :
  Reachable channel storage ->
  Reachable channel (fst (Channel.sync fuel channel storage remote isFull)).
Proof.
  apply (sync_kept channel (Reachable channel)).
  intros storage' clock message. apply Reachable_receive.
Qed.

(** An answer with more abbreviated messages than [maxQueryLimit] ends
    the sync with a TypeError, and not with the BanError that the source
    means to throw: the text of that error reads [response.messages], a
    field the answer does not have. *)
Theorem sync_overflow fuel channel storage remote (isFull : bool) height response :
  (if isFull then Ok 0%Z else Channel.getMinLeafHeight channel storage) = Ok height ->
  Channel.remoteQuery remote 0 (Memory.AtHeight height) false
    (ChannelCore.maxQueryLimit (ChannelCore.options channel)) = Ok response ->
  (ChannelCore.maxQueryLimit (ChannelCore.options channel)
   < Z.of_nat (length (QueryResponse.abbreviatedMessages response)))%Z ->
  Channel.sync (S fuel) channel storage remote isFull
  = (storage, Throw (TypeError "Cannot read property 'length' of undefined")).
Proof.
  intros Hheight Hquery Hover. unfold Channel.sync. rewrite Hheight.
  cbn [Channel.syncLoop]. unfold Channel.syncTurn. cbn [length Nat.eqb negb].
  rewrite Hquery. apply Z.ltb_lt in Hover. rewrite Hover. reflexivity.
Qed.

(** A remote that answers the first query with no message and no hash, as
    the agent does for a request that timed out, ends the sync at once:
    nothing is asked for, nothing is stored, and the count is 0. *)
Theorem sync_silent fuel channel storage remote (isFull : bool) height :
  (if isFull then Ok 0%Z else Channel.getMinLeafHeight channel storage) = Ok height ->
  Channel.remoteQuery remote 0 (Memory.AtHeight height) false
    (ChannelCore.maxQueryLimit (ChannelCore.options channel))
  = Ok {| QueryResponse.abbreviatedMessages := [];
          QueryResponse.forwardHash := None;
          QueryResponse.backwardHash := None |} ->
  (0 <= ChannelCore.maxQueryLimit (ChannelCore.options channel))%Z ->
  Channel.sync (S fuel) channel storage remote isFull = (storage, Ok 0%Z).
Proof.
  intros Hheight Hquery Hlimit. unfold Channel.sync. rewrite Hheight.
  cbn [Channel.syncLoop]. unfold Channel.syncTurn. cbn [length Nat.eqb negb].
  rewrite Hquery. cbn [QueryResponse.abbreviatedMessages length].
  destruct (Z.ltb_spec (ChannelCore.maxQueryLimit (ChannelCore.options channel)) (Z.of_nat 0));
    [lia|].
  unfold Channel.computePartialDAG, Channel.scanMessages.
  cbn. rewrite andb_false_r. reflexivity.
Qed.

(** Nothing bounds the turns of a sync: against a remote that answers
    every query with no message and a forward hash, the loop is still asking
    after any number of queries, the storage untouched. *)
Theorem sync_endless fuel channel storage remote (isFull : bool) height :
  (if isFull then Ok 0%Z else Channel.getMinLeafHeight channel storage) = Ok height ->
  (0 <= ChannelCore.maxQueryLimit (ChannelCore.options channel))%Z ->
  (forall turn cursor isBackward limit,
     exists hash backwardHash,
       Channel.remoteQuery remote turn cursor isBackward limit
       = Ok {| QueryResponse.abbreviatedMessages := [];
               QueryResponse.forwardHash := Some hash;
               QueryResponse.backwardHash := backwardHash |}) ->
  Channel.sync fuel channel storage remote isFull
  = (storage, Throw (Error "sync: out of fuel")).
Proof.
  intros Hheight Hlimit Hremote. unfold Channel.sync. rewrite Hheight.
  generalize (Memory.AtHeight height) as cursor. generalize 0%nat as turn.
  generalize 0%Z as delta.
  induction fuel as [|fuel IH]; intros delta turn cursor; [reflexivity|].
  cbn [Channel.syncLoop]. unfold Channel.syncTurn. cbn [length Nat.eqb negb].
  destruct (Hremote turn cursor false
              (ChannelCore.maxQueryLimit (ChannelCore.options channel)))
    as (hash & backwardHash & ->).
  cbn [QueryResponse.abbreviatedMessages length].
  destruct (Z.ltb_spec (ChannelCore.maxQueryLimit (ChannelCore.options channel)) (Z.of_nat 0));
    [lia|].
  unfold Channel.computePartialDAG, Channel.scanMessages.
  cbn. rewrite andb_false_r. cbn. rewrite Z.add_0_r. apply IH.
Qed.

End Sync.

Section NeverWrites.
Context {sodium : Sodium} {proto : Proto}.
#[local] Existing Instance Message.absent.

(** The sources as they are never write to the storage of a channel,
    whatever it holds: [receive] returns [false] for a message whose hash is
    stored and throws for any other, [post] throws, and a sync, which
    writes through [receive], leaves the storage as it was. *)
Theorem channel_never_writes channel storage :
  (forall clock message,
     (StorageCache.hasMessage channel storage (Message.hash message) = true /\
      Channel.receive channel storage clock message = (storage, Ok false)) \/
     (StorageCache.hasMessage channel storage (Message.hash message) = false /\
      exists e, Channel.receive channel storage clock message = (storage, Throw e))) /\
  (forall rnd body identity timestamp,
     exists e,
       Channel.post channel storage rnd body identity timestamp = (storage, Throw e)) /\
  (forall fuel remote isFull,
     fst (Channel.sync fuel channel storage remote isFull) = storage).
Proof.
  split; [|split].
  - intros clock message. apply receive_absent.
  - intros rnd body identity timestamp.
    destruct (post_absent channel storage rnd body identity timestamp) as (e & H & _).
    eauto.
  - intros fuel remote isFull.
    apply (sync_kept channel (fun storage' => storage' = storage)); [|reflexivity].
    intros storage' clock message ->.
    destruct (receive_absent channel storage clock message)
      as [[_ H]|[_ (e & H)]]; now rewrite H.
Qed.

End NeverWrites.

(** ** Messages and links on the wire *)

Section Messages.
Context {sodium : Sodium} {proto : Proto} {laws : SodiumLaws sodium}.

Lemma new_checked (rnd : nat -> byte) (options : Message.Options) (message : Message.t) :
  Message.new rnd options = Ok message ->
  length (Message.channelId message) = ID_SIZE /\
  Forall (fun parent => length parent = HASH_SIZE) (Message.parents message) /\
  (0 <= Message.height message)%Z /\
  length (Message.nonce message) = crypto_secretbox_NONCEBYTES /\
  crypto_secretbox_MACBYTES <= length (Message.encryptedContent message) /\
  length (Message.hash message) = HASH_SIZE /\
  Message.hash message
  = crypto_generichash HASH_SIZE
      (ChannelMessage_encode (Message.channelId message) (Message.parents message)
         (Message.height message) (Message.nonce message)
         (Message.encryptedContent message)) None.
Proof.
  unfold Message.new.
  match goal with |- mbind _ ?m = _ -> _ => destruct m as [channelId|] eqn:Hid end;
    simpl; [|discriminate].
  destruct (ChannelCore.checkId channelId _) eqn:Hcheck; simpl; [|discriminate].
  destruct (Message.checkHashes _ _) as [[]|] eqn:Hparents; simpl; [|discriminate].
  destruct (Z.ltb_spec (Message.o_height options) 0); [discriminate|].
  match goal with |- context [length ?n =? crypto_secretbox_NONCEBYTES] => set (nonce := n) end.
  destruct (Nat.eqb_spec (length nonce) crypto_secretbox_NONCEBYTES) as [Hnonce|];
    simpl; [|discriminate].
  match goal with |- mbind _ ?m = _ -> _ => destruct m as [encrypted|] eqn:Henc end;
    simpl; [|discriminate].
  intros [= <-]. simpl.
  assert (Hlen : length (default [] channelId) = ID_SIZE).
  { unfold ChannelCore.checkId in Hcheck. destruct channelId as [id|]; [|discriminate].
    simpl. destruct (Nat.eqb_spec (length id) ID_SIZE); [assumption|discriminate]. }
  split; [assumption|]. split; [now apply checkHashes_Ok in Hparents|].
  split; [lia|]. split; [assumption|]. split.
  { destruct (Message.o_content options) as [c|], (Message.o_encryptedContent options) as [box|],
      (Message.o_channel options) as [channel|]; try discriminate.
    - destruct (Nat.ltb_spec (length box) crypto_secretbox_MACBYTES); [discriminate|].
      injection Henc as <-. assumption.
    - injection Henc as <-. unfold Message.encrypt.
      rewrite crypto_secretbox_easy_length. lia.
    - destruct (Nat.ltb_spec (length box) crypto_secretbox_MACBYTES); [discriminate|].
      injection Henc as <-. assumption.
    - destruct (Nat.ltb_spec (length box) crypto_secretbox_MACBYTES); [discriminate|].
      injection Henc as <-. assumption. }
  split; [apply crypto_generichash_length|reflexivity].
Qed.

(** A message and the wire.  A message that the constructor returned has
    a channel id and parents of 32 bytes, a height that is not negative, a
    nonce of NONCEBYTES bytes, an encrypted content of MACBYTES bytes at
    least and a hash of 32 bytes.  [Message.deserialize] of what
    [serialize()] returns throws a TypeError: the height is a number there,
    and [deserialize] calls [toNumber()] on it.  With the height as the
    [Long] that the protobuf reader makes of it, and below 2^53,
    [deserialize] yields the message, its hash included, without the
    decrypted content. *)
Theorem message_round_trip (rnd : nat -> byte) (options : Message.Options)
    (message : Message.t) :
  Message.new rnd options = Ok message ->
  let decoded := Message.serialize message in
  let read :=
    {| Message.d_channelId := Message.d_channelId decoded;
       Message.d_parents := Message.d_parents decoded;
       Message.d_height := Message.Long (Message.height message);
       Message.d_nonce := Message.d_nonce decoded;
       Message.d_encryptedContent := Message.d_encryptedContent decoded |} in
  length (Message.channelId message) = ID_SIZE /\
  Forall (fun parent => length parent = HASH_SIZE) (Message.parents message) /\
  (0 <= Message.height message)%Z /\
  length (Message.nonce message) = crypto_secretbox_NONCEBYTES /\
  crypto_secretbox_MACBYTES <= length (Message.encryptedContent message) /\
  length (Message.hash message) = HASH_SIZE /\
  Message.deserialize decoded
  = Throw (TypeError "decoded.height.toNumber is not a function") /\
  ((Message.height message < 2 ^ 53)%Z ->
   Message.deserialize read
   = Ok {| Message.channelId := Message.channelId message;
           Message.parents := Message.parents message;
           Message.height := Message.height message;
           Message.nonce := Message.nonce message;
           Message.content := None;
           Message.encryptedContent := Message.encryptedContent message;
           Message.hash := Message.hash message |}).
Proof.
  intros Hnew. destruct (new_checked rnd options message Hnew)
    as (Hid & Hparents & Hheight & Hnonce & Hbox & Hlength & Hhash).
  simpl. repeat (split; [assumption|]). split; [reflexivity|]. intros Hsafe.
  assert (Hround : Js.roundToDouble (Message.height message) = Message.height message).
  { unfold Js.roundToDouble.
    destruct (Z.ltb_spec (Z.abs (Message.height message)) (2 ^ 53)); [reflexivity|lia]. }
  unfold Message.deserialize, Message.new. cbn [Message.d_height Message.d_channelId
    Message.d_parents Message.d_nonce Message.d_encryptedContent Message.o_channelId
    Message.o_channel Message.o_nonce Message.o_parents Message.o_height Message.o_content
    Message.o_encryptedContent mbind Result_bind].
  rewrite Hround.
  unfold ChannelCore.checkId. rewrite Hid, Nat.eqb_refl.
  cbn [mbind Result_bind].
  rewrite (proj2 (checkHashes_Ok _ "Invalid parent hash") Hparents).
  cbn [mbind Result_bind].
  destruct (Z.ltb_spec (Message.height message) 0); [lia|].
  rewrite Hnonce, Nat.eqb_refl. cbn [negb].
  destruct (Nat.ltb_spec (length (Message.encryptedContent message)) crypto_secretbox_MACBYTES);
    [lia|].
  simpl. now rewrite <- Hhash.
Qed.

End Messages.

Section Links.
Context {sodium : Sodium} {proto : Proto} {getters : Message.Getters}.


Lemma walk_sound channel timestamp key links leafKey :
  Chain.walk channel timestamp key links = Ok (Some leafKey) ->
  (forall i link,
     links !! i = Some link ->
     Link.verify channel link
       (match i with
        | 0 => key
        | S before => default [] (Link.trusteePubKey <$> links !! before)
        end) timestamp = Ok true) /\
  leafKey = match length links with
            | 0 => key
            | S before => default [] (Link.trusteePubKey <$> links !! before)
            end.
Proof.
  revert key. induction links as [|first rest IH]; intros key; simpl.
  - intros [= <-]. split; [|reflexivity]. intros i link H. rewrite lookup_nil in H. discriminate.
  - destruct (Link.verify channel first key timestamp) as [[|]|] eqn:Hfirst; simpl;
      try discriminate.
    intros Hrest. destruct (IH _ Hrest) as [Hlinks Hleaf]. split.
    + intros [|i] link Hi; simpl in Hi.
      * now injection Hi as <-.
      * specialize (Hlinks i link Hi). destruct i; assumption.
    + rewrite Hleaf. destruct rest; reflexivity.
Qed.

(** What [verify] has checked when it returns [true], with a binding of
    libsodium that verifies nothing under the key [false]: the content is
    decrypted, its chain has 3 links at most, each link is within its
    validity at the time of the check and is signed by the key before it,
    the first by the key of the channel; and the message is signed by the
    last trustee, or by the key of the channel when the chain is empty. *)
Theorem verify_chain_valid channel timestamp message decrypted :
  (forall signature body, crypto_sign_verify_detached signature body None <> Ok true) ->
  Message.verify message channel timestamp = Ok (true, decrypted) ->
  exists c links,
    Message.decrypt message channel = Ok decrypted /\
    Message.content decrypted = Some c /\
    mapM Link.deserialize (PContent.chain c) = Ok links /\
    length links <= MAX_LENGTH /\
    (forall i link,
       links !! i = Some link ->
       Link.isValid link timestamp = true /\
       crypto_sign_verify_detached (Link.signature link) (Link.tbs channel link)
         (Some (signer channel links i)) = Ok true) /\
    crypto_sign_verify_detached (PContent.signature c)
      (Message.tbs c (Message.parents message) (Message.height message))
      (Some (signer channel links (length links))) = Ok true.
Proof.
  intros Hfalse Hverify.
  unfold Message.verify in Hverify.
  destruct (Message.decrypt message channel) as [decrypted'|] eqn:Hdecrypt; simpl in Hverify;
    [|discriminate].
  destruct (decrypt_fields _ _ _ Hdecrypt) as (_ & Hparents & Hheight & _ & _).
  destruct (Message.content decrypted') as [c|] eqn:Hcontent; [|discriminate].
  unfold Message.chain in Hverify.
  destruct (mapM Link.deserialize (PContent.chain c)) as [links|] eqn:Hlinks; simpl in Hverify;
    [|discriminate].
  unfold Chain.new in Hverify.
  destruct (Nat.ltb_spec MAX_LENGTH (length links)) as [|Hlength]; simpl in Hverify;
    [discriminate|].
  unfold Chain.getLeafKey in Hverify. simpl in Hverify.
  destruct (Chain.walk channel timestamp (ChannelCore.publicKey channel) links)
    as [[leafKey|]|] eqn:Hwalk; simpl in Hverify; try discriminate.
  - destruct (walk_sound _ _ _ _ _ Hwalk) as [Hvalid Hleaf].
    destruct (crypto_sign_verify_detached _ _ _) as [ok|] eqn:Hsigned; simpl in Hverify;
      [|discriminate].
    injection Hverify as -> ->.
    exists c, links. rewrite ?Hparents, ?Hheight in Hsigned.
    split; [reflexivity|]. split; [assumption|].
    split; [assumption|]. split; [assumption|].
    split.
    + intros i link Hi. specialize (Hvalid i link Hi). unfold Link.verify in Hvalid.
      fold (signer channel links i) in Hvalid.
      destruct (Link.isValid link timestamp); simpl in Hvalid;
        [split; [reflexivity|assumption]|discriminate].
    + unfold signer. now rewrite <- Hleaf.
  - destruct (crypto_sign_verify_detached _ _ None) as [ok|] eqn:Hsigned; simpl in Hverify;
      [|discriminate].
    injection Hverify as -> ->. now apply Hfalse in Hsigned.
Qed.

End Links.

(** ** Stored messages are decrypted *)

Section Decrypted.
Context {sodium : Sodium} {proto : Proto} {getters : Message.Getters}.

Lemma postMessage_content channel storage rnd body identity timestamp message :
  Channel.postMessage channel storage rnd body identity timestamp = Ok message ->
  exists c,
    Message.content message = Some c /\
    PContent.body c = body /\
    ChannelCore.Body_root body = false /\
    ChannelCore.checkJSONLimit (ChannelCore.Body_json body)
      (Some (length (PContent.chain c))) = Ok tt.
Proof.
  unfold Channel.postMessage. destruct (ChannelCore.Body_root body) eqn:Hroot; [discriminate|].
  destruct (Channel.allDefined _) as [leaves|]; simpl; [|discriminate].
  destruct (_ =? _)%nat.
  { destruct (_ =? _)%nat; discriminate. }
  destruct (Identity.signMessageBody _ _ _ _ _ _) as [options|] eqn:Hsign; simpl;
    [|discriminate].
  destruct (ChannelCore.checkJSONLimit _ _) as [[]|] eqn:Hlimit; simpl; [|discriminate].
  intros Hnew. apply signMessageBody_fields in Hsign
    as (_ & _ & _ & _ & c & Hc & _ & Hbody).
  apply new_fields in Hnew as (_ & _ & Hc' & _).
  exists c. rewrite Hc', Hc. rewrite Hc in Hlimit. simpl in Hlimit. auto.
Qed.

Lemma addToData_content data message :
  (forall key m, Memory.messageByHash data !! key = Some m -> is_Some (Message.content m)) ->
  is_Some (Message.content message) ->
  forall key m,
    Memory.messageByHash (Memory.addToData data message) !! key = Some m ->
    is_Some (Message.content m).
Proof.
  intros Hdata Hmessage key m. unfold Memory.addToData.
  case_bool_decide as Hdup; [apply Hdata|]. simpl.
  destruct (decide (toHex (Message.hash message) = key)) as [<-|Hne].
  - rewrite lookup_insert_eq. now intros [= <-].
  - rewrite lookup_insert_ne by assumption. apply Hdata.
Qed.

Lemma Reachable_content channel storage :
  Reachable channel storage ->
  forall key m,
    Memory.messageByHash (Memory.getChannelData storage (ChannelCore.id channel)) !! key
    = Some m ->
    is_Some (Message.content m).
Proof.
  induction 1 as [|storage clock message Hreach IH
                  |storage rnd body identity timestamp Hreach IH].
  - unfold Memory.getChannelData. simpl. rewrite lookup_empty. simpl.
    intros key m Hm. simpl in Hm. rewrite lookup_empty in Hm. discriminate.
  - destruct (receive_cases channel storage clock message)
      as [[_ H]|[[_ (e & _ & H)]|[_ (decrypted & Hchecks & H)]]];
      rewrite H; simpl; try assumption.
    apply receiveChecks_Ok in Hchecks as [parents Hacc].
    unfold StorageCache.addMessage. rewrite getChannelData_addMessage.
    case_decide as Hid; [|assumption].
    apply toHex_inj in Hid. rewrite Hid.
    apply addToData_content; [assumption|].
    pose proof (verify_decrypt _ _ _ _ _ (accepted_verify _ _ _ _ _ _ Hacc)) as Hdecrypt.
    now apply decrypt_fields in Hdecrypt as (_ & _ & _ & _ & Hcontent).
  - unfold Channel.post.
    destruct (Channel.postMessage _ _ _ _ _ _) as [message|e] eqn:Hpost; simpl;
      [|assumption].
    destruct (postMessage_content _ _ _ _ _ _ _ Hpost) as (c & Hc & _).
    apply postMessage_Ok in Hpost as (leaves & _ & _ & _ & _ & _ & _ & Hid).
    unfold StorageCache.addMessage. rewrite getChannelData_addMessage, Hid.
    rewrite decide_True by reflexivity.
    apply addToData_content; [assumption|]. rewrite Hc. eauto.
Qed.

(** What a channel stores is decrypted: every message of a storage that
    [receive] and [post] reach has its content, so that [decrypt] leaves it
    as it is and [isRoot] answers instead of throwing. *)
Theorem stored_decrypted channel storage offset message :
  Reachable channel storage ->
  Memory.getMessageAtOffset storage (ChannelCore.id channel) offset = Some message ->
  Message.decrypt message channel = Ok message /\
  exists c,
    Message.content message = Some c /\
    Message.isRoot message = Ok (ChannelCore.Body_root (PContent.body c)).
Proof.
  intros Hreach Hmessage.
  pose proof (Reachable_content channel storage Hreach) as Hcontent.
  destruct (Reachable_stored channel storage Hreach) as [added ->].
  destruct (stored_Indexed added (ChannelCore.id channel)) as [[Hm _ _] _].
  unfold Memory.getMessageAtOffset in Hmessage.
  apply list_elem_of_lookup_2 in Hmessage.
  destruct (Hcontent _ _ (Hm _ Hmessage)) as [c Hc].
  unfold Message.decrypt, Message.isRoot. rewrite Hc. eauto.
Qed.

End Decrypted.

(** ** Chains *)

Section Chains.
Context {sodium : Sodium} {proto : Proto} {getters : Message.Getters}.

Lemma walk_complete channel timestamp key links :
  (forall i link,
     links !! i = Some link ->
     Link.verify channel link
       (match i with
        | 0 => key
        | S before => default [] (Link.trusteePubKey <$> links !! before)
        end) timestamp = Ok true) ->
  exists leafKey, Chain.walk channel timestamp key links = Ok (Some leafKey).
Proof.
  revert key. induction links as [|first rest IH]; intros key Hlinks; simpl.
  - eauto.
  - rewrite (Hlinks 0 first eq_refl). simpl. apply IH.
    intros i link Hi. specialize (Hlinks (S i) link Hi). destruct i; assumption.
Qed.

Lemma verify_Ok_true channel link key timestamp :
  Link.verify channel link key timestamp = Ok true <->
  Link.isValid link timestamp = true /\
  crypto_sign_verify_detached (Link.signature link) (Link.tbs channel link) (Some key)
  = Ok true.
Proof.
  unfold Link.verify. destruct (Link.isValid link timestamp); simpl.
  - split; [auto|now intros [_ H]].
  - split; [discriminate|now intros [H _]].
Qed.

(** A chain verifies exactly when each of its links is within its validity
    at that time and is signed by the key before it: the key of the channel
    for the first link, the key of the trustee of the link before it for the
    others.  The empty chain verifies. *)
Theorem chain_verify_links chain channel timestamp :
  Chain.verify chain channel timestamp = Ok true <->
  forall i link,
    Chain.links chain !! i = Some link ->
    Link.isValid link timestamp = true /\
    crypto_sign_verify_detached (Link.signature link) (Link.tbs channel link)
      (Some (signer channel (Chain.links chain) i)) = Ok true.
Proof.
  unfold Chain.verify, Chain.getLeafKey, signer. split.
  - destruct (Chain.walk _ _ _ _) as [[leafKey|]|e] eqn:Hwalk; simpl; try discriminate.
    intros _ i link Hi. apply verify_Ok_true.
    exact (proj1 (walk_sound _ _ _ _ _ Hwalk) i link Hi).
  - intros Hlinks.
    destruct (walk_complete channel timestamp (ChannelCore.publicKey channel)
                (Chain.links chain)) as [leafKey ->].
    + intros i link Hi. apply verify_Ok_true. now apply Hlinks.
    + reflexivity.
Qed.




End Chains.

(** ** Wait lists *)

Section WaitLists.
Context {V : Type}.
Implicit Types (list : WaitList.t V) (id : string).

Lemma settle_pending entry (outcome : WaitList.Promise V) promises :
  promises !! entry = Some WaitList.Pending ->
  WaitList.settle entry outcome promises !! entry = Some outcome.
Proof.
  intros H. unfold WaitList.settle. rewrite H.
  apply list_lookup_insert_eq. eapply lookup_lt_Some. eassumption.
Qed.

Lemma settle_other entry entry' (outcome : WaitList.Promise V) promises :
  entry <> entry' ->
  WaitList.settle entry outcome promises !! entry' = promises !! entry'.
Proof.
  intros H. unfold WaitList.settle.
  destruct (promises !! entry) as [[| |]|]; try reflexivity.
  now apply list_lookup_insert_ne.
Qed.

(** A wait that is resolved: the promise of the entry holds the result,
    the id is waited for no longer, and a later [resolve] of the id or
    [cancel] of the entry changes nothing. *)
Theorem wait_resolve list id (result result' : V) :
  let entry := snd (WaitList.wait id list) in
  let resolved := WaitList.resolve id result (fst (WaitList.wait id list)) in
  WaitList.promises resolved !! entry = Some (WaitList.Resolved result) /\
  WaitList.map resolved !! id = None /\
  WaitList.resolve id result' resolved = resolved /\
  WaitList.cancel id entry resolved = resolved.
Proof.
  simpl.
  assert (Hresolved :
            WaitList.resolve id result (fst (WaitList.wait id list))
            = {| WaitList.map := delete id (<[id := length (WaitList.promises list)]>
                                              (WaitList.map list));
                 WaitList.promises :=
                   WaitList.settle (length (WaitList.promises list)) (WaitList.Resolved result)
                     (WaitList.promises list ++ [WaitList.Pending]) |}).
  { unfold WaitList.resolve. simpl. now rewrite lookup_insert_eq. }
  simpl in Hresolved. rewrite Hresolved. simpl.
  split; [|split; [|split]].
  - apply settle_pending. now apply list_lookup_middle.
  - apply lookup_delete_eq.
  - unfold WaitList.resolve. simpl. now rewrite lookup_delete_eq.
  - unfold WaitList.cancel. simpl. rewrite lookup_delete_eq.
    rewrite bool_decide_eq_false_2 by (intros [x H]; discriminate). reflexivity.
Qed.

(** Two waits on one id: the second takes the place of the first in the
    map, and cancelling the first then removes the second from it.  A
    [resolve] of the id finds nothing after that: the second wait stays
    pending. *)
Theorem cancel_superseded list id (result : V) :
  let first := WaitList.wait id list in
  let second := WaitList.wait id (fst first) in
  let cancelled := WaitList.cancel id (snd first) (fst second) in
  snd first <> snd second /\
  WaitList.promises cancelled !! snd first = Some (WaitList.Rejected (Error "Cancelled")) /\
  WaitList.promises cancelled !! snd second = Some WaitList.Pending /\
  WaitList.map cancelled !! id = None /\
  WaitList.resolve id result cancelled = cancelled.
Proof.
  simpl. unfold WaitList.cancel. simpl.
  rewrite bool_decide_eq_true_2 by (rewrite lookup_insert_eq; eauto).
  unfold WaitList.elemReject. simpl. rewrite length_app. simpl.
  split; [lia|]. split; [|split; [|split]].
  - apply settle_pending. rewrite lookup_app_l by (rewrite length_app; simpl; lia).
    now apply list_lookup_middle.
  - rewrite settle_other by lia.
    apply list_lookup_middle. rewrite length_app. simpl. lia.
  - apply lookup_delete_eq.
  - unfold WaitList.resolve. simpl. now rewrite lookup_delete_eq.
Qed.

End WaitLists.

(** ** Entities and the clearing of the storage *)

Lemma Map_get_set {V} (key key' : string) (value : V) (m : list (string * V)) :
  Map_get key' (Map_set key value m) = if String.eqb key key' then Some value else Map_get key' m.
Proof.
  induction m as [|[k v] m IH]; simpl.
  - rewrite String.eqb_sym. reflexivity.
  - destruct (String.eqb_spec k key) as [->|Hk]; simpl.
    + destruct (String.eqb_spec key key'); reflexivity.
    + rewrite IH. destruct (String.eqb_spec k key') as [->|Hk'].
      * destruct (String.eqb_spec key key'); [congruence|reflexivity].
      * reflexivity.
Qed.

Lemma Map_get_delete {V} (key key' : string) (m : list (string * V)) :
  Map_get key' (Map_delete key m) = if String.eqb key key' then None else Map_get key' m.
Proof.
  induction m as [|[k v] m IH]; simpl.
  - now destruct (String.eqb key key').
  - destruct (String.eqb_spec k key) as [->|Hk]; simpl.
    + rewrite IH. destruct (String.eqb_spec key key'); reflexivity.
    + rewrite IH. destruct (String.eqb_spec k key') as [->|Hk'].
      * destruct (String.eqb_spec key key'); [congruence|reflexivity].
      * reflexivity.
Qed.

Lemma Map_keys_get {V} (key : string) (m : list (string * V)) :
  key ∈ Map_keys m <-> is_Some (Map_get key m).
Proof.
  unfold Map_keys. induction m as [|[k v] m IH]; simpl.
  - split; [intros H; inversion H|intros [x H]; discriminate].
  - rewrite elem_of_cons, IH. destruct (String.eqb_spec k key) as [->|Hk].
    + split; eauto.
    + split; [intros [?|?]; [congruence|assumption]|auto].
Qed.

Lemma Map_keys_set {V} (key : string) (value : V) (m : list (string * V)) :
  Map_keys (Map_set key value m)
  = if bool_decide (key ∈ Map_keys m) then Map_keys m else Map_keys m ++ [key].
Proof.
  unfold Map_keys. induction m as [|[k v] m IH]; simpl; [reflexivity|].
  destruct (String.eqb_spec k key) as [->|Hk]; simpl.
  - rewrite bool_decide_eq_true_2 by left. reflexivity.
  - rewrite IH. case_bool_decide as Hin.
    + rewrite bool_decide_eq_true_2 by now right. reflexivity.
    + rewrite bool_decide_eq_false_2; [reflexivity|].
      intros H. apply elem_of_cons in H as [?|?]; [congruence|contradiction].
Qed.

Lemma getEntityKeys_get entities prefix id :
  id ∈ Memory.getEntityKeys entities prefix <->
  exists submap, Map_get prefix entities = Some submap /\ is_Some (Map_get id submap).
Proof.
  unfold Memory.getEntityKeys. destruct (Map_get prefix entities) as [submap|].
  - rewrite Map_keys_get. split; [eauto|]. intros (s & [= <-] & H). assumption.
  - split; [intros H; inversion H|intros (s & H & _); discriminate].
Qed.

(** The entities behave as a map from a prefix and an id to the bytes of
    an entity: what is retrieved is the latest entity stored there,
    deserialized, and nothing once it has been removed; a store or a removal
    changes nothing under any other prefix or id. *)
Theorem entities_store_retrieve {E} (entities : Memory.Entities) (prefix id : string)
    (data : Buffer) (deserializeData : Buffer -> Result E) :
  let entities' := Memory.storeEntity entities prefix id data in
  let removed := Memory.removeEntity entities prefix id in
  Memory.retrieveEntity entities' prefix id deserializeData
  = (entity ← deserializeData data; Ok (Some entity)) /\
  Memory.getEntityKeys entities' prefix
  = (if bool_decide (id ∈ Memory.getEntityKeys entities prefix)
     then Memory.getEntityKeys entities prefix
     else Memory.getEntityKeys entities prefix ++ [id]) /\
  Memory.retrieveEntity removed prefix id deserializeData = Ok None /\
  (id ∉ Memory.getEntityKeys removed prefix) /\
  (forall prefix' id',
     (prefix', id') <> (prefix, id) ->
     Memory.retrieveEntity entities' prefix' id' deserializeData
     = Memory.retrieveEntity entities prefix' id' deserializeData /\
     Memory.retrieveEntity removed prefix' id' deserializeData
     = Memory.retrieveEntity entities prefix' id' deserializeData /\
     (id' ∈ Memory.getEntityKeys entities' prefix'
      <-> id' ∈ Memory.getEntityKeys entities prefix') /\
     (id' ∈ Memory.getEntityKeys removed prefix'
      <-> id' ∈ Memory.getEntityKeys entities prefix')).
Proof.
  simpl.
  assert (Hstored : forall prefix' id',
            (submap ← Map_get prefix' (Memory.storeEntity entities prefix id data);
             Map_get id' submap)
            = if String.eqb prefix prefix' && String.eqb id id' then Some data
              else submap ← Map_get prefix' entities; Map_get id' submap).
  { intros prefix' id'. unfold Memory.storeEntity, Map_has. rewrite Map_get_set.
    destruct (String.eqb_spec prefix prefix') as [<-|Hp]; [|reflexivity].
    cbn [andb mbind option_bind]. rewrite Map_get_set.
    destruct (String.eqb_spec id id'); [reflexivity|].
    destruct (Map_get prefix entities) as [submap|].
    - rewrite bool_decide_eq_true_2 by eauto. reflexivity.
    - rewrite bool_decide_eq_false_2 by (intros [x H]; discriminate). reflexivity. }
  assert (Hremoved : forall prefix' id',
            (submap ← Map_get prefix' (Memory.removeEntity entities prefix id);
             Map_get id' submap)
            = if String.eqb prefix prefix' && String.eqb id id' then None
              else submap ← Map_get prefix' entities; Map_get id' submap).
  { intros prefix' id'. unfold Memory.removeEntity.
    destruct (Map_get prefix entities) as [submap|] eqn:Hsub.
    - rewrite Map_get_set. destruct (String.eqb_spec prefix prefix') as [<-|Hp]; simpl;
        [|reflexivity].
      rewrite Map_get_delete, Hsub. simpl. now destruct (String.eqb id id').
    - destruct (String.eqb_spec prefix prefix') as [<-|Hp]; simpl; [|reflexivity].
      rewrite Hsub. simpl. now destruct (String.eqb id id'). }
  assert (Hretrieve : forall entities' prefix' id',
            Memory.retrieveEntity entities' prefix' id' deserializeData
            = match submap ← Map_get prefix' entities'; Map_get id' submap with
              | None => Ok None
              | Some data => entity ← deserializeData data; Ok (Some entity)
              end).
  { intros entities' prefix' id'. unfold Memory.retrieveEntity.
    destruct (Map_get prefix' entities') as [submap|]; simpl; reflexivity. }
  assert (Hkeys : forall entities' prefix' id',
            id' ∈ Memory.getEntityKeys entities' prefix' <->
            is_Some (submap ← Map_get prefix' entities'; Map_get id' submap)).
  { intros entities' prefix' id'. rewrite getEntityKeys_get.
    destruct (Map_get prefix' entities') as [submap|]; simpl.
    - split; [intros (s & [= <-] & H); assumption|eauto].
    - split; [intros (s & H & _); discriminate|intros [x H]; discriminate]. }
  assert (Horder : Memory.getEntityKeys (Memory.storeEntity entities prefix id data) prefix
                   = (if bool_decide (id ∈ Memory.getEntityKeys entities prefix)
                      then Memory.getEntityKeys entities prefix
                      else Memory.getEntityKeys entities prefix ++ [id])).
  { unfold Memory.getEntityKeys, Memory.storeEntity, Map_has.
    rewrite Map_get_set, String.eqb_refl, Map_keys_set.
    destruct (Map_get prefix entities) as [submap|].
    - rewrite (bool_decide_eq_true_2 (is_Some (Some submap))) by eauto. reflexivity.
    - rewrite (bool_decide_eq_false_2 (is_Some None)) by (intros [x H]; discriminate).
      rewrite !bool_decide_eq_false_2 by apply not_elem_of_nil. reflexivity. }
  split; [rewrite Hretrieve, Hstored, !String.eqb_refl; reflexivity|].
  split; [exact Horder|].
  rewrite !Hretrieve, !Hkeys, Hremoved, !String.eqb_refl. simpl.
  split; [reflexivity|]. split; [intros [x H]; discriminate|].
  intros prefix' id' Hne. rewrite !Hretrieve, !Hkeys, Hstored, Hremoved.
  destruct (String.eqb_spec prefix prefix') as [<-|Hp]; simpl; [|tauto].
  destruct (String.eqb_spec id id') as [<-|Hi]; simpl; [congruence|tauto].
Qed.

(** [clear()] empties every channel and then fails: the call always ends
    in a TypeError. *)
Theorem clear_throws (storage : Memory.t) (channelId hash : Buffer) :
  snd (Memory.clear storage) = Throw (TypeError "Cannot read property 'clear' of undefined") /\
  Memory.getMessageCount (fst (Memory.clear storage)) channelId = 0 /\
  Memory.hasMessage (fst (Memory.clear storage)) channelId hash = false /\
  Memory.getLeaves (fst (Memory.clear storage)) channelId = [].
Proof. repeat split. Qed.

(** ** The sources at work on the sample channel *)

Section SamplesAsTheyAre.
#[local] Existing Instance Sample.sodium.
#[local] Existing Instance Sample.proto.
#[local] Existing Instance Message.absent.

Ltac conjuncts := repeat match goal with |- _ /\ _ => split end.
Ltac evaluate := vm_compute; reflexivity.




(** C4 as stated fails: a new message without parents, of height 5, whose
    chain has four links is thrown out with the Error of the chain, which
    is no BanError. *)
Lemma wrong_height_not_banned :
  Message.parents Fixture.overlong = [] /\
  Message.height Fixture.overlong = 5%Z /\
  expectedHeight [] = 0%Z /\
  StorageCache.hasMessage Sample.channel Memory.empty (Message.hash Fixture.overlong)
  = false /\
  snd (Channel.receive Sample.channel Memory.empty Sample.clock Fixture.overlong)
  = Throw (Error "Chain length overflow: 4") /\
  isBan (Error "Chain length overflow: 4") = false.
Proof. conjuncts; evaluate. Qed.

Lemma receive_height_witness :
  heightsNonNegative
    (Memory.getChannelData (stored [Sample.root1]) (ChannelCore.id Sample.channel)) /\
  Channel.getMessages Sample.channel (stored [Sample.root1])
    (Message.parents Fixture.overlong) = map Some [] /\
  Message.height Fixture.overlong <> expectedHeight [] /\
  StorageCache.hasMessage Sample.channel (stored [Sample.root1])
    (Message.hash Fixture.overlong) = false /\
  exists e,
    Channel.receive Sample.channel (stored [Sample.root1]) Sample.clock Fixture.overlong
    = (stored [Sample.root1], Throw e) /\
    (isBan e = true \/
     Message.verify Fixture.overlong Sample.channel (Channel.verifyNow Sample.clock)
     = Throw e).
Proof.
  assert (Hheights : heightsNonNegative
                       (Memory.getChannelData (stored [Sample.root1])
                          (ChannelCore.id Sample.channel))).
  { unfold stored. simpl. rewrite getChannelData_addMessage.
    case_decide; [|apply heightsNonNegative_empty].
    apply addToData_heightsNonNegative; [apply heightsNonNegative_empty|].
    vm_compute. discriminate. }
  assert (Hparents : Channel.getMessages Sample.channel (stored [Sample.root1])
                       (Message.parents Fixture.overlong) = map Some []) by evaluate.
  assert (Hheight : Message.height Fixture.overlong <> expectedHeight [])
    by (vm_compute; discriminate).
  assert (Hnew : StorageCache.hasMessage Sample.channel (stored [Sample.root1])
                   (Message.hash Fixture.overlong) = false) by evaluate.
  conjuncts; try assumption.
  exact (proj2 (receive_height Sample.channel (stored [Sample.root1]) Sample.clock
                  Fixture.overlong Hheights) [] Hparents Hheight Hnew).
Defined.

(** C5 fails in the sources as they are.  A root signed for the time 5000
    is received at the time 1000: [message.timestamp] is [undefined], no
    bound is looked at, and the call ends in the TypeError of the read of
    [message.body.root], where the claim has a BanError. *)
Theorem future_root_thrown :
  Message.parents Sample.futureRoot = [] /\
  PContent.timestamp <$> Message.content Sample.futureRoot = Some 5000%float /\
  Js.gt 5000 (Channel.receiveNow Sample.clock + FUTURE)%float = true /\
  Message.verify Sample.futureRoot Sample.channel (Channel.verifyNow Sample.clock)
  = Ok (true, Sample.futureRoot) /\
  Message.timestamp Sample.futureRoot = None /\
  snd (Channel.receive Sample.channel Memory.empty Sample.clock Sample.futureRoot)
  = Throw (TypeError "Cannot read property 'root' of undefined") /\
  fst (Channel.receive Sample.channel Memory.empty Sample.clock Sample.futureRoot)
  = Memory.empty.
Proof. conjuncts; evaluate. Qed.

(** C6 fails in the sources as they are.  The channel holds one message,
    which is its only leaf: [parent.timestamp] is [undefined], the filter
    of 30 days drops the leaf, and [post] throws where the claim has it
    return a message of height 1. *)
Theorem post_no_leaves :
  Channel.getMessageCount Sample.channel (stored [Sample.root1]) = 1 /\
  Channel.getLeaves Sample.channel (stored [Sample.root1]) = [Some Sample.root1] /\
  Message.timestamp Sample.root1 = None /\
  Channel.filterParents [Sample.root1] = [] /\
  snd (Channel.post Sample.channel (stored [Sample.root1]) Sample.rnd0 (Json "{}")
         Sample.creator 5)
  = Throw (Error "Internal error: no leaves") /\
  fst (Channel.post Sample.channel (stored [Sample.root1]) Sample.rnd0 (Json "{}")
         Sample.creator 5)
  = stored [Sample.root1].
Proof. conjuncts; evaluate. Qed.

(** C10 as stated fails: the answer holds a root that was not asked for,
    after a message that was; [receive] throws the Error of the chain for
    the first, and the fetch ends with it, not with a BanError. *)
Lemma unexpected_not_banned :
  (toHex (Message.hash Sample.root2) ∉ map toHex [Message.hash Fixture.overlong]) /\
  Fixture.crowd 0 [Message.hash Fixture.overlong]
  = Ok {| Channel.messages := [Fixture.overlong; Sample.root2];
          Channel.forwardIndex := 1 |} /\
  snd (Channel.receiveBulk Sample.channel Memory.empty Fixture.crowd Sample.clocks
         [Message.hash Fixture.overlong])
  = Throw (Error "Chain length overflow: 4") /\
  isBan (Error "Chain length overflow: 4") = false.
Proof.
  split; [|conjuncts; evaluate].
  intros Hin. apply list_elem_of_singleton, toHex_inj in Hin.
  vm_compute in Hin. discriminate.
Qed.

Lemma receiveBulk_ban_witness :
  [Message.hash Sample.root1] <> [] /\
  Sample.silent 0 [Message.hash Sample.root1]
  = Ok {| Channel.messages := []; Channel.forwardIndex := 0 |} /\
  Channel.receiveBulkLoop 1 Sample.channel Sample.silent Sample.clocks
    (map toHex [Message.hash Sample.root1]) Memory.empty 0 0 0%Z
    [Message.hash Sample.root1]
  = (Memory.empty, Throw (BanError "Failed to make progress")) /\
  snd (Channel.receiveBulk Sample.channel Memory.empty Sample.intruder Sample.clocks
         [Message.hash Sample.root1])
  = Throw (BanError ("Unexpected message in bulk response: "
                     +:+ toHex (Message.hash Sample.root2))).
Proof.
  assert (Hne : [Message.hash Sample.root1] <> []) by discriminate.
  split; [exact Hne|]. split; [reflexivity|]. split.
  - refine (proj1 (receiveBulk_ban 0 Sample.channel Sample.silent Sample.clocks
                    (map toHex [Message.hash Sample.root1]) Memory.empty 0 0 0%Z
                    [Message.hash Sample.root1] _ Hne eq_refl) _).
    cbn. lia.
  - evaluate.
Defined.

End SamplesAsTheyAre.

(** ** The model at work on the sample channel *)

Section Samples.
#[local] Existing Instance Sample.sodium.
#[local] Existing Instance Sample.proto.
#[local] Existing Instance Message.ofContent.

Ltac conjuncts := repeat match goal with |- _ /\ _ => split end.
Ltac evaluate := vm_compute; reflexivity.

Lemma Reachable_received messages :
  Reachable Sample.channel (Sample.received messages).
Proof.
  unfold Sample.received.
  induction messages as [|message messages IH] using rev_ind.
  - apply Reachable_empty.
  - rewrite foldl_app. simpl. now apply Reachable_receive.
Qed.

Lemma bulk_spec_witness :
  ChannelCore.maxBulkCount (ChannelCore.options Sample.channel) = MAX_BULK_COUNT /\
  wellKeyed (Memory.getChannelData (Sample.received [Sample.root1])
               (ChannelCore.id Sample.channel)) /\
  exists response,
    Channel.bulk Sample.channel (Sample.received [Sample.root1])
      [Message.hash Sample.post1; Message.hash Sample.root1] = Ok response /\
    Channel.forwardIndex response = 2%Z /\
    map Message.hash (Channel.messages response) = [Message.hash Sample.root1].
Proof.
  assert (Hkeys : wellKeyed (Memory.getChannelData (Sample.received [Sample.root1])
                               (ChannelCore.id Sample.channel))).
  { apply consistent_keys.
    apply (Reachable_Consistent _ _ (Reachable_received [Sample.root1])). }
  split; [reflexivity|]. split; [exact Hkeys|].
  destruct (proj1 (bulk_spec Sample.channel (Sample.received [Sample.root1])
                     [Message.hash Sample.post1; Message.hash Sample.root1]
                     eq_refl Hkeys))
    as (response & Hbulk & Hindex & _ & _ & Hhashes).
  { assert (Hsizes : forallb (fun hash => length hash =? HASH_SIZE)
                       [Message.hash Sample.post1; Message.hash Sample.root1] = true)
      by evaluate.
    apply Forall_forall. intros hash Hin. apply list_elem_of_In in Hin.
    rewrite forallb_forall in Hsizes. now apply Nat.eqb_eq, Hsizes. }
  exists response. split; [exact Hbulk|]. split; [exact Hindex|].
  rewrite Hhashes. evaluate.
Defined.

Lemma leaves_closure_witness :
  Reachable Sample.channel (Sample.received [Sample.root1; Sample.post1]) /\
  leavesClosure
    (Memory.getChannelData (Sample.received [Sample.root1; Sample.post1])
       (ChannelCore.id Sample.channel)) /\
  Memory.leaves
    (Memory.getChannelData (Sample.received [Sample.root1; Sample.post1])
       (ChannelCore.id Sample.channel))
  = [toHex (Message.hash Sample.post1)].
Proof.
  split; [apply Reachable_received|]. split.
  - exact (proj1 (leaves_closure Sample.channel
                    (Sample.received [Sample.root1; Sample.post1])
                    (Reachable_received [Sample.root1; Sample.post1]))).
  - evaluate.
Defined.

Lemma synchronize_coalesced_witness :
  SyncAgent.destroyed Sample.busy = false /\
  SyncAgent.state Sample.busy = SyncAgent.active /\
  SyncAgent.restarts
    (SyncAgent.run (SyncAgent.synchronize Sample.busy)
       [SyncAgent.Call; SyncAgent.Call; SyncAgent.Finish; SyncAgent.Finish; SyncAgent.Finish])
  = 1.
Proof.
  split; [reflexivity|]. split; [reflexivity|].
  exact (proj1 (proj2 (proj2 (proj2 (synchronize_coalesced Sample.busy eq_refl eq_refl)))
                  2 2)).
Defined.

Lemma messages_ordered_witness :
  1 < 2 /\
  Memory.getMessageAtOffset Fixture.storage Fixture.channelId 1 = Some Fixture.b /\
  Memory.getMessageAtOffset Fixture.storage Fixture.channelId 2 = Some Fixture.c /\
  precedes Fixture.b Fixture.c.
Proof.
  assert (Hb : Memory.getMessageAtOffset Fixture.storage Fixture.channelId 1 = Some Fixture.b)
    by evaluate.
  assert (Hc : Memory.getMessageAtOffset Fixture.storage Fixture.channelId 2 = Some Fixture.c)
    by evaluate.
  assert (Hlt : 1 < 2) by lia.
  conjuncts; try assumption.
  exact (messages_ordered [Fixture.a; Fixture.c; Fixture.b; Fixture.d] Fixture.channelId
           1 2 Fixture.b Fixture.c Hlt Hb Hc).
Defined.

Lemma parents_before_children_witness :
  Reachable Sample.channel (Sample.received [Sample.root1; Sample.post1]) /\
  Memory.getMessageAtOffset (Sample.received [Sample.root1; Sample.post1])
    (ChannelCore.id Sample.channel) 1 = Some Sample.post1 /\
  Message.hash Sample.root1 ∈ Message.parents Sample.post1 /\
  exists below found,
    below < 1 /\
    Memory.getMessageAtOffset (Sample.received [Sample.root1; Sample.post1])
      (ChannelCore.id Sample.channel) below = Some found /\
    Message.hash found = Message.hash Sample.root1 /\
    (Message.height found < Message.height Sample.post1)%Z.
Proof.
  assert (Hoffset : Memory.getMessageAtOffset (Sample.received [Sample.root1; Sample.post1])
                      (ChannelCore.id Sample.channel) 1 = Some Sample.post1) by evaluate.
  assert (Hparents : Message.parents Sample.post1 = [Message.hash Sample.root1]) by evaluate.
  assert (Hparent : Message.hash Sample.root1 ∈ Message.parents Sample.post1)
    by (rewrite Hparents; left).
  conjuncts; [apply Reachable_received|assumption|assumption|].
  exact (parents_before_children Sample.channel _ 1 Sample.post1 (Message.hash Sample.root1)
           (Reachable_received [Sample.root1; Sample.post1]) Hoffset Hparent).
Defined.

Lemma query_forward_witness :
  Memory.getMessageAtOffset Fixture.storage Fixture.channelId 1 = Some Fixture.b /\
  (0 < 2)%Z /\
  exists page,
    Memory.query Fixture.storage Fixture.channelId (Memory.AtHash (Message.hash Fixture.b))
      false 2 = Ok page /\
    (forall k,
       Memory.found page !! k =
       if (Z.of_nat k <? 2)%Z
       then Memory.getMessageAtOffset Fixture.storage Fixture.channelId (1 + k) else None) /\
    Memory.forwardHash page
    = (Message.hash <$> Memory.getMessageAtOffset Fixture.storage Fixture.channelId 3) /\
    Memory.backwardHash page = Some (Message.hash Fixture.b).
Proof.
  assert (Hb : Memory.getMessageAtOffset Fixture.storage Fixture.channelId 1 = Some Fixture.b)
    by evaluate.
  assert (Hlimit : (0 < 2)%Z) by lia.
  conjuncts; try assumption.
  exact (query_forward [Fixture.a; Fixture.c; Fixture.b; Fixture.d] Fixture.channelId 1
           Fixture.b 2 Hb Hlimit).
Defined.

Lemma query_backward_witness :
  Memory.getMessageAtOffset Fixture.storage Fixture.channelId 2 = Some Fixture.c /\
  (0 < 1)%Z /\
  exists page,
    Memory.query Fixture.storage Fixture.channelId (Memory.AtHash (Message.hash Fixture.c))
      true 1 = Ok page /\
    (forall k,
       Memory.found page !! k =
       if (1 + k <? 2)%nat
       then Memory.getMessageAtOffset Fixture.storage Fixture.channelId (1 + k) else None) /\
    Memory.forwardHash page = Some (Message.hash Fixture.c) /\
    Memory.backwardHash page
    = (Message.hash <$> Memory.getMessageAtOffset Fixture.storage Fixture.channelId 1).
Proof.
  assert (Hc : Memory.getMessageAtOffset Fixture.storage Fixture.channelId 2 = Some Fixture.c)
    by evaluate.
  assert (Hlimit : (0 < 1)%Z) by lia.
  conjuncts; try assumption.
  exact (query_backward [Fixture.a; Fixture.c; Fixture.b; Fixture.d] Fixture.channelId 2
           Fixture.c 1 Hc Hlimit).
Defined.

Lemma computePartialDAG_known_witness :
  Channel.known (Channel.computePartialDAG Sample.channel Memory.empty Fixture.broken) !! 1
  = Some (Message.hash Fixture.b) /\
  StorageCache.hasMessage Sample.channel Memory.empty (Message.hash Fixture.b) = false /\
  exists abbr,
    abbr ∈ QueryResponse.abbreviatedMessages Fixture.broken /\
    QueryResponse.hash abbr = Message.hash Fixture.b /\
    forall parent, parent ∈ QueryResponse.parents abbr ->
      StorageCache.hasMessage Sample.channel Memory.empty parent = true \/
      parent ∈ take 2 (Channel.known
                         (Channel.computePartialDAG Sample.channel Memory.empty
                            Fixture.broken)).
Proof.
  assert (Hknown : Channel.known
                     (Channel.computePartialDAG Sample.channel Memory.empty Fixture.broken)
                     !! 1 = Some (Message.hash Fixture.b)) by evaluate.
  split; [assumption|].
  exact (computePartialDAG_known Sample.channel Memory.empty Fixture.broken 1
           (Message.hash Fixture.b) Hknown).
Defined.

Lemma computePartialDAG_closed_witness :
  (forall i abbr parent,
     QueryResponse.abbreviatedMessages Fixture.whole !! i = Some abbr ->
     parent ∈ QueryResponse.parents abbr ->
     StorageCache.hasMessage Sample.channel Memory.empty parent = true \/
     exists j other,
       j <= i /\ QueryResponse.abbreviatedMessages Fixture.whole !! j = Some other /\
       QueryResponse.hash other = parent) /\
  Channel.computePartialDAG Sample.channel Memory.empty Fixture.whole
  = {| Channel.external := [];
       Channel.known :=
         List.filter (fun hash => negb (StorageCache.hasMessage Sample.channel Memory.empty hash))
           (map QueryResponse.hash (QueryResponse.abbreviatedMessages Fixture.whole)) |}.
Proof.
  assert (Hclosed : forall i abbr parent,
            QueryResponse.abbreviatedMessages Fixture.whole !! i = Some abbr ->
            parent ∈ QueryResponse.parents abbr ->
            StorageCache.hasMessage Sample.channel Memory.empty parent = true \/
            exists j other,
              j <= i /\ QueryResponse.abbreviatedMessages Fixture.whole !! j = Some other /\
              QueryResponse.hash other = parent).
  { intros [|[|[|[|i]]]] abbr parent Hi Hp; simpl in Hi; try discriminate;
      injection Hi as <-; simpl in Hp;
      repeat (apply elem_of_cons in Hp as [->|Hp]);
      try (apply elem_of_nil in Hp; contradiction); right.
    - exists 0, (QueryResponse.abbreviate Fixture.a). split; [lia|]. split; reflexivity.
    - exists 0, (QueryResponse.abbreviate Fixture.a). split; [lia|]. split; reflexivity.
    - exists 1, (QueryResponse.abbreviate Fixture.b). split; [lia|]. split; reflexivity.
    - exists 2, (QueryResponse.abbreviate Fixture.c). split; [lia|]. split; reflexivity. }
  split; [exact Hclosed|].
  exact (computePartialDAG_closed Sample.channel Memory.empty Fixture.whole Hclosed).
Defined.

Lemma getMinLeafHeight_Reachable_witness :
  Reachable Sample.channel (Sample.received [Sample.root1; Sample.post1]) /\
  Channel.getMinLeafHeight Sample.channel (Sample.received [Sample.root1; Sample.post1])
  = Ok 1%Z /\
  exists least,
    Channel.getMinLeafHeight Sample.channel (Sample.received [Sample.root1; Sample.post1])
    = Ok least /\
    (0 <= least <= Channel.MAX_SAFE_INTEGER)%Z.
Proof.
  split; [apply Reachable_received|]. split; [evaluate|].
  destruct (getMinLeafHeight_Reachable Sample.channel
              (Sample.received [Sample.root1; Sample.post1])
              (Reachable_received [Sample.root1; Sample.post1]))
    as (least & Hleast & Hbounds & _).
  exists least. split; assumption.
Defined.

Lemma full_sync_first_page_witness :
  Reachable Sample.channel (Sample.received [Sample.root1; Sample.post1]) /\
  Memory.getMessageAtOffset (Sample.received [Sample.root1; Sample.post1])
    (ChannelCore.id Sample.channel) 0 = Some Sample.root1 /\
  (0 < 1024)%Z /\
  (0 < ChannelCore.maxQueryLimit (ChannelCore.options Sample.channel))%Z /\
  exists response,
    Channel.query Sample.channel (Sample.received [Sample.root1; Sample.post1])
      (Memory.AtHeight 0) false 1024 = Ok response /\
    Channel.external (Channel.computePartialDAG Sample.channel Memory.empty response) = [] /\
    Channel.known (Channel.computePartialDAG Sample.channel Memory.empty response)
    = [Message.hash Sample.root1; Message.hash Sample.post1].
Proof.
  assert (Hfirst : Memory.getMessageAtOffset (Sample.received [Sample.root1; Sample.post1])
                     (ChannelCore.id Sample.channel) 0 = Some Sample.root1) by evaluate.
  assert (Hlimit : (0 < 1024)%Z) by lia.
  assert (Hmax : (0 < ChannelCore.maxQueryLimit (ChannelCore.options Sample.channel))%Z)
    by reflexivity.
  conjuncts; [apply Reachable_received|assumption|assumption|assumption|].
  destruct (full_sync_first_page Sample.channel (Sample.received [Sample.root1; Sample.post1])
              Memory.empty Sample.root1 1024
              (Reachable_received [Sample.root1; Sample.post1]) Hfirst Hlimit Hmax)
    as (response & Hquery & _ & Hdag).
  exists response. split; [assumption|]. rewrite Hdag. simpl.
  assert (Hresponse : Ok response
                      = Channel.query Sample.channel
                          (Sample.received [Sample.root1; Sample.post1])
                          (Memory.AtHeight 0) false 1024) by (symmetry; assumption).
  split; [reflexivity|].
  assert (Hhashes : map QueryResponse.hash (QueryResponse.abbreviatedMessages response)
                    = [Message.hash Sample.root1; Message.hash Sample.post1]).
  { change (map QueryResponse.hash (QueryResponse.abbreviatedMessages response))
      with (match Ok response with
            | Ok r => map QueryResponse.hash (QueryResponse.abbreviatedMessages r)
            | Throw _ => []
            end).
    rewrite Hresponse. evaluate. }
  rewrite Hhashes. evaluate.
Defined.

Lemma sync_Reachable_witness :
  Reachable Sample.channel Memory.empty /\
  Reachable Sample.channel
    (fst (Channel.sync 5 Sample.channel Memory.empty
            (Fixture.peer (Sample.received [Sample.root1; Sample.post1])) false)) /\
  snd (Channel.sync 5 Sample.channel Memory.empty
         (Fixture.peer (Sample.received [Sample.root1; Sample.post1])) false) = Ok 2%Z.
Proof.
  split; [apply Reachable_empty|]. split; [|evaluate].
  exact (sync_Reachable 5 Sample.channel Memory.empty
           (Fixture.peer (Sample.received [Sample.root1; Sample.post1])) false
           (Reachable_empty Sample.channel)).
Defined.

Lemma sync_overflow_witness :
  Channel.getMinLeafHeight Sample.channel Memory.empty = Ok 0%Z /\
  (ChannelCore.maxQueryLimit (ChannelCore.options Sample.channel) < 1025)%Z /\
  Channel.sync 1 Sample.channel Memory.empty Fixture.flood false
  = (Memory.empty, Throw (TypeError "Cannot read property 'length' of undefined")).
Proof.
  assert (Hheight : (if false then Ok 0%Z
                     else Channel.getMinLeafHeight Sample.channel Memory.empty) = Ok 0%Z)
    by evaluate.
  assert (Hover : (ChannelCore.maxQueryLimit (ChannelCore.options Sample.channel) < 1025)%Z)
    by reflexivity.
  split; [exact Hheight|]. split; [exact Hover|].
  apply (sync_overflow 0 Sample.channel Memory.empty Fixture.flood false 0
           {| QueryResponse.abbreviatedMessages :=
                repeat (QueryResponse.abbreviate Sample.root1) 1025;
              QueryResponse.forwardHash := None;
              QueryResponse.backwardHash := None |} Hheight eq_refl).
  evaluate.
Defined.

Lemma sync_silent_witness :
  Channel.getMinLeafHeight Sample.channel Memory.empty = Ok 0%Z /\
  (0 <= ChannelCore.maxQueryLimit (ChannelCore.options Sample.channel))%Z /\
  Channel.sync 1 Sample.channel Memory.empty Fixture.mute false = (Memory.empty, Ok 0%Z).
Proof.
  assert (Hheight : (if false then Ok 0%Z
                     else Channel.getMinLeafHeight Sample.channel Memory.empty) = Ok 0%Z)
    by evaluate.
  assert (Hlimit : (0 <= ChannelCore.maxQueryLimit (ChannelCore.options Sample.channel))%Z)
    by (vm_compute; discriminate).
  split; [exact Hheight|]. split; [exact Hlimit|].
  exact (sync_silent 0 Sample.channel Memory.empty Fixture.mute false 0 Hheight eq_refl Hlimit).
Defined.

Lemma sync_endless_witness :
  Channel.getMinLeafHeight Sample.channel Memory.empty = Ok 0%Z /\
  (0 <= ChannelCore.maxQueryLimit (ChannelCore.options Sample.channel))%Z /\
  Channel.sync 1000 Sample.channel Memory.empty Fixture.tease false
  = (Memory.empty, Throw (Error "sync: out of fuel")).
Proof.
  assert (Hheight : (if false then Ok 0%Z
                     else Channel.getMinLeafHeight Sample.channel Memory.empty) = Ok 0%Z)
    by evaluate.
  assert (Hlimit : (0 <= ChannelCore.maxQueryLimit (ChannelCore.options Sample.channel))%Z)
    by (vm_compute; discriminate).
  split; [exact Hheight|]. split; [exact Hlimit|].
  apply (sync_endless 1000 Sample.channel Memory.empty Fixture.tease false 0 Hheight Hlimit).
  intros turn cursor isBackward limit. eexists _, _. reflexivity.
Defined.

Lemma message_round_trip_witness :
  Message.new Sample.rnd1 Fixture.memberOptions = Ok Fixture.memberPost /\
  (Message.height Fixture.memberPost < 2 ^ 53)%Z /\
  length (Message.hash Fixture.memberPost) = HASH_SIZE /\
  Message.deserialize (Message.serialize Fixture.memberPost)
  = Throw (TypeError "decoded.height.toNumber is not a function") /\
  Message.deserialize
    {| Message.d_channelId := Message.channelId Fixture.memberPost;
       Message.d_parents := Message.parents Fixture.memberPost;
       Message.d_height := Message.Long (Message.height Fixture.memberPost);
       Message.d_nonce := Message.nonce Fixture.memberPost;
       Message.d_encryptedContent := Message.encryptedContent Fixture.memberPost |}
  = Ok {| Message.channelId := Message.channelId Fixture.memberPost;
          Message.parents := Message.parents Fixture.memberPost;
          Message.height := Message.height Fixture.memberPost;
          Message.nonce := Message.nonce Fixture.memberPost;
          Message.content := None;
          Message.encryptedContent := Message.encryptedContent Fixture.memberPost;
          Message.hash := Message.hash Fixture.memberPost |}.
Proof.
  assert (Hnew : Message.new Sample.rnd1 Fixture.memberOptions = Ok Fixture.memberPost)
    by evaluate.
  assert (Hsafe : (Message.height Fixture.memberPost < 2 ^ 53)%Z) by evaluate.
  split; [exact Hnew|]. split; [exact Hsafe|].
  destruct (message_round_trip Sample.rnd1 Fixture.memberOptions Fixture.memberPost Hnew)
    as (_ & _ & _ & _ & _ & Hhash & Hthrown & Htrip).
  split; [exact Hhash|]. split; [exact Hthrown|exact (Htrip Hsafe)].
Defined.


Lemma verify_chain_valid_witness :
  (forall signature body : Buffer,
     crypto_sign_verify_detached signature body None <> Ok true) /\
  Message.verify Fixture.memberPost Sample.channel 1000 = Ok (true, Fixture.memberPost) /\
  exists c links,
    Message.decrypt Fixture.memberPost Sample.channel = Ok Fixture.memberPost /\
    Message.content Fixture.memberPost = Some c /\
    mapM Link.deserialize (PContent.chain c) = Ok links /\
    length links <= MAX_LENGTH /\
    (forall i link,
       links !! i = Some link ->
       Link.isValid link 1000 = true /\
       crypto_sign_verify_detached (Link.signature link) (Link.tbs Sample.channel link)
         (Some (signer Sample.channel links i)) = Ok true) /\
    crypto_sign_verify_detached (PContent.signature c)
      (Message.tbs c (Message.parents Fixture.memberPost)
         (Message.height Fixture.memberPost))
      (Some (signer Sample.channel links (length links))) = Ok true.
Proof.
  assert (Hfalse : forall signature body : Buffer,
            crypto_sign_verify_detached signature body None <> Ok true)
    by (intros signature body; discriminate).
  assert (Hverify : Message.verify Fixture.memberPost Sample.channel 1000
                    = Ok (true, Fixture.memberPost)) by evaluate.
  split; [exact Hfalse|]. split; [exact Hverify|].
  exact (verify_chain_valid Sample.channel 1000 Fixture.memberPost Fixture.memberPost
           Hfalse Hverify).
Defined.

Lemma stored_decrypted_witness :
  Reachable Sample.channel (Sample.received [Sample.root1; Sample.post1]) /\
  Memory.getMessageAtOffset (Sample.received [Sample.root1; Sample.post1])
    (ChannelCore.id Sample.channel) 0 = Some Sample.root1 /\
  Message.decrypt Sample.root1 Sample.channel = Ok Sample.root1 /\
  Message.isRoot Sample.root1 = Ok true.
Proof.
  assert (Hfirst : Memory.getMessageAtOffset (Sample.received [Sample.root1; Sample.post1])
                     (ChannelCore.id Sample.channel) 0 = Some Sample.root1) by evaluate.
  conjuncts; [apply Reachable_received|assumption| |evaluate].
  exact (proj1 (stored_decrypted Sample.channel _ 0 Sample.root1
                  (Reachable_received [Sample.root1; Sample.post1]) Hfirst)).
Defined.


End Samples.
